(** * ChunkForge parser service: cache layer, metadata enrichment, parse
      configuration.

    A shallow embedding of [src/parser/cache.py], [src/parser/metadata.py]
    and [src/parser/llama_parser.py], followed by the properties of the
    specification that are established on it.

    Conventions of the embedding
    - A Python [str] is a Rocq [string] read as a sequence of code points
      0..255; comparison is by code point, as in Python.
    - Clock readings ([time.time()], [st_mtime]) and TTLs are integers of
      one common unit, so that [file_age > self.ttl] is a comparison in [Z].
    - Statements that can raise are computations in a state-and-exception
      monad; [try ... except Exception] is [try_except].
    - The collaborators the repository imports (SHA-256, pickle, the JSON
      reader, tiktoken, PyPDF2, pydantic validation, LlamaParse) are
      section variables. *)

From stdpp Require Import gmap strings list fin_maps sorting pretty.
From Stdlib Require Import Ascii QArith Qround Qminmax Lqa.

#[local] Open Scope Z_scope.
#[local] Set Warnings "-register-all".

(* ===================================================================== *)
(** * Python runtime: exceptions and effects                              *)
(* ===================================================================== *)

(** Every exception modelled here is a subclass of [Exception]; [exn_msg]
    is what [str(e)] gives. *)
Record exn := Exn { exn_class : string; exn_msg : string }.

Inductive outcome (A : Type) : Type :=
  | Ret (a : A)
  | Raise (e : exn).
Arguments Ret {A} a.
Arguments Raise {A} e.

(** A computation over a mutable state [S] that returns or raises. *)
Definition M (S A : Type) : Type := S → outcome A * S.

Definition ret {S A} (a : A) : M S A := λ s, (Ret a, s).
Definition raise {S A} (e : exn) : M S A := λ s, (Raise e, s).
Definition lift {S A} (o : outcome A) : M S A := λ s, (o, s).
Definition bind {S A B} (m : M S A) (k : A → M S B) : M S B :=
  λ s, match m s with
       | (Ret a, s') => k a s'
       | (Raise e, s') => (Raise e, s')
       end.
(** [try: m except Exception as e: h e] *)
Definition try_except {S A} (m : M S A) (h : exn → M S A) : M S A :=
  λ s, match m s with
       | (Ret a, s') => (Ret a, s')
       | (Raise e, s') => h e s'
       end.

Notation "'let*' x ':=' m 'in' k" := (bind m (λ x, k))
  (at level 10, x name, m at level 100, k at level 200).
Notation "m ';;' k" := (bind m (λ _, k))
  (at level 100, k at level 200, right associativity).

(* ===================================================================== *)
(** * Python runtime: strings                                             *)
(* ===================================================================== *)

Definition dquote : string := String "034" "".
Definition newline : ascii := "010"%char.

(** [sep.join(parts)] *)
Definition join (sep : string) (parts : list string) : string :=
  match parts with
  | [] => ""
  | p :: ps => foldl (λ acc q, acc +:+ sep +:+ q) p ps
  end.

(** [str.isspace] on one code point (also the class [\s] of [re] on [str]). *)
Definition py_isspace (c : ascii) : bool :=
  let n := N_of_ascii c in
  ((9 <=? n) && (n <=? 13) || (28 <=? n) && (n <=? 32)
   || (n =? 133) || (n =? 160))%N.

Fixpoint lstrip (s : string) : string :=
  match s with
  | "" => ""
  | String c s' => if py_isspace c then lstrip s' else s
  end.

Fixpoint rstrip (s : string) : string :=
  match s with
  | "" => ""
  | String c s' =>
      match rstrip s' with
      | "" => if py_isspace c then "" else String c ""
      | r => String c r
      end
  end.

(** [s.strip()] *)
Definition strip (s : string) : string := rstrip (lstrip s).

(** [s.split(sep)] for a one-character separator. *)
Fixpoint split_on (sep : ascii) (s : string) : list string :=
  match s with
  | "" => [""]
  | String c s' =>
      if decide (c = sep) then "" :: split_on sep s'
      else match split_on sep s' with
           | h :: t => String c h :: t
           | [] => [String c ""]
           end
  end.

(** [s.split()]: maximal runs of non-whitespace. *)
Fixpoint py_words_go (cur : option string) (s : string) : list string :=
  match s with
  | "" => option_list (String.rev <$> cur)
  | String c s' =>
      if py_isspace c
      then option_list (String.rev <$> cur) ++ py_words_go None s'
      else py_words_go (Some (String c (default "" cur))) s'
  end.
Definition py_words (s : string) : list string := py_words_go None s.

(** [s.startswith(p)] *)
Fixpoint startswith (p s : string) : bool :=
  match p, s with
  | "", _ => true
  | String a p', String b s' => bool_decide (a = b) && startswith p' s'
  | String _ _, "" => false
  end.

(** [s.lower()] on code points 0..255: A-Z and the Latin-1 capitals. *)
Definition py_lower_char (c : ascii) : ascii :=
  let n := N_of_ascii c in
  if ((65 <=? n) && (n <=? 90)
      || (192 <=? n) && (n <=? 222) && negb (n =? 215))%N
  then ascii_of_N (n + 32) else c.
Fixpoint py_lower (s : string) : string :=
  match s with
  | "" => ""
  | String c s' => String (py_lower_char c) (py_lower s')
  end.

Definition digit_of (c : ascii) : option Z := Z.of_nat <$> Ascii.is_nat c.

Fixpoint digits_value (acc : Z) (s : string) : option Z :=
  match s with
  | "" => Some acc
  | String c s' =>
      match digit_of c with
      | Some d => digits_value (10 * acc + d) s'
      | None => None
      end
  end.

(** [int(s)] for an optional sign followed by ASCII decimal digits,
    surrounded by optional whitespace; [None] stands for [ValueError]. *)
Definition py_int (s : string) : option Z :=
  match strip s with
  | "" => None
  | String "-" ((String _ _) as ds) => Z.opp <$> digits_value 0 ds
  | String "+" ((String _ _) as ds) => digits_value 0 ds
  | String "-" "" | String "+" "" => None
  | ds => digits_value 0 ds
  end.

(* ===================================================================== *)
(** * Python runtime: JSON values and [json.dumps]                        *)
(* ===================================================================== *)

(** JSON-shaped Python values. A [float] is given by its [repr]. A [dict]
    is the list of its items in insertion order; its keys are pairwise
    distinct. *)
Inductive json : Type :=
  | JNull
  | JBool (b : bool)
  | JInt (n : Z)
  | JFloat (repr : string)
  | JStr (s : string)
  | JList (l : list json)
  | JDict (d : list (string * json)).

(** [d.get(k)] / [k in d] on the items of a dict. *)
Fixpoint dict_get {V} (k : string) (d : list (string * V)) : option V :=
  match d with
  | [] => None
  | (k', v) :: d' => if decide (k' = k) then Some v else dict_get k d'
  end.

(** Truth value of a JSON-shaped value. *)
Definition py_truthy (j : json) : bool :=
  match j with
  | JNull => false
  | JBool b => b
  | JInt n => negb (n =? 0)
  | JFloat r => negb (bool_decide (r = "0.0")) && negb (bool_decide (r = "-0.0"))
  | JStr s => negb (bool_decide (s = ""))
  | JList l => negb (bool_decide (l = []))
  | JDict d => negb (bool_decide (d = []))
  end.

Definition hex_digit (n : N) : ascii :=
  if (n <? 10)%N then ascii_of_N (48 + n) else ascii_of_N (87 + n).

(** One character of [json.encoder.py_encode_basestring_ascii]. *)
Definition json_escape_char (c : ascii) : string :=
  let n := N_of_ascii c in
  if decide (c = "\"%char) then "\\"
  else if decide (c = "034"%char) then "\" +:+ dquote
  else if decide (c = "008"%char) then "\b"
  else if decide (c = "012"%char) then "\f"
  else if decide (c = "010"%char) then "\n"
  else if decide (c = "013"%char) then "\r"
  else if decide (c = "009"%char) then "\t"
  else if ((32 <=? n) && (n <=? 126))%N then String c ""
  else "\u00" +:+ String (hex_digit (n / 16)) (String (hex_digit (n mod 16)) "").

Fixpoint json_escape (s : string) : string :=
  match s with
  | "" => ""
  | String c s' => json_escape_char c +:+ json_escape s'
  end.

Definition json_encode_str (s : string) : string :=
  dquote +:+ json_escape s +:+ dquote.

(** [json.encoder.floatstr]: the [repr] of the float, but for the three
    values that are not numbers of JSON. *)
Definition json_float_repr (r : string) : string :=
  if decide (r = "nan") then "NaN"
  else if decide (r = "inf") then "Infinity"
  else if decide (r = "-inf") then "-Infinity"
  else r.

(** The order [sorted(dct.items())] uses: keys are distinct, so tuples are
    ordered by their key alone. *)
Definition item_le {V} (a b : string * V) : Prop := String.le a.1 b.1.
Global Instance item_le_dec {V} (a b : string * V) : Decision (item_le a b).
Proof. unfold item_le. apply _. Defined.

Definition sort_items {V} (items : list (string * V)) : list (string * V) :=
  merge_sort item_le items.

(** [json.dumps(j, sort_keys=sort_keys)] with the default separators and
    [ensure_ascii=True]. For a dict the items are rendered and, when
    [sort_keys] is set, put in key order; the order only looks at keys, so
    sorting rendered items is sorting the items. *)
Fixpoint json_dumps (sort_keys : bool) (j : json) : string :=
  match j with
  | JNull => "null"
  | JBool true => "true"
  | JBool false => "false"
  | JInt n => pretty n
  | JFloat r => json_float_repr r
  | JStr s => json_encode_str s
  | JList l => "[" +:+ join ", " (json_dumps sort_keys <$> l) +:+ "]"
  | JDict d =>
      let rendered :=
        (λ kv : string * json, (kv.1, json_dumps sort_keys kv.2)) <$> d in
      let ordered := if sort_keys then sort_items rendered else rendered in
      "{" +:+
      join ", " ((λ kv, json_encode_str kv.1 +:+ ": " +:+ kv.2) <$> ordered)
      +:+ "}"
  end.

(* ===================================================================== *)
(** * The process environment                                             *)
(* ===================================================================== *)

Record file := File { contents : string; st_mtime : Z }.

(** The attributes every cache class sets in [__init__]. *)
Record cache_instance := CacheInstance { cache_dir : string; ttl : Z }.

Record world := World {
  fs : gmap string file;          (** regular files, by path *)
  stdout : list string;           (** lines printed so far, oldest first *)
  clock : Z;                      (** what [time.time()] reads *)
  disk_ok : bool;                 (** whether opening a file for writing works *)
  environ : gmap string string;   (** [os.environ] *)
  parse_cache_global : option cache_instance  (** [cache._parse_cache] *)
}.

Definition set_fs (f : gmap string file → gmap string file) (w : world) : world :=
  World (f (fs w)) (stdout w) (clock w) (disk_ok w) (environ w)
        (parse_cache_global w).
Definition set_stdout (f : list string → list string) (w : world) : world :=
  World (fs w) (f (stdout w)) (clock w) (disk_ok w) (environ w)
        (parse_cache_global w).
Definition set_parse_cache_global (c : cache_instance) (w : world) : world :=
  World (fs w) (stdout w) (clock w) (disk_ok w) (environ w) (Some c).
(** The clock moves between two calls. *)
Definition at_time (t : Z) (w : world) : world :=
  World (fs w) (stdout w) t (disk_ok w) (environ w) (parse_cache_global w).

Definition FileNotFoundError (p : string) : exn :=
  Exn "FileNotFoundError" ("[Errno 2] No such file or directory: " +:+ p).
Definition OSError (p : string) : exn :=
  Exn "OSError" ("[Errno 28] No space left on device: " +:+ p).

(** [path.exists()] *)
Definition path_exists (p : string) : M world bool :=
  λ w, (Ret (bool_decide (is_Some (fs w !! p))), w).
(** [path.stat().st_mtime] *)
Definition stat_mtime (p : string) : M world Z :=
  λ w, match fs w !! p with
       | Some f => (Ret (st_mtime f), w)
       | None => (Raise (FileNotFoundError p), w)
       end.
(** [path.unlink()] *)
Definition unlink (p : string) : M world unit :=
  λ w, match fs w !! p with
       | Some _ => (Ret (), set_fs (delete p) w)
       | None => (Raise (FileNotFoundError p), w)
       end.
(** [time.time()] *)
Definition time_time : M world Z := λ w, (Ret (clock w), w).
(** [print(line)] *)
Definition print (line : string) : M world unit :=
  λ w, (Ret (), set_stdout (λ out, out ++ [line]) w).
(** [open(p, 'r')] or [open(p, 'rb')] and the read of the whole file. *)
Definition open_read (p : string) : M world string :=
  λ w, match fs w !! p with
       | Some f => (Ret (contents f), w)
       | None => (Raise (FileNotFoundError p), w)
       end.
(** [open(p, 'w')] or [open(p, 'wb')]: the file is created or truncated. *)
Definition open_write (p : string) : M world unit :=
  λ w, if disk_ok w
       then (Ret (), set_fs (<[p := File "" (clock w)]>) w)
       else (Raise (OSError p), w).
(** The data written through the open handle, flushed when the [with]
    block is left. *)
Definition file_write (p data : string) : M world unit :=
  λ w, (Ret (), set_fs (<[p := File data (clock w)]>) w).
(** [os.getenv(name)] *)
Definition getenv (name : string) : M world (option string) :=
  λ w, (Ret (environ w !! name), w).

(** A Python value that may be [None], as an [option]. *)
Definition py_optional (j : json) : option json :=
  match j with JNull => None | _ => Some j end.

Section Service.

(** [hashlib.sha256(s.encode()).hexdigest()] *)
Context (sha256_hexdigest : string → string).

(** [pickle.dumps] and [pickle.loads] on the values the embedding cache is
    used with. *)
Context {Embedding : Type}.
Context (pickle_dumps : Embedding → outcome string).
Context (pickle_loads : string → outcome Embedding).

(** [json.loads]; the writer is [json_dumps] above. *)
Context (json_loads : string → outcome json).

(* ===================================================================== *)
(** * cache.py                                                            *)
(* ===================================================================== *)

(** ** class EmbeddingCache *)

Definition EmbeddingCache_get_cache_key (text model : string) : string :=
  let content := text +:+ ":" +:+ model in
  sha256_hexdigest content.

Definition EmbeddingCache_get_cache_path (self : cache_instance)
    (key : string) : string :=
  cache_dir self +:+ "/" +:+ key +:+ ".pkl".

Definition EmbeddingCache_get (self : cache_instance) (text model : string)
    : M world (option Embedding) :=
  let key := EmbeddingCache_get_cache_key text model in
  let cache_file := EmbeddingCache_get_cache_path self key in
  let* present := path_exists cache_file in
  if negb present then ret None
  else
    let* now := time_time in
    let* mtime := stat_mtime cache_file in
    let file_age := now - mtime in
    if bool_decide (file_age > ttl self) then
      (unlink cache_file ;; ret None)
    else
      try_except
        (let* data := open_read cache_file in
         let* value := lift (pickle_loads data) in
         ret (Some value))
        (λ e, print ("Error loading cache: " +:+ exn_msg e) ;; ret None).

Definition EmbeddingCache_set (self : cache_instance) (text model : string)
    (embedding : Embedding) : M world unit :=
  let key := EmbeddingCache_get_cache_key text model in
  let cache_file := EmbeddingCache_get_cache_path self key in
  try_except
    (open_write cache_file ;;
     let* data := lift (pickle_dumps embedding) in
     file_write cache_file data)
    (λ e, print ("Error saving cache: " +:+ exn_msg e)).

(** ** class ChunkResultCache *)

Definition ChunkResultCache_get_cache_key (text_hash strategy : string)
    (config : list (string * json)) : string :=
  let config_str := json_dumps true (JDict config) in
  let content := text_hash +:+ ":" +:+ strategy +:+ ":" +:+ config_str in
  sha256_hexdigest content.

Definition ChunkResultCache_get_cache_path (self : cache_instance)
    (key : string) : string :=
  cache_dir self +:+ "/" +:+ key +:+ ".json".

Definition ChunkResultCache_hash_text (text : string) : string :=
  sha256_hexdigest text.

Definition ChunkResultCache_get (self : cache_instance)
    (text strategy : string) (config : list (string * json))
    : M world (option json) :=
  let text_hash := ChunkResultCache_hash_text text in
  let key := ChunkResultCache_get_cache_key text_hash strategy config in
  let cache_file := ChunkResultCache_get_cache_path self key in
  let* present := path_exists cache_file in
  if negb present then ret None
  else
    let* now := time_time in
    let* mtime := stat_mtime cache_file in
    let file_age := now - mtime in
    if bool_decide (file_age > ttl self) then
      (unlink cache_file ;; ret None)
    else
      try_except
        (let* data := open_read cache_file in
         let* value := lift (json_loads data) in
         ret (py_optional value))
        (λ e, print ("Error loading chunk cache: " +:+ exn_msg e) ;; ret None).

Definition ChunkResultCache_set (self : cache_instance)
    (text strategy : string) (config : list (string * json))
    (chunks : list json) : M world unit :=
  let text_hash := ChunkResultCache_hash_text text in
  let key := ChunkResultCache_get_cache_key text_hash strategy config in
  let cache_file := ChunkResultCache_get_cache_path self key in
  try_except
    (open_write cache_file ;;
     file_write cache_file (json_dumps false (JList chunks)))
    (λ e, print ("Error saving chunk cache: " +:+ exn_msg e)).

(** ** class ParseResultCache *)

Definition ParseResultCache_get_cache_key (file_hash : string)
    (config : list (string * json)) (parser_method : string) : string :=
  let config_str := json_dumps true (JDict config) in
  let content := file_hash +:+ ":" +:+ parser_method +:+ ":" +:+ config_str in
  sha256_hexdigest content.

Definition ParseResultCache_get_cache_path (self : cache_instance)
    (key : string) : string :=
  cache_dir self +:+ "/" +:+ key +:+ ".json".

(** [data.get('markdown')] on whatever [json.load] returned. *)
Definition get_markdown (data : json) : outcome (option json) :=
  match data with
  | JDict d => Ret (dict_get "markdown" d ≫= py_optional)
  | _ => Raise (Exn "AttributeError" "object has no attribute 'get'")
  end.

Definition ParseResultCache_get (self : cache_instance) (file_hash : string)
    (config : list (string * json)) (parser_method : string)
    : M world (option json) :=
  let key := ParseResultCache_get_cache_key file_hash config parser_method in
  let cache_file := ParseResultCache_get_cache_path self key in
  let* present := path_exists cache_file in
  if negb present then ret None
  else
    let* now := time_time in
    let* mtime := stat_mtime cache_file in
    let file_age := now - mtime in
    if bool_decide (file_age > ttl self) then
      (unlink cache_file ;; ret None)
    else
      try_except
        (let* text := open_read cache_file in
         let* data := lift (json_loads text) in
         lift (get_markdown data))
        (λ e, print ("Error loading parse cache: " +:+ exn_msg e) ;; ret None).

(** The [cache_data] dictionary of [ParseResultCache.set]. *)
Definition parse_cache_data (file_hash : string)
    (config : list (string * json)) (markdown parser_method : string)
    (timestamp : Z) : json :=
  JDict [ ("file_hash", JStr file_hash);
          ("config", JDict config);
          ("markdown", JStr markdown);
          ("parser_method", JStr parser_method);
          ("timestamp", JFloat (pretty timestamp +:+ ".0")) ].

Definition ParseResultCache_set (self : cache_instance) (file_hash : string)
    (config : list (string * json)) (markdown parser_method : string)
    : M world unit :=
  let key := ParseResultCache_get_cache_key file_hash config parser_method in
  let cache_file := ParseResultCache_get_cache_path self key in
  let* timestamp := time_time in
  let cache_data :=
    parse_cache_data file_hash config markdown parser_method timestamp in
  try_except
    (open_write cache_file ;;
     file_write cache_file (json_dumps false cache_data))
    (λ e, print ("Error saving parse cache: " +:+ exn_msg e)).

(** ** Maintenance: [clear_expired], [clear_all], [get_size]

    A path is a string, and the files of a directory [dir] are the paths
    [dir/name] whose [name] holds no separator. *)

(** [s] without its prefix [p], when it starts with [p]. *)
Fixpoint strip_prefix (p s : string) : option string :=
  match p, s with
  | "", _ => Some s
  | String a p', String b s' => if decide (a = b) then strip_prefix p' s' else None
  | String _ _, "" => None
  end.

(** [s.endswith(suffix)] *)
Fixpoint endswith (suffix s : string) : bool :=
  bool_decide (s = suffix)
  || match s with
     | "" => false
     | String _ s' => endswith suffix s'
     end.

(** [c in s] for one character *)
Fixpoint has_char (c : ascii) (s : string) : bool :=
  match s with
  | "" => false
  | String c' s' => bool_decide (c' = c) || has_char c s'
  end.

(** Whether the path [p] is matched by [dir.glob("*" + suffix)]: a file
    of [dir] itself whose name ends in [suffix]. *)
Definition glob_match (dir suffix p : string) : bool :=
  match strip_prefix (dir +:+ "/") p with
  | Some name => negb (has_char "/" name) && endswith suffix name
  | None => false
  end.

(** [dir.glob("*" + suffix)], which lists the directory before the loop
    body runs. *)
Definition glob (dir suffix : string) : M world (list string) :=
  λ w, (Ret (filter (λ p, glob_match dir suffix p) (map_to_list (fs w)).*1), w).

(** [path.stat().st_size] *)
Definition stat_size (p : string) : M world Z :=
  λ w, match fs w !! p with
       | Some f => (Ret (Z.of_nat (String.length (contents f))), w)
       | None => (Raise (FileNotFoundError p), w)
       end.

(** [for x in xs: body x] *)
Fixpoint for_each {S A} (xs : list A) (body : A → M S unit) : M S unit :=
  match xs with
  | [] => ret ()
  | x :: xs' => body x ;; for_each xs' body
  end.

(** [sum(f.stat().st_size for f in files)], from the running total. *)
Fixpoint sum_sizes (total : Z) (files : list string) : M world Z :=
  match files with
  | [] => ret total
  | f :: files' =>
      let* size := stat_size f in
      sum_sizes (total + size) files'
  end.

Definition EmbeddingCache_clear_expired (self : cache_instance) : M world unit :=
  let* current_time := time_time in
  let* files := glob (cache_dir self) ".pkl" in
  for_each files (λ cache_file,
    let* mtime := stat_mtime cache_file in
    let file_age := current_time - mtime in
    if bool_decide (file_age > ttl self) then unlink cache_file else ret ()).

Definition EmbeddingCache_clear_all (self : cache_instance) : M world unit :=
  let* files := glob (cache_dir self) ".pkl" in
  for_each files unlink.

Definition EmbeddingCache_get_size (self : cache_instance) : M world (Z * Z) :=
  let* files := glob (cache_dir self) ".pkl" in
  let* total_size := sum_sizes 0 files in
  ret (Z.of_nat (length files), total_size).

Definition ChunkResultCache_clear_expired (self : cache_instance) : M world unit :=
  let* current_time := time_time in
  let* files := glob (cache_dir self) ".json" in
  for_each files (λ cache_file,
    let* mtime := stat_mtime cache_file in
    let file_age := current_time - mtime in
    if bool_decide (file_age > ttl self) then unlink cache_file else ret ()).

Definition ChunkResultCache_clear_all (self : cache_instance) : M world unit :=
  let* files := glob (cache_dir self) ".json" in
  for_each files unlink.

Definition ParseResultCache_clear_expired (self : cache_instance) : M world unit :=
  let* current_time := time_time in
  let* files := glob (cache_dir self) ".json" in
  for_each files (λ cache_file,
    let* mtime := stat_mtime cache_file in
    let file_age := current_time - mtime in
    if bool_decide (file_age > ttl self) then unlink cache_file else ret ()).

Definition ParseResultCache_clear_all (self : cache_instance) : M world unit :=
  let* files := glob (cache_dir self) ".json" in
  for_each files unlink.

(* ===================================================================== *)
(** * metadata.py                                                         *)
(* ===================================================================== *)

(** [len(tiktoken.get_encoding(encoding_name).encode(text))] *)
Context (tiktoken_count : string → string → outcome nat).

Definition encoding_map : list (string * string) :=
  [ ("gpt-4", "cl100k_base");
    ("gpt-3.5-turbo", "cl100k_base");
    ("text-davinci-003", "p50k_base");
    ("text-davinci-002", "p50k_base") ].

Definition calculate_token_count (text model : string) : Z :=
  let encoding_name := default "cl100k_base" (dict_get model encoding_map) in
  match tiktoken_count encoding_name text with
  | Ret n => Z.of_nat n
  | Raise _ => Z.of_nat (String.length text) `div` 4
  end.

(** ** Heading extraction *)

Fixpoint count_hashes (s : string) : nat * string :=
  match s with
  | String "#" s' => let '(n, rest) := count_hashes s' in (S n, rest)
  | _ => (O, s)
  end.

(** [(.+)$]: at least one character other than a newline, up to the end
    of the string or to a newline that ends the string. *)
Fixpoint match_body (s : string) : option string :=
  match s with
  | "" => None
  | String c s' =>
      if decide (c = newline) then None
      else match s' with
           | "" => Some (String c "")
           | String c' "" =>
               if decide (c' = newline) then Some (String c "")
               else Some (String c (String c' ""))
           | _ => String c <$> match_body s'
           end
  end.

(** [\s*(.+)$] with the whitespace taken greedily: the longest run of
    whitespace after which the body matches. *)
Fixpoint match_spaces_body (s : string) : option string :=
  match s with
  | "" => None
  | String c s' =>
      if py_isspace c then
        match match_spaces_body s' with
        | Some g => Some g
        | None => match_body s
        end
      else match_body s
  end.

(** [re.match(r'^(#{1,6})\s+(.+)$', line)]: the length of group 1 and
    group 2. *)
Definition match_heading (line : string) : option (nat * string) :=
  let '(n, rest) := count_hashes line in
  if bool_decide (1 ≤ n ≤ 6)%nat then
    match rest with
    | String c rest' =>
        if py_isspace c
        then (λ g, (n, g)) <$> match_spaces_body rest'
        else None
    | "" => None
    end
  else None.

(** The loop over [lines[:5]], left at the first match. *)
Fixpoint first_heading (lines : list string) : list (string * json) :=
  match lines with
  | [] => []
  | line :: lines' =>
      match match_heading (strip line) with
      | Some (hashes, body) =>
          let level := Z.of_nat hashes in
          let heading_text := strip body in
          [ ("heading_" +:+ pretty level, JStr heading_text);
            ("heading_level", JInt level) ]
      | None => first_heading lines'
      end
  end.

Definition extract_heading_metadata (text : string) : list (string * json) :=
  let lines := split_on newline (strip text) in
  first_heading (take 5 lines).

(** ** Chunks and their metadata dictionaries

    [enrich_metadata] mutates the metadata dictionaries of its argument in
    place, so they live in a store and a chunk holds a reference; two
    chunks may hold the same one. A metadata dictionary is a finite map:
    the order of its items is not observed here. *)

Record chunk := Chunk {
  chunk_text : option string;        (** [chunk['text']], when present *)
  chunk_metadata : option positive   (** [chunk['metadata']], when present *)
}.

Definition deref (h : gmap positive (gmap string json)) (l : positive)
    : gmap string json :=
  default ∅ (h !! l).

(** [{}] *)
Definition new_dict : M (gmap positive (gmap string json)) positive :=
  λ h, let l := fresh (dom h) in (Ret l, <[l := ∅]> h).
(** [key in metadata] *)
Definition meta_contains (l : positive) (key : string)
    : M (gmap positive (gmap string json)) bool :=
  λ h, (Ret (bool_decide (is_Some (deref h l !! key))), h).
(** [metadata[key] = value] *)
Definition meta_set (l : positive) (key : string) (value : json)
    : M (gmap positive (gmap string json)) unit :=
  λ h, (Ret (), <[l := <[key := value]> (deref h l)]> h).
(** [metadata.update(items)] *)
Fixpoint meta_update (l : positive) (items : list (string * json))
    : M (gmap positive (gmap string json)) unit :=
  match items with
  | [] => ret ()
  | (k, v) :: items' => meta_set l k v ;; meta_update l items'
  end.

(** [" > ".join(parts)]: every part has to be a [str]. *)
Fixpoint str_parts (parts : list json) : outcome (list string) :=
  match parts with
  | [] => Ret []
  | JStr s :: parts' =>
      match str_parts parts' with
      | Ret ss => Ret (s :: ss)
      | Raise e => Raise e
      end
  | _ :: _ => Raise (Exn "TypeError" "sequence item: expected str instance")
  end.

Definition heading_key (level : Z) : string := "heading_" +:+ pretty level.

Definition build_section_path (metadata : gmap string json) : outcome string :=
  let path_parts :=
    omap (λ level,
            match metadata !! heading_key level with
            | Some v => if py_truthy v then Some v else None
            | None => None
            end)
         (seqZ 1 6) in
  match path_parts with
  | [] => Ret ""
  | _ => match str_parts path_parts with
         | Ret ss => Ret (join " > " ss)
         | Raise e => Raise e
         end
  end.

(** ** enrich_metadata *)

Definition should_include_field (schema_field_names : option (list string))
    (field_name : string) : bool :=
  match schema_field_names with
  | None => true
  | Some names => bool_decide (field_name ∈ names)
  end.

(** [section_path = build_section_path(metadata)], stored when it is not
    empty. *)
Definition store_section_path (metadata : positive)
    : M (gmap positive (gmap string json)) unit :=
  let* section_path := (λ h, (build_section_path (deref h metadata), h)) in
  if negb (bool_decide (section_path = ""))
  then meta_set metadata "section_path" (JStr section_path)
  else ret ().

(** One [key, value] of [heading_meta] applied to [current_headings]. *)
Definition update_headings (current_headings : gmap Z json)
    (item : string * json) : gmap Z json :=
  let '(key, value) := item in
  if startswith "heading_" key && negb (bool_decide (key = "heading_level"))
  then
    match py_int (default "" (split_on "_" key !! 1%nat)) with
    | Some level =>
        foldl (λ m l, delete l m) (<[level := value]> current_headings)
              (seqZ (level + 1) (7 - (level + 1)))
    | None => current_headings
    end
  else current_headings.

(** [for level in sorted(current_headings.keys()): ...] *)
Fixpoint write_headings (schema_field_names : option (list string))
    (metadata : positive) (current_headings : gmap Z json) (levels : list Z)
    : M (gmap positive (gmap string json)) unit :=
  match levels with
  | [] => ret ()
  | level :: levels' =>
      (if should_include_field schema_field_names (heading_key level)
       then meta_set metadata (heading_key level)
                     (default JNull (current_headings !! level))
       else ret ()) ;;
      write_headings schema_field_names metadata current_headings levels'
  end.

Definition sorted_keys (m : gmap Z json) : list Z :=
  merge_sort Z.le (map_to_list m).*1.

(** The branch [strategy == 'by_heading']. *)
Definition enrich_by_heading (schema_field_names : option (list string))
    (metadata : positive) : M (gmap positive (gmap string json)) unit :=
  let include := should_include_field schema_field_names in
  let* has_path := meta_contains metadata "section_path" in
  if negb has_path && include "section_path"
  then store_section_path metadata
  else ret ().

(** The branch [strategy == 'hierarchical']. *)
Definition enrich_hierarchical (schema_field_names : option (list string))
    (text : string) (metadata : positive)
    : M (gmap positive (gmap string json)) unit :=
  let include := should_include_field schema_field_names in
  let* has_level := meta_contains metadata "heading_level" in
  if negb has_level then
    let heading_meta := extract_heading_metadata text in
    let filtered_meta := filter (λ kv, include kv.1) heading_meta in
    meta_update metadata filtered_meta ;;
    if negb (bool_decide (heading_meta = [])) && include "section_path"
    then store_section_path metadata
    else ret ()
  else ret ().

(** The branch of all other strategies; it returns [current_headings] as
    the loop body leaves it. *)
Definition enrich_other (schema_field_names : option (list string))
    (current_headings : gmap Z json) (text : string) (metadata : positive)
    : M (gmap positive (gmap string json)) (gmap Z json) :=
  let include := should_include_field schema_field_names in
  let heading_meta := extract_heading_metadata text in
  let* current_headings :=
    (if negb (bool_decide (heading_meta = [])) then
       let updated := foldl update_headings current_headings heading_meta in
       let filtered_meta := filter (λ kv, include kv.1) heading_meta in
       meta_update metadata filtered_meta ;;
       ret updated
     else ret current_headings) in
  (if negb (bool_decide (current_headings = ∅)) then
     write_headings schema_field_names metadata current_headings
                    (sorted_keys current_headings) ;;
     if include "section_path"
     then store_section_path metadata
     else ret ()
   else ret ()) ;;
  ret current_headings.

(** [token_count], added when it is not present and the schema has it. *)
Definition add_token_count (schema_field_names : option (list string))
    (text : string) (metadata : positive)
    : M (gmap positive (gmap string json)) unit :=
  let* has_token_count := meta_contains metadata "token_count" in
  if negb has_token_count
     && should_include_field schema_field_names "token_count"
  then meta_set metadata "token_count"
                (JInt (calculate_token_count text "gpt-4"))
  else ret ().

(** [position_in_document] and [total_chunks], when the schema has them. *)
Definition add_position (schema_field_names : option (list string))
    (idx total : Z) (metadata : positive)
    : M (gmap positive (gmap string json)) unit :=
  let include := should_include_field schema_field_names in
  (if include "position_in_document"
   then meta_set metadata "position_in_document" (JInt idx)
   else ret ()) ;;
  if include "total_chunks"
  then meta_set metadata "total_chunks" (JInt total)
  else ret ().

(** The strategy-specific enrichment; it returns [current_headings] as the
    loop body leaves it. *)
Definition enrich_strategy (strategy : string)
    (schema_field_names : option (list string))
    (current_headings : gmap Z json) (text : string) (metadata : positive)
    : M (gmap positive (gmap string json)) (gmap Z json) :=
  if decide (strategy = "by_heading") then
    enrich_by_heading schema_field_names metadata ;;
    ret current_headings
  else if decide (strategy = "hierarchical") then
    enrich_hierarchical schema_field_names text metadata ;;
    ret current_headings
  else
    enrich_other schema_field_names current_headings text metadata.

(** The body of the loop: the new heading context and the enriched chunk. *)
Definition enrich_chunk (strategy : string)
    (schema_field_names : option (list string)) (total : Z)
    (current_headings : gmap Z json) (idx : Z) (c : chunk)
    : M (gmap positive (gmap string json))
        (gmap Z json * (string * positive)) :=
  let text := default "" (chunk_text c) in
  let* metadata :=
    (match chunk_metadata c with Some l => ret l | None => new_dict end) in
  add_token_count schema_field_names text metadata ;;
  add_position schema_field_names idx total metadata ;;
  let* current_headings :=
    enrich_strategy strategy schema_field_names current_headings text
                    metadata in
  ret (current_headings, (text, metadata)).

Fixpoint enrich_loop (strategy : string)
    (schema_field_names : option (list string)) (total : Z)
    (current_headings : gmap Z json) (idx : Z) (chunks : list chunk)
    : M (gmap positive (gmap string json)) (list (string * positive)) :=
  match chunks with
  | [] => ret []
  | c :: chunks' =>
      let* r := enrich_chunk strategy schema_field_names total
                             current_headings idx c in
      let* enriched := enrich_loop strategy schema_field_names total
                                   r.1 (idx + 1) chunks' in
      ret (r.2 :: enriched)
  end.

(** The enriched chunks are pairs of a text and a reference to the (same,
    mutated) metadata dictionary. *)
Definition enrich_metadata (chunks : list chunk) (strategy : string)
    (original_text : string) (schema_field_names : option (list string))
    : M (gmap positive (gmap string json)) (list (string * positive)) :=
  enrich_loop strategy schema_field_names (Z.of_nat (length chunks)) ∅ 0 chunks.

(** ** Reading time, code blocks, complexity

    Python floats are idealised as rationals: the arithmetic of
    [calculate_complexity_score] is carried out exactly in [Q]. *)

(** [round(x)]: to the nearest integer, ties to the even one. *)
Definition round_half_even (x : Q) : Z :=
  let f := Qfloor x in
  match Qcompare (x - inject_Z f) (1 # 2) with
  | Lt => f
  | Gt => f + 1
  | Eq => if Z.even f then f else f + 1
  end.

(** [round(x, 2)] *)
Definition round2 (x : Q) : Q := (round_half_even (x * 100) # 100)%Q.

(** [estimate_reading_time]; the division raises for a speed of zero. *)
Definition estimate_reading_time (text : string) (words_per_minute : Z)
    : outcome Z :=
  let word_count := Z.of_nat (length (py_words text)) in
  if decide (words_per_minute = 0)
  then Raise (Exn "ZeroDivisionError" "division by zero")
  else
    let reading_time :=
      1 `max` round_half_even (inject_Z word_count / inject_Z words_per_minute) in
    Ret reading_time.

(** [\w] on code points 0..255: alphanumeric or underscore. *)
Definition py_isword (c : ascii) : bool :=
  let n := N_of_ascii c in
  ((48 <=? n) && (n <=? 57) || (65 <=? n) && (n <=? 90)
   || (97 <=? n) && (n <=? 122) || (n =? 95)
   || (n =? 170) || (n =? 178) || (n =? 179) || (n =? 181)
   || (n =? 185) || (n =? 186) || (188 <=? n) && (n <=? 190)
   || (192 <=? n) && (n <=? 214) || (216 <=? n) && (n <=? 246)
   || (248 <=? n))%N.

(** The longest run of [\w] at the start of [s], and what follows it. *)
Fixpoint word_run (s : string) : string * string :=
  match s with
  | String c s' =>
      if py_isword c
      then let '(w, rest) := word_run s' in (String c w, rest)
      else ("", s)
  | "" => ("", "")
  end.

(** [(.*?)```] with DOTALL: the text up to the first fence, and what
    follows that fence. *)
Fixpoint until_fence (s : string) : option (string * string) :=
  match s with
  | String "`" (String "`" (String "`" rest)) => Some ("", rest)
  | String c s' =>
      match until_fence s' with
      | Some (body, rest) => Some (String c body, rest)
      | None => None
      end
  | "" => None
  end.

(** One match of [```(\w+)?\n(.*?)```] anchored at the start of [s]: the
    two groups and the text after the match. *)
Definition match_code_block (s : string) : option (string * string * string) :=
  match s with
  | String "`" (String "`" (String "`" s1)) =>
      let '(lang, s2) := word_run s1 in
      match s2 with
      | String c s3 =>
          if decide (c = newline)
          then (λ br : string * string, (lang, br.1, br.2)) <$> until_fence s3
          else None
      | "" => None
      end
  | _ => None
  end.

(** [re.findall(pattern, text, re.DOTALL)]: the matches from left to right,
    none overlapping another. Each step consumes a character, so a fuel of
    the length of the text is never used up. *)
Fixpoint findall_code_blocks (fuel : nat) (s : string)
    : list (string * string) :=
  match fuel, s with
  | S fuel', String _ s' =>
      match match_code_block s with
      | Some (lang, body, rest) => (lang, body) :: findall_code_blocks fuel' rest
      | None => findall_code_blocks fuel' s'
      end
  | _, _ => []
  end.

Definition extract_code_blocks (text : string) : list (string * string) :=
  (λ m : string * string,
     let language := if bool_decide (m.1 = "") then "text" else m.1 in
     let code := strip m.2 in
     (language, code))
  <$> findall_code_blocks (String.length text) text.

(** [re.split(r'[.!?]+', text)] *)
Definition is_sentence_end (c : ascii) : bool :=
  bool_decide (c = "."%char) || bool_decide (c = "!"%char)
  || bool_decide (c = "?"%char).

Fixpoint split_sentences_go (in_run : bool) (s : string) : list string :=
  match s with
  | "" => [""]
  | String c s' =>
      if is_sentence_end c then
        if in_run then split_sentences_go true s'
        else "" :: split_sentences_go true s'
      else
        match split_sentences_go false s' with
        | h :: t => String c h :: t
        | [] => [String c ""]
        end
  end.
Definition split_sentences (text : string) : list string :=
  split_sentences_go false text.

(** [re.search(r'[$].*?[$]', text)]: two dollar signs on one line. *)
Fixpoint dollar_ahead (s : string) : bool :=
  match s with
  | "" => false
  | String c s' =>
      if decide (c = "$"%char) then true
      else if decide (c = newline) then false
      else dollar_ahead s'
  end.
Fixpoint search_math (s : string) : bool :=
  match s with
  | "" => false
  | String c s' => bool_decide (c = "$"%char) && dollar_ahead s' || search_math s'
  end.

(** [re.search(r'\[.*?\]\(.*?\)', text)] *)
Fixpoint paren_ahead (s : string) : bool :=
  match s with
  | "" => false
  | String c s' =>
      if decide (c = ")"%char) then true
      else if decide (c = newline) then false
      else paren_ahead s'
  end.
Fixpoint bracket_ahead (s : string) : bool :=
  match s with
  | "" => false
  | String c s' =>
      bool_decide (c = "]"%char)
        && match s' with String "(" s'' => paren_ahead s'' | _ => false end
      || negb (bool_decide (c = newline)) && bracket_ahead s'
  end.
Fixpoint search_link (s : string) : bool :=
  match s with
  | "" => false
  | String c s' => bool_decide (c = "["%char) && bracket_ahead s' || search_link s'
  end.

Definition Q_of_nat (n : nat) : Q := inject_Z (Z.of_nat n).
Definition Q_of_bool (b : bool) : Q := if b then 1%Q else 0%Q.

Definition calculate_complexity_score (text : string) : Q :=
  if bool_decide (text = "") then 0%Q
  else
    let sentences := split_sentences text in
    let sentence_count :=
      length (filter (λ s, strip s ≠ "") sentences) in
    if bool_decide (sentence_count = 0%nat) then 0%Q
    else
      let words := py_words text in
      let word_count := length words in
      if bool_decide (word_count = 0%nat) then 0%Q
      else
        let avg_sentence_length :=
          (Q_of_nat word_count / Q_of_nat sentence_count)%Q in
        let length_score := Qmin (avg_sentence_length / 30) 1 in
        let unique_words := length (remove_dups (py_lower <$> words)) in
        let diversity_score := (Q_of_nat unique_words / Q_of_nat word_count)%Q in
        let code_blocks := length (extract_code_blocks text) in
        let has_math := search_math text in
        let has_links := search_link text in
        let technical_score :=
          Qmin (Q_of_nat code_blocks * (2 # 10) + Q_of_bool has_math * (3 # 10)
                + Q_of_bool has_links * (1 # 10)) (5 # 10) in
        let complexity :=
          (length_score * (3 # 10) + diversity_score * (4 # 10)
           + technical_score * (3 # 10))%Q in
        round2 complexity.

(* ===================================================================== *)
(** * llama_parser.py                                                     *)
(* ===================================================================== *)

Record ParseResult := MkParseResult { markdown : json; page_count : Z }.

(** [len(PdfReader(file_path).pages)] on the bytes of the file. *)
Context (PdfReader_pages : string → outcome nat).

Definition get_pdf_page_count (file_path : string) : M world Z :=
  try_except
    (let* data := open_read file_path in
     let* n := lift (PdfReader_pages data) in
     ret (Z.of_nat n))
    (λ e, print ("Warning: Could not extract page count: " +:+ exn_msg e) ;;
          ret 0).

Record ParseConfig := MkParseConfig {
  language : string;
  disable_ocr : bool;
  skip_diagonal_text : bool;
  target_pages : option string;
  page_separator : string;
  output_tables_as_HTML : bool;
  preserve_layout_alignment_across_pages : bool;
  hide_headers : bool;
  hide_footers : bool
}.

(** [ParseConfig()]: the declared defaults. *)
Definition ParseConfig_defaults : ParseConfig :=
  {| language := "en";
     disable_ocr := false;
     skip_diagonal_text := false;
     target_pages := None;
     page_separator := String newline ("---" +:+ String newline "");
     output_tables_as_HTML := false;
     preserve_layout_alignment_across_pages := false;
     hide_headers := false;
     hide_footers := false |}.

(** [parse_config.model_dump()] *)
Definition model_dump (c : ParseConfig) : list (string * json) :=
  [ ("language", JStr (language c));
    ("disable_ocr", JBool (disable_ocr c));
    ("skip_diagonal_text", JBool (skip_diagonal_text c));
    ("target_pages", from_option JStr JNull (target_pages c));
    ("page_separator", JStr (page_separator c));
    ("output_tables_as_HTML", JBool (output_tables_as_HTML c));
    ("preserve_layout_alignment_across_pages",
     JBool (preserve_layout_alignment_across_pages c));
    ("hide_headers", JBool (hide_headers c));
    ("hide_footers", JBool (hide_footers c)) ].

Definition DEFAULT_PARSE_CONFIG : list (string * json) :=
  model_dump ParseConfig_defaults.

(** [ParseConfig] applied to the items of [config]: pydantic's validation
    of a mapping against the model, which raises a [ValidationError] or
    builds the instance. *)
Context (ParseConfig_init : list (string * json) → outcome ParseConfig).

(** [LlamaParse(api_key=..., <the fields of parse_config>).load_data(path)]:
    the [text] of each returned document, from the bytes of the file. *)
Context (LlamaParse_load_data :
           string → ParseConfig → string → outcome (list string)).

(** [_hash_file]: the digest of the bytes of the file, which the source
    feeds to the hash in blocks of 4096 bytes. *)
Definition hash_file (file_path : string) : M world string :=
  let* data := open_read file_path in
  ret (sha256_hexdigest data).

(** [cache.get_parse_cache()] *)
Definition get_parse_cache : M world cache_instance :=
  λ w, match parse_cache_global w with
       | Some c => (Ret c, w)
       | None =>
           let dir := default "./cache/parses" (environ w !! "PARSE_CACHE_DIR") in
           match py_int (default "604800" (environ w !! "PARSE_CACHE_TTL")) with
           | Some t =>
               let c := CacheInstance dir t in
               (Ret c, set_parse_cache_global c w)
           | None =>
               (Raise (Exn "ValueError" "invalid literal for int() with base 10"),
                w)
           end
       end.

(** Lines 134-169 of [parse_pdf]: what is done once [config] is settled. *)
Definition parse_with_config (file_path : string) (page_count : Z)
    (api_key : string) (config : list (string * json)) : M world ParseResult :=
  let* parse_config := lift (ParseConfig_init config) in
  let* file_hash := hash_file file_path in
  let* cache := get_parse_cache in
  let* cached_result :=
    ParseResultCache_get cache file_hash config "llamaparse" in
  match cached_result with
  | Some cached =>
      print ("Cache hit for " +:+ file_path +:+ " (LlamaParse)") ;;
      ret (MkParseResult cached page_count)
  | None =>
      let* data := open_read file_path in
      let* documents := lift (LlamaParse_load_data api_key parse_config data) in
      let markdown := join (String newline (String newline "")) documents in
      ParseResultCache_set cache file_hash config markdown "llamaparse" ;;
      print "Successfully parsed with LlamaParse" ;;
      ret (MkParseResult (JStr markdown) page_count)
  end.

(** [parse_pdf]; the two imports at its top are taken to succeed. *)
Definition parse_pdf (file_path : string)
    (config : option (list (string * json))) : M world ParseResult :=
  let* page_count := get_pdf_page_count file_path in
  let* api_key := getenv "LLAMA_CLOUD_API_KEY" in
  match api_key with
  | None | Some "" =>
      raise (Exn "ValueError"
                 "LLAMA_CLOUD_API_KEY environment variable is not set")
  | Some api_key =>
      let* config :=
        (match config with
         | None => ret DEFAULT_PARSE_CONFIG
         | Some config =>
             try_except
               (let* parse_config := lift (ParseConfig_init config) in
                ret (model_dump parse_config))
               (λ e, print ("Invalid config, using defaults: " +:+ exn_msg e) ;;
                     ret DEFAULT_PARSE_CONFIG)
         end) in
      parse_with_config file_path page_count api_key config
  end.

(* ===================================================================== *)
(** * cache.py: the global instances and [cleanup_caches]                  *)
(* ===================================================================== *)

(** The module globals [_embedding_cache] and [_chunk_cache]; the third,
    [_parse_cache], is [parse_cache_global] of the world. *)
Record cache_globals := CacheGlobals {
  embedding_cache_global : option cache_instance;
  chunk_cache_global : option cache_instance
}.

(** A computation on the world, run in a state that also holds the two
    globals. *)
Definition in_world {A} (m : M world A) : M (world * cache_globals) A :=
  λ s, let '(o, w') := m s.1 in (o, (w', s.2)).

Definition get_embedding_cache : M (world * cache_globals) cache_instance :=
  λ s, match embedding_cache_global s.2 with
       | Some c => (Ret c, s)
       | None =>
           let dir :=
             default "./cache/embeddings" (environ s.1 !! "EMBEDDING_CACHE_DIR") in
           match py_int (default "604800" (environ s.1 !! "EMBEDDING_CACHE_TTL")) with
           | Some t =>
               let c := CacheInstance dir t in
               (Ret c, (s.1, CacheGlobals (Some c) (chunk_cache_global s.2)))
           | None =>
               (Raise (Exn "ValueError" "invalid literal for int() with base 10"),
                s)
           end
       end.

Definition get_chunk_cache : M (world * cache_globals) cache_instance :=
  λ s, match chunk_cache_global s.2 with
       | Some c => (Ret c, s)
       | None =>
           let dir := default "./cache/chunks" (environ s.1 !! "CHUNK_CACHE_DIR") in
           match py_int (default "86400" (environ s.1 !! "CHUNK_CACHE_TTL")) with
           | Some t =>
               let c := CacheInstance dir t in
               (Ret c, (s.1, CacheGlobals (embedding_cache_global s.2) (Some c)))
           | None =>
               (Raise (Exn "ValueError" "invalid literal for int() with base 10"),
                s)
           end
       end.

Definition cleanup_caches : M (world * cache_globals) unit :=
  try_except
    (let* embedding_cache := get_embedding_cache in
     in_world (EmbeddingCache_clear_expired embedding_cache) ;;
     let* chunk_cache := get_chunk_cache in
     in_world (ChunkResultCache_clear_expired chunk_cache) ;;
     let* parse_cache := in_world get_parse_cache in
     in_world (ParseResultCache_clear_expired parse_cache) ;;
     in_world (print "Cache cleanup completed"))
    (λ e, in_world (print ("Error during cache cleanup: " +:+ exn_msg e))).

(* ===================================================================== *)
(** * Reference collaborators

    Closed instances of the collaborators, on which the properties below
    are exercised at concrete inputs. *)
(* ===================================================================== *)

(** A digest that is the text itself. *)
Definition plain_digest (s : string) : string := s.

(** A reader that knows the renderings of the values in [known]. *)
Fixpoint reads_back (known : list json) (text : string) : outcome json :=
  match known with
  | [] => Raise (Exn "JSONDecodeError" "Expecting value: line 1 column 1 (char 0)")
  | j :: known' =>
      if decide (json_dumps false j = text) then Ret j
      else reads_back known' text
  end.

(** A tokenizer that makes a token of every character. *)
Definition char_tokens (encoding_name text : string) : outcome nat :=
  Ret (String.length text).

Definition and_then {A B} (o : outcome A) (f : A → outcome B) : outcome B :=
  match o with
  | Ret a => f a
  | Raise e => Raise e
  end.

Definition ValidationError (field message : string) : exn :=
  Exn "ValidationError" (field +:+ ": " +:+ message).

Definition ParseConfig_fields : list string :=
  [ "language"; "disable_ocr"; "skip_diagonal_text"; "target_pages";
    "page_separator"; "output_tables_as_HTML";
    "preserve_layout_alignment_across_pages"; "hide_headers"; "hide_footers" ].

Definition str_field (config : list (string * json)) (name default_value : string)
    : outcome string :=
  match dict_get name config with
  | None => Ret default_value
  | Some (JStr s) => Ret s
  | Some _ => Raise (ValidationError name "Input should be a valid string")
  end.

Definition bool_field (config : list (string * json)) (name : string)
    (default_value : bool) : outcome bool :=
  match dict_get name config with
  | None => Ret default_value
  | Some (JBool b) => Ret b
  | Some _ => Raise (ValidationError name "Input should be a valid boolean")
  end.

Definition optional_str_field (config : list (string * json)) (name : string)
    : outcome (option string) :=
  match dict_get name config with
  | None | Some JNull => Ret None
  | Some (JStr s) => Ret (Some s)
  | Some _ => Raise (ValidationError name "Input should be a valid string")
  end.

(** Validation against [ParseConfig] without the coercions of pydantic's
    lax mode: a key that is not a field is rejected ([extra = "forbid"]),
    a field has to be of its declared type, a missing field takes its
    default. *)
Definition ParseConfig_strict (config : list (string * json))
    : outcome ParseConfig :=
  match filter (λ kv : string * json, kv.1 ∉ ParseConfig_fields) config with
  | (name, _) :: _ => Raise (ValidationError name "Extra inputs are not permitted")
  | [] =>
      let d := ParseConfig_defaults in
      and_then (str_field config "language" (language d)) (λ f1,
      and_then (bool_field config "disable_ocr" (disable_ocr d)) (λ f2,
      and_then (bool_field config "skip_diagonal_text" (skip_diagonal_text d)) (λ f3,
      and_then (optional_str_field config "target_pages") (λ f4,
      and_then (str_field config "page_separator" (page_separator d)) (λ f5,
      and_then (bool_field config "output_tables_as_HTML"
                           (output_tables_as_HTML d)) (λ f6,
      and_then (bool_field config "preserve_layout_alignment_across_pages"
                           (preserve_layout_alignment_across_pages d)) (λ f7,
      and_then (bool_field config "hide_headers" (hide_headers d)) (λ f8,
      and_then (bool_field config "hide_footers" (hide_footers d)) (λ f9,
      Ret (MkParseConfig f1 f2 f3 f4 f5 f6 f7 f8 f9))))))))))
  end.

(** A one-page reader and an engine that returns the file as one document. *)
Definition one_page (data : string) : outcome nat := Ret 1%nat.
Definition echo_engine (api_key : string) (c : ParseConfig) (data : string)
    : outcome (list string) :=
  Ret [language c +:+ ":" +:+ data].

(** An engine that fails on every file. *)
Definition failing_engine (api_key : string) (c : ParseConfig) (data : string)
    : outcome (list string) :=
  Raise (Exn "Exception" "Failed to parse the file").

(* ===================================================================== *)
(** * Vocabulary of the properties                                        *)
(* ===================================================================== *)

(** The path of the entry file of each namespace. *)
Definition embedding_entry (self : cache_instance) (text model : string)
    : string :=
  EmbeddingCache_get_cache_path self (EmbeddingCache_get_cache_key text model).
Definition chunk_entry (self : cache_instance) (text strategy : string)
    (config : list (string * json)) : string :=
  ChunkResultCache_get_cache_path self
    (ChunkResultCache_get_cache_key (ChunkResultCache_hash_text text)
                                    strategy config).
Definition parse_entry (self : cache_instance) (file_hash : string)
    (config : list (string * json)) (parser_method : string) : string :=
  ParseResultCache_get_cache_path self
    (ParseResultCache_get_cache_key file_hash config parser_method).

(** Python dictionaries have pairwise distinct keys, at every depth. *)
Fixpoint json_wf (j : json) : Prop :=
  match j with
  | JList l =>
      (fix all l := match l with
                    | [] => True
                    | x :: l' => json_wf x ∧ all l'
                    end) l
  | JDict d =>
      NoDup d.*1
      ∧ (fix all d := match d with
                      | [] => True
                      | kv :: d' => json_wf kv.2 ∧ all d'
                      end) d
  | _ => True
  end.

(** Equality of values in which two dictionaries are equal when they are
    equal as mappings: as many items, and every key of the first bound in
    the second to an equal value, whatever the insertion orders. Scalars
    are equal when they are the same value of the same type. *)
Fixpoint json_equiv (a b : json) : Prop :=
  match a, b with
  | JNull, JNull => True
  | JBool x, JBool y => x = y
  | JInt x, JInt y => x = y
  | JFloat x, JFloat y => x = y
  | JStr x, JStr y => x = y
  | JList l1, JList l2 =>
      (fix all l1 l2 := match l1, l2 with
                        | [], [] => True
                        | x :: l1', y :: l2' => json_equiv x y ∧ all l1' l2'
                        | _, _ => False
                        end) l1 l2
  | JDict d1, JDict d2 =>
      length d1 = length d2
      ∧ (fix all d1 := match d1 with
                       | [] => True
                       | kv :: d1' =>
                           match dict_get kv.1 d2 with
                           | Some v2 => json_equiv kv.2 v2
                           | None => False
                           end ∧ all d1'
                       end) d1
  | _, _ => False
  end.

Local Abbreviation heap := (gmap positive (gmap string json)).

Section enrichment_vocabulary.

Context (schema : option (list string)) (texts : list string).

(** From one store to a later one: a field the schema excludes has not
    changed in any dictionary, and [token_count] is either as it was or was
    absent and is now the count of one of [texts]. *)
Definition enriched_from (h h' : heap) : Prop :=
  ∀ l,
    (∀ k, should_include_field schema k = false →
          deref h' l !! k = deref h l !! k)
    ∧ (deref h' l !! "token_count" = deref h l !! "token_count"
       ∨ deref h l !! "token_count" = None
         ∧ ∃ t, t ∈ texts
                ∧ deref h' l !! "token_count"
                  = Some (JInt (calculate_token_count t "gpt-4"))).

(** A computation keeps [enriched_from] when the store it leaves, whether
    it returns or raises, is [enriched_from] the store it started in. *)
Definition keeps {A} (m : M heap A) : Prop := ∀ h, enriched_from h (m h).2.

End enrichment_vocabulary.

(** A computation that returns, whatever the store. *)
Definition returns {A} (m : M heap A) : Prop := ∀ h, ∃ a, (m h).1 = Ret a.



(** The three chunks of the breadcrumb example; they carry a text and no
    metadata dictionary of their own. *)
Definition breadcrumb_chunks : list chunk :=
  [ Chunk (Some ("# A" +:+ String newline "...")) None;
    Chunk (Some "body, no heading") None;
    Chunk (Some ("## B" +:+ String newline "...")) None ].

(** The number of sentences [calculate_complexity_score] counts. *)
Definition sentence_count (text : string) : nat :=
  length (filter (λ s, strip s ≠ "") (split_sentences text)).

(** Two worlds that differ only in lines printed earlier: the same files,
    clock, disk, environment and cache instance, and outputs [pre ++ suffix]
    and [pre' ++ suffix]. *)
Definition same_but_stdout (pre pre' : list string) (w w' : world) : Prop :=
  fs w = fs w' ∧ clock w = clock w' ∧ disk_ok w = disk_ok w'
  ∧ environ w = environ w' ∧ parse_cache_global w = parse_cache_global w'
  ∧ ∃ suffix, stdout w = pre ++ suffix ∧ stdout w' = pre' ++ suffix.

(** A computation that does not look at what was printed. *)
Definition oblivious {A} (m : M world A) : Prop :=
  ∀ pre pre' w w',
    same_but_stdout pre pre' w w' →
    (m w).1 = (m w').1 ∧ same_but_stdout pre pre' (m w).2 (m w').2.

(** ** Effects of enrichment on the store *)

(** Whatever a computation does, the store it leaves is related to the
    store it started in. *)
Definition preserves (R : relation heap) {A} (m : M heap A) : Prop :=
  ∀ h, R h (m h).2.

(** From a store that satisfies the invariant [I], a computation returns
    a value that satisfies [Q] and leaves a store that satisfies [I]. *)
Definition safe (I : heap → Prop) {A} (m : M heap A) (Q : A → Prop) : Prop :=
  ∀ h, I h → ∃ a h', m h = (Ret a, h') ∧ I h' ∧ Q a.

(** The dictionaries other than [l] are as before. *)
Definition same_but (l : positive) : relation heap :=
  λ h h', ∀ l', l' ≠ l → deref h' l' = deref h l'.

(** The fields outside [fields] are as before, in every dictionary. *)
Definition same_outside (fields : list string) : relation heap :=
  λ h h', ∀ l k, k ∉ fields → deref h' l !! k = deref h l !! k.

(** The fields the strategy-specific part of [enrich_metadata] writes, and
    all the fields [enrich_metadata] writes. *)
Definition strategy_fields : list string :=
  [ "section_path"; "heading_level"; "heading_1"; "heading_2"; "heading_3";
    "heading_4"; "heading_5"; "heading_6" ].
Definition enrichment_fields : list string :=
  [ "token_count"; "position_in_document"; "total_chunks" ] ++ strategy_fields.

(** The heading fields of a dictionary are strings. *)
Definition string_headings (d : gmap string json) : Prop :=
  ∀ level v, 1 ≤ level ≤ 6 → d !! heading_key level = Some v → ∃ s, v = JStr s.

(** A heading context tracks levels one to six, with strings. *)
Definition string_context (current_headings : gmap Z json) : Prop :=
  ∀ level v, current_headings !! level = Some v →
             1 ≤ level ≤ 6 ∧ ∃ s, v = JStr s.

(** The heading fields of every dictionary of the store are strings. *)
Definition all_string_headings (h : heap) : Prop :=
  ∀ l, string_headings (deref h l).

(** ** Heading lines and fenced blocks *)

(** [n * "#"] *)
Fixpoint hashes (n : nat) : string :=
  match n with
  | O => ""
  | S n' => String "#" (hashes n')
  end.

(** A text with a character that is not whitespace. *)
Fixpoint nonblank (s : string) : bool :=
  match s with
  | "" => false
  | String c s' => negb (py_isspace c) || nonblank s'
  end.

(** Every character of the text is matched by [\w]. *)
Fixpoint all_word (s : string) : bool :=
  match s with
  | "" => true
  | String c s' => py_isword c && all_word s'
  end.

(** ** Concrete inputs *)

(** A cache instance with a TTL of ten time units, in a world whose clock
    reads 100. *)
Definition demo_cache : cache_instance := CacheInstance "cache" 10.
Definition demo_world : world := World ∅ [] 100 true ∅ None.
Definition demo_chunks : list json :=
  [JDict [("text", JStr "hello"); ("metadata", JDict [])]].
Definition demo_config : list (string * json) := [("size", JInt 512)].
Definition demo_parse_data : json :=
  parse_cache_data "f00d" demo_config "# Title" "llamaparse" 100.
Definition demo_reader : string → outcome json :=
  reads_back [JList demo_chunks; demo_parse_data].

(** A world in which the file at [p] holds ["garbage"]. *)
Definition corrupt_world_at (p : string) : world :=
  World {[ p := File "garbage" 95 ]} [] 100 true ∅ None.

(** One configuration, its keys inserted in two orders, the nested
    dictionary too. *)
Definition config_ab : list (string * json) :=
  [ ("chunk_size", JInt 512);
    ("overlap", JInt 64);
    ("options", JDict [("trim", JBool true); ("lang", JStr "en")]) ].
Definition config_ba : list (string * json) :=
  [ ("options", JDict [("lang", JStr "en"); ("trim", JBool true)]);
    ("overlap", JInt 64);
    ("chunk_size", JInt 512) ].

(** A configuration with one valid field and one unknown key, for a
    one-page file, with the API key set and an empty cache. *)
Definition mixed_config : list (string * json) :=
  [("language", JStr "fr"); ("unknown_option", JBool true)].
Definition parse_world : world :=
  World {[ "doc.pdf" := File "%PDF-1.7" 90 ]} [] 100 true
        {[ "LLAMA_CLOUD_API_KEY" := "llx-key" ]} None.

(** The same machine without the API key. *)
Definition keyless_world : world :=
  World {[ "doc.pdf" := File "%PDF-1.7" 90 ]} [] 100 true ∅ None.

(** What [parse_pdf] caches in [parse_world] for the engine that returns
    the file as one document. *)
Definition cached_parse : json :=
  parse_cache_data "%PDF-1.7" DEFAULT_PARSE_CONFIG "en:%PDF-1.7" "llamaparse"
                   100.

(** ** The configuration of a parse *)

(** The configuration [parse_pdf] goes on with: the defaults when none is
    given or when the given one fails validation, the dump of the validated
    model otherwise. *)
Definition effective_config (config : option (list (string * json)))
    : list (string * json) :=
  match config with
  | None => DEFAULT_PARSE_CONFIG
  | Some config =>
      match ParseConfig_init config with
      | Ret parse_config => model_dump parse_config
      | Raise _ => DEFAULT_PARSE_CONFIG
      end
  end.

(** ** Cache maintenance *)

(** The body of the loop of [clear_expired], the same in the three
    classes. *)
Definition sweep_file (self : cache_instance) (current_time : Z)
    (cache_file : string) : M world unit :=
  let* mtime := stat_mtime cache_file in
  let file_age := current_time - mtime in
  if bool_decide (file_age > ttl self) then unlink cache_file else ret ().

(** A file that [dir.glob("*" + suffix)] lists and whose age at the clock
    reading [now] is more than the TTL. *)
Definition expired_entry (self : cache_instance) (suffix : string) (now : Z)
    (pf : string * file) : Prop :=
  glob_match (cache_dir self) suffix pf.1 ∧ now - st_mtime pf.2 > ttl self.

(** The files that [dir.glob("*" + suffix)] lists. *)
Definition entries (self : cache_instance) (suffix : string)
    (files : gmap string file) : gmap string file :=
  filter (λ pf, glob_match (cache_dir self) suffix pf.1) files.

(** The total size of a set of files. *)
Definition total_size (files : gmap string file) : Z :=
  map_fold (λ _ f total, total + Z.of_nat (String.length (contents f))) 0 files.

(** The world after [clear_expired] of an instance whose pattern is
    [*suffix]. *)
Definition swept (self : cache_instance) (suffix : string) (w : world) : world :=
  set_fs (filter (λ pf, ¬ expired_entry self suffix (clock w) pf)) w.

(** The environment changes between two calls. *)
Definition with_environ (env : gmap string string) (w : world) : world :=
  World (fs w) (stdout w) (clock w) (disk_ok w) env (parse_cache_global w).

(** A state in which no global instance exists yet, with the clock at
    1000000: an embedding entry of age 1000000 and one of age 100000, a
    chunk entry and a parse entry of age 100000, and a file that belongs
    to no cache. *)
Definition cleanup_files : gmap string file :=
  {[ "./cache/embeddings/old.pkl" := File "e" 0;
     "./cache/embeddings/new.pkl" := File "e" 900000;
     "./cache/chunks/day.json" := File "[]" 900000;
     "./cache/parses/week.json" := File "{}" 900000;
     "./notes.txt" := File "n" 0 ]}.
Definition cleanup_state (env : gmap string string) : world * cache_globals :=
  (World cleanup_files [] 1000000 true env None, CacheGlobals None None).

(** A store with two metadata dictionaries, and two chunks that hold
    them. *)
Definition demo_store : heap :=
  {[ 1%positive := {[ "author" := JStr "Ann"; "section_path" := JStr "Preface" ]};
     2%positive := {[ "token_count" := JInt 3 ]} ]}.
Definition demo_enrich_chunks : list chunk :=
  [ Chunk (Some ("# A" +:+ String newline "first part")) (Some 1%positive);
    Chunk (Some "second part") (Some 2%positive) ].

(* ===================================================================== *)
(** * Properties of the cache layer                                       *)
(* ===================================================================== *)

Ltac unfold_ops :=
  unfold bind, path_exists, time_time, stat_mtime, unlink, try_except,
    open_read, open_write, file_write, lift, print, ret.

Lemma set_fs_insert_twice p f g w :
  set_fs (<[p := f]>) (set_fs (<[p := g]>) w) = set_fs (<[p := f]>) w.
Proof. unfold set_fs; cbn. by rewrite insert_insert_eq. Qed.

(** *** What [get] and [set] compute, class by class *)

Lemma EmbeddingCache_get_unfold self text model w :
  EmbeddingCache_get self text model w =
  let p := embedding_entry self text model in
  match fs w !! p with
  | None => (Ret None, w)
  | Some f =>
      if bool_decide (clock w - st_mtime f > ttl self)
      then (Ret None, set_fs (delete p) w)
      else match pickle_loads (contents f) with
           | Ret v => (Ret (Some v), w)
           | Raise e =>
               (Ret None,
                set_stdout (λ out, out ++ ["Error loading cache: " +:+ exn_msg e]) w)
           end
  end.
Proof.
  unfold EmbeddingCache_get, embedding_entry. unfold_ops.
  destruct (fs w !! _) as [f|] eqn:Hf; cbn; [|done].
  rewrite Hf. case_bool_decide; cbn; rewrite Hf; [done|].
  by destruct (pickle_loads _).
Qed.

Lemma ChunkResultCache_get_unfold self text strategy config w :
  ChunkResultCache_get self text strategy config w =
  let p := chunk_entry self text strategy config in
  match fs w !! p with
  | None => (Ret None, w)
  | Some f =>
      if bool_decide (clock w - st_mtime f > ttl self)
      then (Ret None, set_fs (delete p) w)
      else match json_loads (contents f) with
           | Ret v => (Ret (py_optional v), w)
           | Raise e =>
               (Ret None,
                set_stdout
                  (λ out, out ++ ["Error loading chunk cache: " +:+ exn_msg e]) w)
           end
  end.
Proof.
  unfold ChunkResultCache_get, chunk_entry. unfold_ops.
  destruct (fs w !! _) as [f|] eqn:Hf; cbn; [|done].
  rewrite Hf. case_bool_decide; cbn; rewrite Hf; [done|].
  by destruct (json_loads _).
Qed.

Lemma ParseResultCache_get_unfold self file_hash config parser_method w :
  ParseResultCache_get self file_hash config parser_method w =
  let p := parse_entry self file_hash config parser_method in
  match fs w !! p with
  | None => (Ret None, w)
  | Some f =>
      if bool_decide (clock w - st_mtime f > ttl self)
      then (Ret None, set_fs (delete p) w)
      else match json_loads (contents f) with
           | Ret data =>
               match get_markdown data with
               | Ret v => (Ret v, w)
               | Raise e =>
                   (Ret None,
                    set_stdout
                      (λ out, out ++ ["Error loading parse cache: " +:+ exn_msg e])
                      w)
               end
           | Raise e =>
               (Ret None,
                set_stdout
                  (λ out, out ++ ["Error loading parse cache: " +:+ exn_msg e]) w)
           end
  end.
Proof.
  unfold ParseResultCache_get, parse_entry. unfold_ops.
  destruct (fs w !! _) as [f|] eqn:Hf; cbn; [|done].
  rewrite Hf. case_bool_decide; cbn; rewrite Hf; [done|].
  destruct (json_loads _) as [data|]; [|done].
  by destruct (get_markdown data).
Qed.

Lemma EmbeddingCache_set_unfold self text model embedding w :
  disk_ok w = true →
  EmbeddingCache_set self text model embedding w =
  let p := embedding_entry self text model in
  match pickle_dumps embedding with
  | Ret data => (Ret (), set_fs (<[p := File data (clock w)]>) w)
  | Raise e =>
      (Ret (),
       set_stdout (λ out, out ++ ["Error saving cache: " +:+ exn_msg e])
                  (set_fs (<[p := File "" (clock w)]>) w))
  end.
Proof.
  intros Hok. unfold EmbeddingCache_set, embedding_entry. unfold_ops.
  rewrite Hok; cbn. destruct (pickle_dumps _); [|done].
  by rewrite set_fs_insert_twice.
Qed.

Lemma ChunkResultCache_set_unfold self text strategy config chunks w :
  disk_ok w = true →
  ChunkResultCache_set self text strategy config chunks w =
  (Ret (),
   set_fs (<[chunk_entry self text strategy config :=
               File (json_dumps false (JList chunks)) (clock w)]>) w).
Proof.
  intros Hok. unfold ChunkResultCache_set, chunk_entry. unfold_ops.
  rewrite Hok; cbn. by rewrite set_fs_insert_twice.
Qed.

Lemma ParseResultCache_set_unfold self file_hash config markdown parser_method w :
  disk_ok w = true →
  ParseResultCache_set self file_hash config markdown parser_method w =
  (Ret (),
   set_fs (<[parse_entry self file_hash config parser_method :=
               File (json_dumps false
                       (parse_cache_data file_hash config markdown
                                         parser_method (clock w)))
                    (clock w)]>) w).
Proof.
  intros Hok. unfold ParseResultCache_set, parse_entry. unfold_ops.
  rewrite Hok; cbn. by rewrite set_fs_insert_twice.
Qed.

Lemma fs_at_time_insert t p f w :
  fs (at_time t (set_fs (<[p := f]>) w)) !! p = Some f.
Proof. cbn. apply lookup_insert_eq. Qed.

(** *** Round trip *)

(** C1. In each of the three namespaces, a [set] whose write succeeds,
    followed by a [get] with the same lookup inputs while the age of the
    entry does not exceed the TTL, returns the stored payload (and changes
    nothing); for the parse-result namespace the value returned is the
    stored markdown string. The supported payloads are those the
    serialiser writes and the reader reads back. *)
Theorem cache_round_trip (self : cache_instance) (w : world) (t1 : Z) :
  disk_ok w = true →
  t1 - clock w ≤ ttl self →
  (∀ text model embedding data,
     pickle_dumps embedding = Ret data →
     pickle_loads data = Ret embedding →
     let w1 := at_time t1 (EmbeddingCache_set self text model embedding w).2 in
     EmbeddingCache_get self text model w1 = (Ret (Some embedding), w1))
  ∧ (∀ text strategy config chunks,
       json_loads (json_dumps false (JList chunks)) = Ret (JList chunks) →
       let w1 := at_time t1
                   (ChunkResultCache_set self text strategy config chunks w).2 in
       ChunkResultCache_get self text strategy config w1
       = (Ret (Some (JList chunks)), w1))
  ∧ (∀ file_hash config markdown parser_method,
       let data := parse_cache_data file_hash config markdown parser_method
                                    (clock w) in
       json_loads (json_dumps false data) = Ret data →
       let w1 := at_time t1
                   (ParseResultCache_set self file_hash config markdown
                                         parser_method w).2 in
       ParseResultCache_get self file_hash config parser_method w1
       = (Ret (Some (JStr markdown)), w1)).
Proof.
  intros Hok Hage. split_and!.
  - intros text model embedding data Hdump Hload w1. subst w1.
    rewrite EmbeddingCache_set_unfold, Hdump by done. cbn [snd].
    rewrite EmbeddingCache_get_unfold. cbn zeta.
    rewrite fs_at_time_insert. cbn [st_mtime contents clock at_time].
    rewrite bool_decide_false by lia. by rewrite Hload.
  - intros text strategy config chunks Hload w1. subst w1.
    rewrite ChunkResultCache_set_unfold by done. cbn [snd].
    rewrite ChunkResultCache_get_unfold. cbn zeta.
    rewrite fs_at_time_insert. cbn [st_mtime contents clock at_time].
    rewrite bool_decide_false by lia. by rewrite Hload.
  - intros file_hash config markdown parser_method data Hload w1. subst w1.
    rewrite ParseResultCache_set_unfold by done. cbn [snd].
    rewrite ParseResultCache_get_unfold. cbn zeta.
    rewrite fs_at_time_insert. cbn [st_mtime contents clock at_time].
    rewrite bool_decide_false by lia. fold data. by rewrite Hload.
Qed.

(** *** Expiry *)

Lemma fs_deleted p w : fs (set_fs (delete p) w) !! p = None.
Proof. cbn. apply lookup_delete_eq. Qed.

(** C2. In each namespace, an entry written at time [t0 = clock w] and
    looked up at time [t1]: when [t1 - t0] is greater than the TTL, [get]
    returns empty and the entry file is deleted; when [t1 - t0] is at or
    below the TTL, [get] returns the stored value and the file remains. *)
Theorem ttl_expiry (self : cache_instance) (w : world) (t1 : Z) :
  disk_ok w = true →
  (∀ text model embedding data,
     pickle_dumps embedding = Ret data →
     pickle_loads data = Ret embedding →
     let p := embedding_entry self text model in
     let w1 := at_time t1 (EmbeddingCache_set self text model embedding w).2 in
     (t1 - clock w > ttl self →
      EmbeddingCache_get self text model w1 = (Ret None, set_fs (delete p) w1)
      ∧ fs (set_fs (delete p) w1) !! p = None)
     ∧ (t1 - clock w ≤ ttl self →
        EmbeddingCache_get self text model w1 = (Ret (Some embedding), w1)
        ∧ fs w1 !! p = Some (File data (clock w))))
  ∧ (∀ text strategy config chunks,
       json_loads (json_dumps false (JList chunks)) = Ret (JList chunks) →
       let p := chunk_entry self text strategy config in
       let w1 := at_time t1
                   (ChunkResultCache_set self text strategy config chunks w).2 in
       (t1 - clock w > ttl self →
        ChunkResultCache_get self text strategy config w1
        = (Ret None, set_fs (delete p) w1)
        ∧ fs (set_fs (delete p) w1) !! p = None)
       ∧ (t1 - clock w ≤ ttl self →
          ChunkResultCache_get self text strategy config w1
          = (Ret (Some (JList chunks)), w1)
          ∧ fs w1 !! p
            = Some (File (json_dumps false (JList chunks)) (clock w))))
  ∧ (∀ file_hash config markdown parser_method,
       let data := parse_cache_data file_hash config markdown parser_method
                                    (clock w) in
       json_loads (json_dumps false data) = Ret data →
       let p := parse_entry self file_hash config parser_method in
       let w1 := at_time t1
                   (ParseResultCache_set self file_hash config markdown
                                         parser_method w).2 in
       (t1 - clock w > ttl self →
        ParseResultCache_get self file_hash config parser_method w1
        = (Ret None, set_fs (delete p) w1)
        ∧ fs (set_fs (delete p) w1) !! p = None)
       ∧ (t1 - clock w ≤ ttl self →
          ParseResultCache_get self file_hash config parser_method w1
          = (Ret (Some (JStr markdown)), w1)
          ∧ fs w1 !! p = Some (File (json_dumps false data) (clock w)))).
Proof.
  intros Hok. split_and!.
  - intros text model embedding data Hdump Hload p w1. subst w1.
    rewrite EmbeddingCache_set_unfold, Hdump by done. cbn [snd]. fold p.
    rewrite EmbeddingCache_get_unfold. cbn zeta. fold p.
    rewrite fs_at_time_insert. cbn [st_mtime contents clock at_time].
    split; intros Hage.
    + rewrite bool_decide_true by lia. split; [done|apply fs_deleted].
    + rewrite bool_decide_false by lia. by rewrite Hload.
  - intros text strategy config chunks Hload p w1. subst w1.
    rewrite ChunkResultCache_set_unfold by done. cbn [snd]. fold p.
    rewrite ChunkResultCache_get_unfold. cbn zeta. fold p.
    rewrite fs_at_time_insert. cbn [st_mtime contents clock at_time].
    split; intros Hage.
    + rewrite bool_decide_true by lia. split; [done|apply fs_deleted].
    + rewrite bool_decide_false by lia. by rewrite Hload.
  - intros file_hash config markdown parser_method data Hload p w1. subst w1.
    rewrite ParseResultCache_set_unfold by done. cbn [snd]. fold p data.
    rewrite ParseResultCache_get_unfold. cbn zeta. fold p.
    rewrite fs_at_time_insert. cbn [st_mtime contents clock at_time].
    split; intros Hage.
    + rewrite bool_decide_true by lia. split; [done|apply fs_deleted].
    + rewrite bool_decide_false by lia. by rewrite Hload.
Qed.

(** C8, as the code has it. With a TTL of zero, an entry written at time
    [clock w] is treated as expired by any [get] whose clock reading is
    strictly later than the modification time of the entry file: the file
    is deleted and [get] returns empty. (At an equal clock reading the age
    is [0], which is not greater than the TTL.) *)
Theorem zero_ttl_expires_on_later_lookup (self : cache_instance) (w : world)
    (t1 : Z) :
  ttl self = 0 →
  disk_ok w = true →
  clock w < t1 →
  (∀ text model embedding,
     let p := embedding_entry self text model in
     let w1 := at_time t1 (EmbeddingCache_set self text model embedding w).2 in
     is_Some (fs w1 !! p)
     ∧ EmbeddingCache_get self text model w1 = (Ret None, set_fs (delete p) w1)
     ∧ fs (set_fs (delete p) w1) !! p = None)
  ∧ (∀ text strategy config chunks,
       let p := chunk_entry self text strategy config in
       let w1 := at_time t1
                   (ChunkResultCache_set self text strategy config chunks w).2 in
       is_Some (fs w1 !! p)
       ∧ ChunkResultCache_get self text strategy config w1
         = (Ret None, set_fs (delete p) w1)
       ∧ fs (set_fs (delete p) w1) !! p = None)
  ∧ (∀ file_hash config markdown parser_method,
       let p := parse_entry self file_hash config parser_method in
       let w1 := at_time t1
                   (ParseResultCache_set self file_hash config markdown
                                         parser_method w).2 in
       is_Some (fs w1 !! p)
       ∧ ParseResultCache_get self file_hash config parser_method w1
         = (Ret None, set_fs (delete p) w1)
       ∧ fs (set_fs (delete p) w1) !! p = None).
Proof.
  intros Httl Hok Hlater. split_and!.
  - intros text model embedding p w1. subst w1.
    rewrite EmbeddingCache_set_unfold by done. cbn zeta. fold p.
    rewrite EmbeddingCache_get_unfold. cbn zeta. fold p.
    destruct (pickle_dumps embedding) as [data|e]; cbn [snd].
    + rewrite fs_at_time_insert. cbn [st_mtime contents clock at_time].
      rewrite bool_decide_true by lia.
      split_and!; [by eexists|done|apply fs_deleted].
    + assert (fs (at_time t1
                (set_stdout (λ out, out ++ ["Error saving cache: " +:+ exn_msg e])
                   (set_fs (<[p := File "" (clock w)]>) w))) !! p
              = Some (File "" (clock w))) as -> by apply lookup_insert_eq.
      cbn [st_mtime contents clock at_time].
      rewrite bool_decide_true by lia.
      split_and!; [by eexists|done|apply fs_deleted].
  - intros text strategy config chunks p w1. subst w1.
    rewrite ChunkResultCache_set_unfold by done. cbn [snd]. fold p.
    rewrite ChunkResultCache_get_unfold. cbn zeta. fold p.
    rewrite fs_at_time_insert. cbn [st_mtime contents clock at_time].
    rewrite bool_decide_true by lia.
    split_and!; [by eexists|done|apply fs_deleted].
  - intros file_hash config markdown parser_method p w1. subst w1.
    rewrite ParseResultCache_set_unfold by done. cbn [snd]. fold p.
    rewrite ParseResultCache_get_unfold. cbn zeta. fold p.
    rewrite fs_at_time_insert. cbn [st_mtime contents clock at_time].
    rewrite bool_decide_true by lia.
    split_and!; [by eexists|done|apply fs_deleted].
Qed.

(** *** Corrupt entries *)

(** C5. In each namespace, when the entry file exists, is not expired, and
    reading its contents back fails, [get] returns empty (it does not
    raise), prints one diagnostic line, and leaves the file where it is. *)
Theorem corrupt_entry_is_a_miss (self : cache_instance) (w : world)
    (f : file) (e : exn) :
  clock w - st_mtime f ≤ ttl self →
  (∀ text model,
     let p := embedding_entry self text model in
     fs w !! p = Some f →
     pickle_loads (contents f) = Raise e →
     ∃ w', EmbeddingCache_get self text model w = (Ret None, w')
           ∧ stdout w' = stdout w ++ ["Error loading cache: " +:+ exn_msg e]
           ∧ fs w' = fs w ∧ fs w' !! p = Some f)
  ∧ (∀ text strategy config,
       let p := chunk_entry self text strategy config in
       fs w !! p = Some f →
       json_loads (contents f) = Raise e →
       ∃ w', ChunkResultCache_get self text strategy config w = (Ret None, w')
             ∧ stdout w'
               = stdout w ++ ["Error loading chunk cache: " +:+ exn_msg e]
             ∧ fs w' = fs w ∧ fs w' !! p = Some f)
  ∧ (∀ file_hash config parser_method,
       let p := parse_entry self file_hash config parser_method in
       fs w !! p = Some f →
       json_loads (contents f) = Raise e →
       ∃ w', ParseResultCache_get self file_hash config parser_method w
             = (Ret None, w')
             ∧ stdout w'
               = stdout w ++ ["Error loading parse cache: " +:+ exn_msg e]
             ∧ fs w' = fs w ∧ fs w' !! p = Some f).
Proof.
  intros Hage. split_and!.
  - intros text model p Hf Hload.
    rewrite EmbeddingCache_get_unfold. cbn zeta. fold p. rewrite Hf.
    rewrite bool_decide_false by lia. rewrite Hload. by eexists.
  - intros text strategy config p Hf Hload.
    rewrite ChunkResultCache_get_unfold. cbn zeta. fold p. rewrite Hf.
    rewrite bool_decide_false by lia. rewrite Hload. by eexists.
  - intros file_hash config parser_method p Hf Hload.
    rewrite ParseResultCache_get_unfold. cbn zeta. fold p. rewrite Hf.
    rewrite bool_decide_false by lia. rewrite Hload. by eexists.
Qed.

(** *** Keys of the embedding namespace *)

(** C10. The key of the embedding namespace is the digest of
    [text + ":" + model], so distinct pairs can share a key: the pairs
    [("a:b", "c")] and [("a", "b:c")] do. An embedding stored for the first
    is what a [get] for the second returns, and an embedding then stored
    for the second replaces it: it is what a [get] for the first returns. *)
Theorem embedding_key_collision :
  ("a:b", "c") ≠ ("a", "b:c")
  ∧ EmbeddingCache_get_cache_key "a:b" "c" = EmbeddingCache_get_cache_key "a" "b:c"
  ∧ ∀ (self : cache_instance) (w : world) (t1 : Z) e1 d1 e2 d2,
      disk_ok w = true →
      t1 - clock w ≤ ttl self →
      pickle_dumps e1 = Ret d1 → pickle_loads d1 = Ret e1 →
      pickle_dumps e2 = Ret d2 → pickle_loads d2 = Ret e2 →
      let w1 := (EmbeddingCache_set self "a:b" "c" e1 w).2 in
      let w2 := (EmbeddingCache_set self "a" "b:c" e2 w1).2 in
      EmbeddingCache_get self "a" "b:c" (at_time t1 w1)
      = (Ret (Some e1), at_time t1 w1)
      ∧ EmbeddingCache_get self "a:b" "c" (at_time t1 w2)
        = (Ret (Some e2), at_time t1 w2).
Proof.
  split_and!; [done|done|].
  intros self w t1 e1 d1 e2 d2 Hok Hage Hdump1 Hload1 Hdump2 Hload2 w1 w2.
  subst w2 w1.
  rewrite (EmbeddingCache_set_unfold self "a:b" "c"), Hdump1 by done.
  cbn [snd].
  rewrite (EmbeddingCache_set_unfold self "a" "b:c"), Hdump2 by done.
  cbn [snd].
  change (embedding_entry self "a" "b:c") with (embedding_entry self "a:b" "c").
  rewrite set_fs_insert_twice. split.
  - rewrite EmbeddingCache_get_unfold. cbn zeta.
    change (embedding_entry self "a" "b:c") with (embedding_entry self "a:b" "c").
    rewrite fs_at_time_insert. cbn [st_mtime contents clock at_time].
    rewrite bool_decide_false by lia. by rewrite Hload1.
  - rewrite EmbeddingCache_get_unfold. cbn zeta.
    rewrite fs_at_time_insert. cbn [st_mtime contents clock at_time set_fs].
    rewrite bool_decide_false by lia. by rewrite Hload2.
Qed.

(** *** Canonical configuration *)

Lemma json_nested_ind (P : json → Prop) :
  P JNull → (∀ b, P (JBool b)) → (∀ n, P (JInt n)) → (∀ r, P (JFloat r)) →
  (∀ s, P (JStr s)) →
  (∀ l, Forall P l → P (JList l)) →
  (∀ d, Forall (λ kv, P kv.2) d → P (JDict d)) →
  ∀ j, P j.
Proof.
  intros Hnull Hbool Hint Hfloat Hstr Hlist Hdict.
  fix IH 1. intros [| b | n | r | s | l | d].
  - exact Hnull.
  - apply Hbool.
  - apply Hint.
  - apply Hfloat.
  - apply Hstr.
  - apply Hlist. induction l as [|x l IHl]; constructor; [apply IH|exact IHl].
  - apply Hdict.
    induction d as [|[k v] d IHd]; constructor; [apply IH|exact IHd].
Qed.

Lemma json_wf_list l : json_wf (JList l) ↔ Forall json_wf l.
Proof.
  cbn. induction l as [|x l IHl]; [by split; [constructor|]|].
  rewrite Forall_cons, <-IHl. done.
Qed.

Lemma json_wf_dict d :
  json_wf (JDict d) ↔ NoDup d.*1 ∧ Forall (λ kv, json_wf kv.2) d.
Proof.
  cbn. apply and_iff_compat_l.
  induction d as [|kv d IHd]; [by split; [constructor|]|].
  rewrite Forall_cons, <-IHd. done.
Qed.

Lemma json_equiv_list l1 l2 :
  json_equiv (JList l1) (JList l2) ↔ Forall2 json_equiv l1 l2.
Proof.
  cbn. revert l2. induction l1 as [|x l1 IHl]; intros [|y l2].
  - split; [constructor|done].
  - split; [done|inv 1].
  - split; [done|inv 1].
  - rewrite Forall2_cons, <-IHl. done.
Qed.

Lemma json_equiv_dict d1 d2 :
  json_equiv (JDict d1) (JDict d2) ↔
  length d1 = length d2
  ∧ Forall (λ kv, ∃ v2, dict_get kv.1 d2 = Some v2 ∧ json_equiv kv.2 v2) d1.
Proof.
  cbn. apply and_iff_compat_l.
  induction d1 as [|kv d1 IHd]; [by split; [constructor|]|].
  rewrite Forall_cons, <-IHd. apply and_iff_compat_r.
  destruct (dict_get kv.1 d2) as [v2|].
  - split; [eauto|]. by intros (? & [= <-] & ?).
  - split; [done|]. by intros (? & [=] & _).
Qed.

Lemma dict_get_Some_elem {V} k (v : V) d : dict_get k d = Some v → (k, v) ∈ d.
Proof.
  induction d as [|[k' v'] d IHd]; [done|]. cbn. case_decide.
  - intros [= ->]. subst. left.
  - intros. right. auto.
Qed.

Lemma elem_dict_get {V} k (v : V) d :
  NoDup d.*1 → (k, v) ∈ d → dict_get k d = Some v.
Proof.
  induction d as [|[k' v'] d IHd]; [by inv 2|].
  cbn. rewrite NoDup_cons. intros [Hk' Hd] [[= -> ->]|Hin]%elem_of_cons.
  - by rewrite decide_True.
  - rewrite decide_False; [auto|].
    intros ->. apply Hk'. apply list_elem_of_fmap. by exists (k, v).
Qed.

Global Instance item_le_trans {V} : Transitive (@item_le V).
Proof. intros x y z. unfold item_le. apply transitivity. Qed.
Global Instance item_le_total {V} : Total (@item_le V).
Proof. intros x y. unfold item_le. apply total, _. Qed.

(** A dictionary has one sorted list of items. *)
Lemma sort_items_canonical {V} (r1 r2 : list (string * V)) :
  NoDup r1.*1 → r1 ≡ₚ r2 → sort_items r1 = sort_items r2.
Proof.
  intros Hnd Hperm. unfold sort_items.
  apply (Sorted_unique_strong item_le).
  - intros [k1 v1] [k2 v2] H1 H2 Hle1 Hle2.
    rewrite merge_sort_Permutation in H1, H2. rewrite <-Hperm in H2.
    assert (k1 = k2) as <- by (by apply (anti_symm String.le)).
    f_equal. apply (elem_dict_get _ _ _ Hnd) in H1, H2. congruence.
  - apply Sorted_merge_sort, _.
  - apply Sorted_merge_sort, _.
  - by rewrite !merge_sort_Permutation.
Qed.

Lemma json_dumps_equiv a b :
  json_wf a → json_wf b → json_equiv a b →
  json_dumps true a = json_dumps true b.
Proof.
  revert b.
  induction a as [| x | x | x | x | l1 IH | d1 IH] using json_nested_ind;
    intros [| y | y | y | y | l2 | d2]; try done; try (by intros _ _ ->).
  - rewrite !json_wf_list, json_equiv_list. intros Hwf1 Hwf2 Heq. cbn.
    do 3 f_equal. revert Hwf1 Hwf2 IH.
    induction Heq as [|x y l1 l2 Hxy Hl IHl]; [done|].
    rewrite !Forall_cons. intros [??] [??] [??]. cbn. f_equal; auto.
  - rewrite !json_wf_dict, json_equiv_dict.
    intros [Hnd1 Hwf1] [Hnd2 Hwf2] [Hlen Heq]. cbn.
    do 4 f_equal.
    set (render := λ kv : string * json, (kv.1, json_dumps true kv.2)).
    assert (Hkeys : ∀ d, (render <$> d).*1 = d.*1).
    { intros d. rewrite <-list_fmap_compose. done. }
    apply sort_items_canonical; [by rewrite Hkeys|].
    apply submseteq_length_Permutation; [|by rewrite !length_fmap, Hlen].
    apply NoDup_submseteq.
    { eapply NoDup_fmap_1 with (f := fst). by rewrite Hkeys. }
    intros [k s] [[k' v] [[= -> ->] Hin]]%list_elem_of_fmap.
    rewrite Forall_forall in IH, Hwf1, Hwf2, Heq.
    destruct (Heq _ Hin) as (v2 & Hget & Hv).
    apply dict_get_Some_elem in Hget.
    apply list_elem_of_fmap. exists (k', v2). split; [|done].
    unfold render; cbn. f_equal.
    apply (IH _ Hin); [apply (Hwf1 _ Hin)|apply (Hwf2 _ Hget)|done].
Qed.

(** C4. Two configurations that are equal as mappings, whatever the order
    in which their keys were inserted, get the same chunk-result key and
    the same parse-result key: the configuration is serialised with its
    keys sorted before it is hashed. *)
Theorem cache_key_canonical (c1 c2 : list (string * json))
    (text_hash strategy file_hash parser_method : string) :
  json_wf (JDict c1) →
  json_wf (JDict c2) →
  json_equiv (JDict c1) (JDict c2) →
  json_dumps true (JDict c1) = json_dumps true (JDict c2)
  ∧ ChunkResultCache_get_cache_key text_hash strategy c1
    = ChunkResultCache_get_cache_key text_hash strategy c2
  ∧ ParseResultCache_get_cache_key file_hash c1 parser_method
    = ParseResultCache_get_cache_key file_hash c2 parser_method.
Proof.
  intros Hwf1 Hwf2 Heq.
  pose proof (json_dumps_equiv _ _ Hwf1 Hwf2 Heq) as Hdumps.
  unfold ChunkResultCache_get_cache_key, ParseResultCache_get_cache_key.
  by rewrite Hdumps.
Qed.

(* ===================================================================== *)
(** * Properties of metadata enrichment                                   *)
(* ===================================================================== *)


(** *** Shape of the extracted heading metadata *)

Lemma match_heading_level line n body :
  match_heading line = Some (n, body) → (1 ≤ n ≤ 6)%nat.
Proof.
  unfold match_heading. destruct (count_hashes line) as [m rest].
  case_bool_decide; [|done].
  destruct rest as [|c rest']; [done|]. destruct (py_isspace c); [|done].
  destruct (match_spaces_body rest'); [|done]. by intros [= <- _].
Qed.

Lemma first_heading_shape lines :
  first_heading lines = []
  ∨ ∃ (n : nat) s, (1 ≤ n ≤ 6)%nat
      ∧ first_heading lines
        = [(heading_key (Z.of_nat n), JStr s); ("heading_level", JInt (Z.of_nat n))].
Proof.
  induction lines as [|line lines IH]; [by left|]. cbn.
  destruct (match_heading (strip line)) as [[n body]|] eqn:Hm; [|done].
  right. exists n, (strip body). split; [|done].
  by eapply match_heading_level.
Qed.

Lemma extract_heading_metadata_shape text :
  extract_heading_metadata text = []
  ∨ ∃ (n : nat) s, (1 ≤ n ≤ 6)%nat
      ∧ extract_heading_metadata text
        = [(heading_key (Z.of_nat n), JStr s); ("heading_level", JInt (Z.of_nat n))].
Proof. apply first_heading_shape. Qed.

Lemma heading_key_not_token_count level : heading_key level ≠ "token_count".
Proof. unfold heading_key. discriminate. Qed.

Lemma heading_key_not_section_path level : heading_key level ≠ "section_path".
Proof. unfold heading_key. discriminate. Qed.


Lemma extract_heading_metadata_keys text k v :
  (k, v) ∈ extract_heading_metadata text → k ≠ "token_count".
Proof.
  destruct (extract_heading_metadata_shape text) as [->|(n & s & _ & ->)].
  - by intros ?%elem_of_nil.
  - rewrite !elem_of_cons, elem_of_nil.
    intros [[= -> _]|[[= -> _]|[]]]; [apply heading_key_not_token_count|done].
Qed.

(** *** What enrichment may change in the store *)

Section enrichment_frame.

Context (schema : option (list string)) (texts : list string).

Global Instance enriched_from_preorder : PreOrder (enriched_from schema texts).
Proof.
  split.
  - intros h l. split; [done|by left].
  - intros h1 h2 h3 H12 H23 l.
    destruct (H12 l) as [Hk12 Ht12], (H23 l) as [Hk23 Ht23]. split.
    + intros k Hk. by rewrite Hk23, Hk12.
    + destruct Ht23 as [->|[Hnone (t & Ht & ->)]]; [done|].
      right. split; [|by eauto].
      destruct Ht12 as [<-|[? _]]; done.
Qed.

Lemma enriched_from_token_count h h' l :
  enriched_from schema texts h h' →
  is_Some (deref h l !! "token_count") →
  is_Some (deref h' l !! "token_count").
Proof.
  intros Hh Hsome. destruct (Hh l) as [_ [->|[Hnone _]]]; [done|].
  rewrite Hnone in Hsome. by destruct Hsome.
Qed.

Lemma keeps_ret {A} (a : A) : keeps schema texts (ret a).
Proof. intros h. reflexivity. Qed.

Lemma keeps_bind {A B} (m : M heap A) (k : A → M heap B) :
  keeps schema texts m → (∀ a, keeps schema texts (k a)) → keeps schema texts (bind m k).
Proof.
  intros Hm Hk h. unfold bind. specialize (Hm h).
  destruct (m h) as [[a|e] h1]; cbn in *; [|done].
  etrans; [done|]. apply Hk.
Qed.

Lemma keeps_meta_contains l k : keeps schema texts (meta_contains l k).
Proof. intros h. reflexivity. Qed.

Lemma deref_insert l l' (d : gmap string json) (h : heap) :
  deref (<[l := d]> h) l' = if decide (l = l') then d else deref h l'.
Proof. unfold deref. rewrite lookup_insert. by case_decide. Qed.

Lemma keeps_new_dict : keeps schema texts new_dict.
Proof.
  intros h l. unfold new_dict; cbn. rewrite deref_insert.
  case_decide as Hl; [|by split; [|left]]. subst l.
  assert (deref h (fresh (dom h)) = ∅) as ->.
  { unfold deref. by rewrite (not_elem_of_dom_1 h _ (is_fresh (dom h))). }
  by split; [|left].
Qed.

Lemma keeps_meta_set l k v :
  should_include_field schema k = true → k ≠ "token_count" →
  keeps schema texts (meta_set l k v).
Proof.
  intros Hk Htc h l'. unfold meta_set; cbn. rewrite deref_insert.
  case_decide as Hl; [|by split; [|left]]. subst l'. split.
  - intros k' Hk'. rewrite lookup_insert_ne; [done|congruence].
  - left. by rewrite lookup_insert_ne.
Qed.

Lemma keeps_when {A} (b : bool) (m1 m2 : M heap A) :
  (b = true → keeps schema texts m1) → (b = false → keeps schema texts m2) →
  keeps schema texts (if b then m1 else m2).
Proof. destruct b; auto. Qed.

Lemma keeps_meta_update l items :
  Forall (λ kv, should_include_field schema kv.1 = true
                ∧ kv.1 ≠ "token_count") items →
  keeps schema texts (meta_update l items).
Proof.
  induction 1 as [|[k v] items [Hk Htc] _ IH]; cbn; [apply keeps_ret|].
  apply keeps_bind; [by apply keeps_meta_set|done].
Qed.

Lemma keeps_store_section_path l :
  should_include_field schema "section_path" = true →
  keeps schema texts (store_section_path l).
Proof.
  intros Hsp. unfold store_section_path. apply keeps_bind.
  { intros h. reflexivity. }
  intros path. apply keeps_when; intros _;
    [by apply keeps_meta_set|apply keeps_ret].
Qed.

Lemma keeps_write_headings l ctx levels :
  keeps schema texts (write_headings schema l ctx levels).
Proof.
  induction levels as [|level levels IH]; cbn; [apply keeps_ret|].
  apply keeps_bind; [|done].
  apply keeps_when; intros Hk; [|apply keeps_ret].
  apply keeps_meta_set; [done|apply heading_key_not_token_count].
Qed.

Lemma keeps_filtered_update l text :
  keeps schema texts (meta_update l
           (filter (λ kv, should_include_field schema kv.1)
                   (extract_heading_metadata text))).
Proof.
  apply keeps_meta_update, Forall_forall. intros [k v].
  rewrite list_elem_of_filter. cbn. intros [Hk Hin]. split.
  - by destruct (should_include_field schema k).
  - by eapply extract_heading_metadata_keys.
Qed.

Lemma keeps_enrich_by_heading l : keeps schema texts (enrich_by_heading schema l).
Proof.
  unfold enrich_by_heading. apply keeps_bind; [apply keeps_meta_contains|].
  intros has_path. apply keeps_when; [|intros; apply keeps_ret].
  intros [_ Hsp]%andb_prop. by apply keeps_store_section_path.
Qed.

Lemma keeps_enrich_hierarchical text l :
  keeps schema texts (enrich_hierarchical schema text l).
Proof.
  unfold enrich_hierarchical. apply keeps_bind; [apply keeps_meta_contains|].
  intros has_level. apply keeps_when; [|intros; apply keeps_ret].
  intros _. apply keeps_bind; [apply keeps_filtered_update|].
  intros _. apply keeps_when; [|intros; apply keeps_ret].
  intros [_ Hsp]%andb_prop. by apply keeps_store_section_path.
Qed.

Lemma keeps_enrich_other ctx text l : keeps schema texts (enrich_other schema ctx text l).
Proof.
  unfold enrich_other. apply keeps_bind.
  { apply keeps_when; intros _; [|apply keeps_ret].
    apply keeps_bind; [apply keeps_filtered_update|]. intros; apply keeps_ret. }
  intros ctx'. apply keeps_bind; [|intros; apply keeps_ret].
  apply keeps_when; [|intros; apply keeps_ret].
  intros _. apply keeps_bind; [apply keeps_write_headings|].
  intros _. apply keeps_when; [|intros; apply keeps_ret].
  apply keeps_store_section_path.
Qed.

Lemma keeps_add_token_count l text :
  text ∈ texts → keeps schema texts (add_token_count schema text l).
Proof.
  intros Ht h. unfold add_token_count, bind, meta_contains.
  case_bool_decide as Hhas; cbn [negb andb]; [reflexivity|].
  destruct (should_include_field schema "token_count") eqn:Hk; [|reflexivity].
  intros l'. unfold meta_set; cbn. rewrite deref_insert.
  case_decide as Hl; [|by split; [|left]]. subst l'. split.
  - intros k' Hk'. rewrite lookup_insert_ne; [done|congruence].
  - right. split.
    + by destruct (deref h l !! "token_count"); [destruct Hhas|].
    + exists text. by rewrite lookup_insert_eq.
Qed.

Lemma keeps_add_position idx total l : keeps schema texts (add_position schema idx total l).
Proof.
  unfold add_position. apply keeps_bind; [|intros _].
  - apply keeps_when; intros Hk; [by apply keeps_meta_set|apply keeps_ret].
  - apply keeps_when; intros Hk; [by apply keeps_meta_set|apply keeps_ret].
Qed.

Lemma keeps_enrich_strategy strategy ctx text l :
  keeps schema texts (enrich_strategy strategy schema ctx text l).
Proof.
  unfold enrich_strategy. repeat case_decide.
  - apply keeps_bind; [apply keeps_enrich_by_heading|intros; apply keeps_ret].
  - apply keeps_bind; [apply keeps_enrich_hierarchical|intros; apply keeps_ret].
  - apply keeps_enrich_other.
Qed.

Lemma keeps_enrich_chunk strategy total ctx idx c :
  default "" (chunk_text c) ∈ texts →
  keeps schema texts (enrich_chunk strategy schema total ctx idx c).
Proof.
  intros Ht. unfold enrich_chunk. apply keeps_bind.
  { destruct (chunk_metadata c); [apply keeps_ret|apply keeps_new_dict]. }
  intros l. apply keeps_bind; [by apply keeps_add_token_count|]. intros _.
  apply keeps_bind; [apply keeps_add_position|]. intros _.
  apply keeps_bind; [apply keeps_enrich_strategy|intros; apply keeps_ret].
Qed.

Lemma keeps_enrich_loop strategy total ctx idx chunks :
  Forall (λ c, default "" (chunk_text c) ∈ texts) chunks →
  keeps schema texts (enrich_loop strategy schema total ctx idx chunks).
Proof.
  intros Hall. revert ctx idx.
  induction Hall as [|c chunks Hc _ IH]; intros ctx idx; cbn;
    [apply keeps_ret|].
  apply keeps_bind; [by apply keeps_enrich_chunk|]. intros r.
  apply keeps_bind; [apply IH|intros; apply keeps_ret].
Qed.

(** **** Enrichment that cannot raise *)

Lemma bind_run {S A B} (m : M S A) (k : A → M S B) s a s1 :
  m s = (Ret a, s1) → bind m k s = k a s1.
Proof. intros H. unfold bind. by rewrite H. Qed.


Lemma returns_ret {A} (a : A) : returns (ret a).
Proof. intros h. by exists a. Qed.

Lemma returns_bind {A B} (m : M heap A) (k : A → M heap B) :
  returns m → (∀ a, returns (k a)) → returns (bind m k).
Proof.
  intros Hm Hk h. unfold bind. destruct (Hm h) as [a Ha].
  destruct (m h) as [o h1]; cbn in Ha; subst o. apply Hk.
Qed.

Lemma returns_when {A} (b : bool) (m1 m2 : M heap A) :
  returns m1 → returns m2 → returns (if b then m1 else m2).
Proof. by destruct b. Qed.

Lemma returns_meta_contains l k : returns (meta_contains l k).
Proof. intros h. by eexists. Qed.

Lemma returns_meta_set l k v : returns (meta_set l k v).
Proof. intros h. by eexists. Qed.

Lemma returns_new_dict : returns new_dict.
Proof. intros h. by eexists. Qed.

Lemma returns_meta_update l items : returns (meta_update l items).
Proof.
  induction items as [|[k v] items IH]; cbn; [apply returns_ret|].
  apply returns_bind; [apply returns_meta_set|done].
Qed.

Lemma returns_write_headings l ctx levels :
  returns (write_headings schema l ctx levels).
Proof.
  induction levels as [|level levels IH]; cbn; [apply returns_ret|].
  apply returns_bind; [|done].
  apply returns_when; [apply returns_meta_set|apply returns_ret].
Qed.

Lemma returns_add_token_count text l : returns (add_token_count schema text l).
Proof.
  unfold add_token_count. apply returns_bind; [apply returns_meta_contains|].
  intros. apply returns_when; [apply returns_meta_set|apply returns_ret].
Qed.

Lemma returns_add_position idx total l :
  returns (add_position schema idx total l).
Proof.
  unfold add_position. apply returns_bind; [|intros _];
    (apply returns_when; [apply returns_meta_set|apply returns_ret]).
Qed.

Lemma returns_enrich_strategy strategy ctx text l :
  should_include_field schema "section_path" = false →
  returns (enrich_strategy strategy schema ctx text l).
Proof.
  intros Hsp.
  unfold enrich_strategy, enrich_by_heading, enrich_hierarchical, enrich_other.
  cbv zeta.
  repeat case_decide; repeat (
    first [ rewrite Hsp | rewrite andb_false_r
          | apply returns_ret | apply returns_meta_contains
          | apply returns_meta_update | apply returns_write_headings
          | apply returns_bind; [|intros ?]
          | apply returns_when ]).
Qed.

(** With [section_path] out of the schema and [token_count] in it, the body
    of the loop returns, and the dictionary of the enriched chunk holds
    [token_count]. *)
Lemma enrich_chunk_total strategy total ctx idx c h :
  should_include_field schema "section_path" = false →
  should_include_field schema "token_count" = true →
  default "" (chunk_text c) ∈ texts →
  ∃ ctx' l h',
    enrich_chunk strategy schema total ctx idx c h
    = (Ret (ctx', (default "" (chunk_text c), l)), h')
    ∧ enriched_from schema texts h h'
    ∧ is_Some (deref h' l !! "token_count")
    ∧ (∀ l', chunk_metadata c = Some l' → l = l').
Proof.
  intros Hsp Htc Ht. unfold enrich_chunk.
  set (text := default "" (chunk_text c)) in *.
  assert (∃ l h0, (match chunk_metadata c with
                   | Some l => ret l | None => new_dict end) h = (Ret l, h0)
                  ∧ enriched_from schema texts h h0
                  ∧ ∀ l', chunk_metadata c = Some l' → l = l')
    as (l & h0 & H0 & Hk0 & Hl).
  { destruct (chunk_metadata c) as [l|].
    - exists l, h. split_and!; [done|done|]. by intros ? [= ->].
    - eexists _, _. split_and!; [done|apply keeps_new_dict|done]. }
  rewrite (bind_run _ _ _ _ _ H0).
  destruct (returns_add_token_count text l h0) as [[] H1].
  pose proof (keeps_add_token_count l text Ht h0) as Hk1.
  assert (is_Some (deref (add_token_count schema text l h0).2 l !! "token_count"))
    as Hsome.
  { unfold add_token_count, bind, meta_contains. rewrite Htc.
    case_bool_decide as Hhas; cbn; [done|].
    rewrite deref_insert, decide_True by done. by rewrite lookup_insert_eq. }
  destruct (add_token_count schema text l h0) as [o1 h1] eqn:E1.
  cbn in H1, Hk1, Hsome. subst o1. rewrite (bind_run _ _ _ _ _ E1).
  destruct (returns_add_position idx total l h1) as [[] H2].
  pose proof (keeps_add_position idx total l h1) as Hk2.
  destruct (add_position schema idx total l h1) as [o2 h2] eqn:E2.
  cbn in H2, Hk2. subst o2. rewrite (bind_run _ _ _ _ _ E2).
  destruct (returns_enrich_strategy strategy ctx text l Hsp h2) as [ctx' H3].
  pose proof (keeps_enrich_strategy strategy ctx text l h2) as Hk3.
  destruct (enrich_strategy strategy schema ctx text l h2) as [o3 h3] eqn:E3.
  cbn in H3, Hk3. subst o3. rewrite (bind_run _ _ _ _ _ E3).
  exists ctx', l, h3. split_and!; [done|by repeat (etrans; [done|])| |done].
  assert (enriched_from schema texts h1 h3) as H13 by (by etrans).
  by eapply enriched_from_token_count.
Qed.

(** The same for the whole loop: one enriched chunk per chunk, in order,
    with the text of the chunk and its own dictionary. *)
Lemma enrich_loop_total strategy total ctx idx chunks h :
  should_include_field schema "section_path" = false →
  should_include_field schema "token_count" = true →
  Forall (λ c, default "" (chunk_text c) ∈ texts) chunks →
  ∃ enriched h',
    enrich_loop strategy schema total ctx idx chunks h = (Ret enriched, h')
    ∧ enriched_from schema texts h h'
    ∧ Forall2 (λ c e, e.1 = default "" (chunk_text c)
                      ∧ ∀ l, chunk_metadata c = Some l → e.2 = l)
              chunks enriched
    ∧ ∀ e, e ∈ enriched → is_Some (deref h' e.2 !! "token_count").
Proof.
  intros Hsp Htc Hall. revert ctx idx h.
  induction Hall as [|c chunks Hc _ IH]; intros ctx idx h; cbn.
  { exists [], h. split_and!; [done|done|constructor|]. by intros ? ?%elem_of_nil. }
  destruct (enrich_chunk_total strategy total ctx idx c h Hsp Htc Hc)
    as (ctx' & l & h1 & E1 & Hk1 & Hsome & Hl).
  rewrite (bind_run _ _ _ _ _ E1). cbn [fst snd].
  destruct (IH ctx' (idx + 1) h1) as (enriched & h' & E2 & Hk2 & Hshape & Hall').
  rewrite (bind_run _ _ _ _ _ E2).
  eexists _, h'. split_and!; [done|by etrans|by constructor|].
  intros e [->|He]%elem_of_cons; [|by apply Hall'].
  by eapply enriched_from_token_count.
Qed.

End enrichment_frame.

(** C6. A field the schema excludes is never written: whatever the chunks,
    the strategy and the schema, every dictionary has, for such a field,
    the entry it had before enrichment. With the schema [{token_count}],
    enrichment returns one enriched chunk per chunk, the dictionary of each
    holds [token_count] (the value it had, or else the count computed for
    a chunk of the sequence), and no other field of any dictionary has
    changed: not [position_in_document], [total_chunks], a [heading_N] or
    [section_path]. *)
Theorem schema_filtering (chunks : list chunk) (strategy original_text : string)
    (h : heap) :
  (∀ schema l k,
     should_include_field schema k = false →
     deref (enrich_metadata chunks strategy original_text schema h).2 l !! k
     = deref h l !! k)
  ∧ ∃ enriched h',
      enrich_metadata chunks strategy original_text (Some ["token_count"]) h
      = (Ret enriched, h')
      ∧ Forall2 (λ c e, e.1 = default "" (chunk_text c)
                        ∧ ∀ l, chunk_metadata c = Some l → e.2 = l)
                chunks enriched
      ∧ (∀ e, e ∈ enriched →
           ∃ v, deref h' e.2 !! "token_count" = Some v
                ∧ (deref h e.2 !! "token_count" = Some v
                   ∨ deref h e.2 !! "token_count" = None
                     ∧ ∃ c, c ∈ chunks
                            ∧ v = JInt (calculate_token_count
                                          (default "" (chunk_text c)) "gpt-4")))
      ∧ (∀ l k, k ≠ "token_count" → deref h' l !! k = deref h l !! k)
      ∧ (∀ l n, deref h' l !! "position_in_document"
                = deref h l !! "position_in_document"
                ∧ deref h' l !! "total_chunks" = deref h l !! "total_chunks"
                ∧ deref h' l !! heading_key n = deref h l !! heading_key n
                ∧ deref h' l !! "section_path" = deref h l !! "section_path").
Proof.
  set (texts := (λ c, default "" (chunk_text c)) <$> chunks).
  assert (Forall (λ c, default "" (chunk_text c) ∈ texts) chunks) as Htexts.
  { apply Forall_forall. intros c Hc. apply list_elem_of_fmap. by exists c. }
  split.
  { intros schema l k Hk.
    by apply (keeps_enrich_loop schema texts strategy _ ∅ 0 chunks Htexts h l). }
  destruct (enrich_loop_total (Some ["token_count"]) texts strategy
              (Z.of_nat (length chunks)) ∅ 0 chunks h)
    as (enriched & h' & E & Hfrom & Hshape & Hall); [done..|].
  exists enriched, h'.
  assert (∀ l k, k ≠ "token_count" → deref h' l !! k = deref h l !! k) as Hframe.
  { intros l k Hk. apply (Hfrom l). cbn. apply bool_decide_eq_false.
    by intros ->%list_elem_of_singleton. }
  split_and!; [done|done| |done|].
  - intros e He. destruct (Hall e He) as [v Hv]. exists v. split; [done|].
    destruct (Hfrom e.2) as [_ [Heq|[Hnone (t & Ht & Hcount)]]].
    + left. by rewrite <-Heq.
    + right. split; [done|].
      apply list_elem_of_fmap in Ht as (c & -> & Hc). exists c. split; [done|].
      congruence.
  - intros l n. split_and!; apply Hframe;
      [done|done|apply heading_key_not_token_count|done].
Qed.

(** *** The heading context of the other strategies *)







(** **** The steps of the branch on the store *)




Lemma elem_of_sorted_keys (ctx : gmap Z json) level :
  level ∈ sorted_keys ctx ↔ is_Some (ctx !! level).
Proof.
  unfold sorted_keys. rewrite merge_sort_Permutation, list_elem_of_fmap. split.
  - intros ([k v] & -> & Hkv%elem_of_map_to_list). by exists v.
  - intros [v Hv]. exists (level, v). by rewrite elem_of_map_to_list.
Qed.

Lemma store_section_path_run l h :
  store_section_path l h
  = match build_section_path (deref h l) with
    | Ret section_path =>
        if decide (section_path = "") then (Ret (), h)
        else (Ret (), <[l := <["section_path" := JStr section_path]> (deref h l)]> h)
    | Raise e => (Raise e, h)
    end.
Proof.
  unfold store_section_path, bind.
  destruct (build_section_path (deref h l)) as [sp|e]; [|done].
  case_bool_decide; by case_decide.
Qed.

(** **** The heading context *)

Lemma lookup_clear_levels (m : gmap Z json) (levels : list Z) level :
  foldl (λ m l, delete l m) m levels !! level
  = if decide (level ∈ levels) then None else m !! level.
Proof.
  revert m. induction levels as [|l levels IH]; intros m; cbn.
  { by rewrite decide_False by apply not_elem_of_nil. }
  rewrite IH. destruct (decide (level ∈ levels)) as [Hin|Hin].
  - by rewrite decide_True by (by right).
  - destruct (decide (level = l)) as [->|Hne].
    + rewrite decide_True by left. apply lookup_delete_eq.
    + rewrite decide_False by (by intros [?|?]%elem_of_cons).
      by apply lookup_delete_ne.
Qed.

Lemma small_level (n : Z) :
  1 ≤ n ≤ 6 → n = 1 ∨ n = 2 ∨ n = 3 ∨ n = 4 ∨ n = 5 ∨ n = 6.
Proof. lia. Qed.

(** A discovered heading of level [n] sets level [n] and drops the levels
    [n + 1 .. 6]. *)
Lemma update_headings_heading ctx n v :
  1 ≤ n ≤ 6 →
  update_headings ctx (heading_key n, v)
  = foldl (λ m l, delete l m) (<[n := v]> ctx) (seqZ (n + 1) (6 - n)).
Proof.
  intros Hn.
  destruct (small_level n Hn) as [->|[->|[->|[->|[->| ->]]]]]; reflexivity.
Qed.

Lemma update_headings_level ctx v :
  update_headings ctx ("heading_level", v) = ctx.
Proof. reflexivity. Qed.

Lemma heading_key_not_level n : 1 ≤ n ≤ 6 → heading_key n ≠ "heading_level".
Proof.
  intros Hn.
  destruct (small_level n Hn) as [->|[->|[->|[->|[->| ->]]]]]; discriminate.
Qed.

Lemma headings_after_heading ctx n v level :
  1 ≤ n ≤ 6 →
  foldl update_headings ctx [(heading_key n, v); ("heading_level", JInt n)]
  !! level
  = if decide (level = n) then Some v
    else if decide (n < level ≤ 6) then None
    else ctx !! level.
Proof.
  intros Hn. cbn [foldl]. rewrite update_headings_level.
  rewrite update_headings_heading, lookup_clear_levels by done.
  destruct (decide (level ∈ seqZ (n + 1) (6 - n))) as [Hin|Hin];
    rewrite elem_of_seqZ in Hin; repeat case_decide; try lia; try done.
  - subst. apply lookup_insert_eq.
  - by rewrite lookup_insert_ne.
Qed.





(** **** The loop body on a chunk with its own dictionary *)








(* ===================================================================== *)
(** * Properties of the complexity score                                  *)
(* ===================================================================== *)

Lemma until_fence_length s body rest :
  until_fence s = Some (body, rest) →
  (String.length rest < String.length s)%nat.
Proof.
  revert body rest. induction s as [|c s IH]; intros body rest; [done|].
  cbn [until_fence].
  destruct (until_fence s) as [[body' rest']|] eqn:Hs.
  - specialize (IH _ _ eq_refl).
    repeat case_match; intros [= <- <-]; cbn in *; lia.
  - repeat case_match; try done; intros [= <- <-]; cbn; lia.
Qed.

Lemma word_run_length s : (String.length (word_run s).2 ≤ String.length s)%nat.
Proof.
  induction s as [|c s IH]; [done|]. cbn.
  destruct (py_isword c); [|done].
  destruct (word_run s) as [w rest]. cbn in *. lia.
Qed.

Lemma match_code_block_length s lang body rest :
  match_code_block s = Some (lang, body, rest) →
  (String.length rest < String.length s)%nat.
Proof.
  unfold match_code_block. repeat (case_match; try done).
  subst. intros Hm. apply fmap_Some in Hm as ([body' rest'] & Hf & [= _ _ ->]).
  apply until_fence_length in Hf.
  match goal with H : word_run ?s1 = (_, ?s2) |- _ =>
    pose proof (word_run_length s1) as Hw; rewrite H in Hw end.
  cbn in *. lia.
Qed.

(** The fuel of [extract_code_blocks] is enough: more fuel finds the same
    blocks. *)
Lemma findall_code_blocks_fuel fuel fuel' s :
  (String.length s ≤ fuel)%nat → (String.length s ≤ fuel')%nat →
  findall_code_blocks fuel s = findall_code_blocks fuel' s.
Proof.
  revert fuel' s. induction fuel as [|fuel IH]; intros fuel' s Hf Hf'.
  { destruct s; [|cbn in Hf; lia]. by destruct fuel'. }
  destruct s as [|c s]; [by destruct fuel'|].
  destruct fuel' as [|fuel']; [cbn in Hf'; lia|].
  cbn [findall_code_blocks].
  destruct (match_code_block (String c s)) as [[[lang body] rest]|] eqn:Hm.
  - apply match_code_block_length in Hm. cbn in *.
    f_equal. apply IH; lia.
  - cbn in *. apply IH; lia.
Qed.









(* ===================================================================== *)
(** * Properties of [parse_pdf]                                           *)
(* ===================================================================== *)

Ltac oblivious_op :=
  let Hf := fresh "Hf" in
  let rest := fresh "rest" in
  intros ?? [??????] [??????] (Hf & ? & ? & ? & ? & rest & ? & ?);
  cbn in *; simplify_eq; cbn;
  repeat case_match; simplify_eq; cbn;
  (split; [done|]); unfold same_but_stdout; cbn;
  split_and!; try done; try (by exists rest).

Lemma oblivious_ret {A} (a : A) : oblivious (ret a).
Proof. by intros ?? w w' ?. Qed.

Lemma oblivious_raise {A} (e : exn) : oblivious (@raise world A e).
Proof. by intros ?? w w' ?. Qed.

Lemma oblivious_lift {A} (o : outcome A) : oblivious (lift o).
Proof. by intros ?? w w' ?. Qed.

Lemma oblivious_bind {A B} (m : M world A) (k : A → M world B) :
  oblivious m → (∀ a, oblivious (k a)) → oblivious (bind m k).
Proof.
  intros Hm Hk pre pre' w w' Hw. unfold bind.
  destruct (Hm _ _ _ _ Hw) as [Ho Hw'].
  destruct (m w) as [o1 w1], (m w') as [o2 w2]; cbn in *. subst o2.
  destruct o1 as [a|e]; [by apply Hk|done].
Qed.

Lemma oblivious_try_except {A} (m : M world A) (handler : exn → M world A) :
  oblivious m → (∀ e, oblivious (handler e)) → oblivious (try_except m handler).
Proof.
  intros Hm Hh pre pre' w w' Hw. unfold try_except.
  destruct (Hm _ _ _ _ Hw) as [Ho Hw'].
  destruct (m w) as [o1 w1], (m w') as [o2 w2]; cbn in *. subst o2.
  destruct o1 as [a|e]; [done|by apply Hh].
Qed.

Lemma oblivious_path_exists p : oblivious (path_exists p).
Proof. unfold path_exists. oblivious_op. Qed.
Lemma oblivious_stat_mtime p : oblivious (stat_mtime p).
Proof. unfold stat_mtime. oblivious_op. Qed.
Lemma oblivious_unlink p : oblivious (unlink p).
Proof. unfold unlink. oblivious_op. Qed.
Lemma oblivious_time_time : oblivious time_time.
Proof. unfold time_time. oblivious_op. Qed.
Lemma oblivious_open_read p : oblivious (open_read p).
Proof. unfold open_read. oblivious_op. Qed.
Lemma oblivious_open_write p : oblivious (open_write p).
Proof. unfold open_write. oblivious_op. Qed.
Lemma oblivious_file_write p data : oblivious (file_write p data).
Proof. unfold file_write. oblivious_op. Qed.
Lemma oblivious_getenv name : oblivious (getenv name).
Proof. unfold getenv. oblivious_op. Qed.
Lemma oblivious_get_parse_cache : oblivious get_parse_cache.
Proof. unfold get_parse_cache. oblivious_op. Qed.
Lemma oblivious_print line : oblivious (print line).
Proof.
  intros pre pre' w w' (Hf & Hc & Hd & He & Hg & rest & Ho & Ho').
  split; [done|]. unfold print, same_but_stdout; cbn.
  split_and!; try done.
  exists (rest ++ [line]). by rewrite Ho, Ho', !(assoc_L (++)).
Qed.

Ltac oblivious_steps known :=
  repeat first
    [ known
    | apply oblivious_ret | apply oblivious_raise | apply oblivious_lift
    | apply oblivious_path_exists | apply oblivious_stat_mtime
    | apply oblivious_unlink | apply oblivious_time_time
    | apply oblivious_open_read | apply oblivious_open_write
    | apply oblivious_file_write | apply oblivious_getenv
    | apply oblivious_get_parse_cache | apply oblivious_print
    | apply oblivious_bind; [|intros ?]
    | apply oblivious_try_except; [|intros ?]
    | progress cbv zeta
    | case_match ].

Lemma oblivious_ParseResultCache_get self file_hash config parser_method :
  oblivious (ParseResultCache_get self file_hash config parser_method).
Proof. unfold ParseResultCache_get. oblivious_steps fail. Qed.

Lemma oblivious_ParseResultCache_set self file_hash config markdown
    parser_method :
  oblivious (ParseResultCache_set self file_hash config markdown parser_method).
Proof. unfold ParseResultCache_set. oblivious_steps fail. Qed.

Lemma oblivious_parse_with_config file_path page_count api_key config :
  oblivious (parse_with_config file_path page_count api_key config).
Proof.
  unfold parse_with_config, hash_file.
  oblivious_steps
    ltac:(first [ apply oblivious_ParseResultCache_get
                | apply oblivious_ParseResultCache_set ]).
Qed.

Lemma get_pdf_page_count_returns file_path w :
  ∃ page_count w1, get_pdf_page_count file_path w = (Ret page_count, w1).
Proof.
  unfold get_pdf_page_count, try_except, bind, open_read, lift, print, ret.
  destruct (fs w !! file_path) as [f|]; [|by eexists _, _].
  destruct (PdfReader_pages (contents f)); by eexists _, _.
Qed.

(** C7. A configuration that fails validation does not fail the request:
    [parse_pdf] prints one diagnostic line and goes on, with the cache
    lookup and the parse, under [DEFAULT_PARSE_CONFIG] alone; nothing of
    the configuration it was handed is kept. Its outcome and the files it
    leaves are those of the call with no configuration at all, and what it
    prints is what that call prints plus the diagnostic line. *)
Theorem invalid_config_falls_back (file_path : string)
    (config : list (string * json)) (e : exn) (w : world) :
  ParseConfig_init config = Raise e →
  let diagnostic := "Invalid config, using defaults: " +:+ exn_msg e in
  let attempt := parse_pdf file_path (Some config) w in
  let plain := parse_pdf file_path None w in
  attempt.1 = plain.1
  ∧ fs attempt.2 = fs plain.2
  ∧ parse_cache_global attempt.2 = parse_cache_global plain.2
  ∧ ∀ page_count w1 api_key,
      get_pdf_page_count file_path w = (Ret page_count, w1) →
      environ w1 !! "LLAMA_CLOUD_API_KEY" = Some api_key →
      api_key ≠ "" →
      attempt = parse_with_config file_path page_count api_key
                DEFAULT_PARSE_CONFIG
                (set_stdout (λ out, out ++ [diagnostic]) w1)
      ∧ plain = parse_with_config file_path page_count api_key
                    DEFAULT_PARSE_CONFIG w1
      ∧ ∃ printed,
          stdout plain.2 = stdout w1 ++ printed
          ∧ stdout attempt.2 = stdout w1 ++ [diagnostic] ++ printed.
Proof.
  intros Hinvalid diagnostic attempt plain.
  destruct (get_pdf_page_count_returns file_path w) as (page_count & w1 & Hcount).
  assert (∀ api_key,
            environ w1 !! "LLAMA_CLOUD_API_KEY" = Some api_key → api_key ≠ "" →
            attempt = parse_with_config file_path page_count api_key
                      DEFAULT_PARSE_CONFIG
                      (set_stdout (λ out, out ++ [diagnostic]) w1)
            ∧ plain = parse_with_config file_path page_count api_key
                          DEFAULT_PARSE_CONFIG w1) as Hrun.
  { intros api_key Hkey Hne. subst attempt plain. unfold parse_pdf.
    rewrite !(bind_run _ _ _ _ _ Hcount).
    assert (getenv "LLAMA_CLOUD_API_KEY" w1 = (Ret (Some api_key), w1)) as Henv.
    { unfold getenv. by rewrite Hkey. }
    rewrite !(bind_run _ _ _ _ _ Henv).
    destruct api_key as [|c api_key]; [done|].
    split; [|reflexivity].
    unfold bind at 1, try_except, lift, print, ret. by rewrite Hinvalid. }
  destruct (environ w1 !! "LLAMA_CLOUD_API_KEY") as [api_key|] eqn:Hkey.
  2:{ assert (attempt = plain) as Heq.
      { subst attempt plain. unfold parse_pdf.
        rewrite !(bind_run _ _ _ _ _ Hcount).
        unfold bind, getenv. by rewrite Hkey. }
      rewrite Heq. split_and!; [done|done|done|].
      intros pc' w1' key' Hc'. rewrite Hcount in Hc'. injection Hc' as <- <-.
      by rewrite Hkey. }
  destruct (decide (api_key = "")) as [->|Hne].
  { assert (attempt = plain) as Heq.
    { subst attempt plain. unfold parse_pdf.
      rewrite !(bind_run _ _ _ _ _ Hcount).
      unfold bind, getenv. by rewrite Hkey. }
    rewrite Heq. split_and!; [done|done|done|].
    intros pc' w1' key' Hc'. rewrite Hcount in Hc'. injection Hc' as <- <-.
    rewrite Hkey. by intros [= <-]. }
  destruct (Hrun api_key eq_refl Hne) as [Hattempt Hplain].
  destruct (oblivious_parse_with_config file_path page_count api_key
              DEFAULT_PARSE_CONFIG (stdout w1 ++ [diagnostic]) (stdout w1)
              (set_stdout (λ out, out ++ [diagnostic]) w1) w1)
    as [Hout (Hfs & _ & _ & _ & Hglobal & printed & Hp1 & Hp2)].
  { unfold same_but_stdout; cbn. split_and!; try done.
    exists []. by rewrite !(right_id_L [] (++)). }
  clearbody attempt plain. subst attempt plain.
  split_and!; [done|done|done|].
  intros pc' w1' key' Hc'. rewrite Hcount in Hc'. injection Hc' as <- <-.
  rewrite Hkey. intros [= <-] _. split_and!; [done|done|].
  exists printed. by rewrite Hp1, Hp2, (assoc_L (++)).
Qed.
(* ===================================================================== *)
(** * Properties of cache maintenance                                     *)
(* ===================================================================== *)

(** *** Strings and paths *)

Lemma string_app_assoc (a b c : string) : (a +:+ b) +:+ c = a +:+ b +:+ c.
Proof. induction a as [|x a IH]; [done|]. exact (f_equal (String x) IH). Qed.

Lemma strip_prefix_app p s : strip_prefix p (p +:+ s) = Some s.
Proof.
  induction p as [|a p IH]; [by destruct s|].
  change (String a p +:+ s) with (String a (p +:+ s)). cbn.
  by rewrite decide_True.
Qed.

Lemma strip_prefix_Some p s r : strip_prefix p s = Some r → s = p +:+ r.
Proof.
  revert s. induction p as [|a p IH]; intros s; cbn.
  - by intros [= ->].
  - destruct s as [|b s]; [done|]. case_decide; [|done].
    intros ->%IH. by subst.
Qed.

Lemma string_app_cons a (s t : string) : String a s +:+ t = String a (s +:+ t).
Proof. reflexivity. Qed.

Lemma endswith_app suffix s : endswith suffix (s +:+ suffix) = true.
Proof.
  induction s as [|a s IH].
  - change ("" +:+ suffix) with suffix.
    destruct suffix; cbn; by rewrite bool_decide_true.
  - rewrite string_app_cons. cbn. rewrite IH. apply orb_true_r.
Qed.

Lemma endswith_inv suffix s :
  endswith suffix s = true → ∃ pre, s = pre +:+ suffix.
Proof.
  induction s as [|a s IH]; cbn.
  - rewrite orb_false_r. intros <-%bool_decide_eq_true. by exists "".
  - intros [<-%bool_decide_eq_true|Hs]%orb_true_iff; [by exists ""|].
    destruct (IH Hs) as [pre ->]. by exists (String a pre).
Qed.

Lemma has_char_app c a b : has_char c (a +:+ b) = has_char c a || has_char c b.
Proof.
  induction a as [|x a IH]; [done|].
  rewrite string_app_cons. cbn. by rewrite IH, orb_assoc.
Qed.

Lemma glob_match_child dir suffix name :
  glob_match dir suffix (dir +:+ "/" +:+ name +:+ suffix)
  = negb (has_char "/" name || has_char "/" suffix).
Proof.
  unfold glob_match. rewrite <-string_app_assoc, strip_prefix_app.
  by rewrite has_char_app, endswith_app, andb_true_r.
Qed.

(** *** The loops of [clear_expired] and [clear_all] *)

Lemma set_fs_ext f g w : f (fs w) = g (fs w) → set_fs f w = set_fs g w.
Proof. unfold set_fs. by intros ->. Qed.

Lemma set_fs_fs f w : fs (set_fs f w) = f (fs w).
Proof. reflexivity. Qed.

Lemma set_fs_twice f g w : set_fs f (set_fs g w) = set_fs (f ∘ g) w.
Proof. reflexivity. Qed.

Lemma set_fs_same w : set_fs (λ files, files) w = w.
Proof. by destruct w. Qed.

Lemma for_each_sweep self now ps w :
  NoDup ps →
  (∀ p, p ∈ ps → is_Some (fs w !! p)) →
  for_each ps (sweep_file self now) w
  = (Ret (),
     set_fs (filter (λ pf, ¬ (pf.1 ∈ ps ∧ now - st_mtime pf.2 > ttl self))) w).
Proof.
  revert w. induction ps as [|p ps IH]; intros w Hnd Hin.
  { cbn. unfold ret. f_equal. rewrite <-(set_fs_same w) at 1.
    apply set_fs_ext. symmetry. apply map_filter_id.
    intros q f _ [Hq _]. cbn in Hq. by apply elem_of_nil in Hq. }
  apply NoDup_cons in Hnd as [Hp Hnd].
  destruct (Hin p) as [f Hf]; [left|].
  cbn [for_each]. unfold bind at 1. unfold sweep_file at 1.
  unfold bind at 1. unfold stat_mtime at 1. rewrite Hf.
  case_bool_decide as Hage.
  - unfold unlink. rewrite Hf. rewrite IH; [|done|].
    + f_equal. rewrite set_fs_twice. apply set_fs_ext. cbn.
      apply map_eq. intros q. rewrite !map_lookup_filter.
      destruct (decide (q = p)) as [->|Hne].
      * rewrite lookup_delete_eq, Hf. cbn.
        rewrite option_guard_False; [done|]. intros Hn. apply Hn.
        split; [left|done].
      * rewrite lookup_delete_ne by done.
        destruct (fs w !! q) as [g|]; [|done]. cbn.
        apply option_guard_iff. rewrite elem_of_cons. cbn.
        split.
        -- intros Hn [[->|Hq] Hexp]; [done|]. by apply Hn.
        -- intros Hn [Hq Hexp]. apply Hn. split; [by right|done].
    + intros q Hq. cbn. rewrite lookup_delete_ne by (by intros ->).
      apply Hin. by right.
  - unfold ret at 1. rewrite IH; [|done|].
    + f_equal. apply set_fs_ext. apply map_filter_ext. intros q g Hg. cbn.
      rewrite elem_of_cons. split.
      * intros Hn [[->|Hq] Hexp]; [|by apply Hn].
        rewrite Hf in Hg. injection Hg as <-. done.
      * intros Hn [Hq Hexp]. apply Hn. split; [by right|done].
    + intros q Hq. apply Hin. by right.
Qed.

Lemma elem_of_glob dir suffix w p :
  p ∈ filter (λ p, glob_match dir suffix p) (map_to_list (fs w)).*1
  ↔ glob_match dir suffix p ∧ is_Some (fs w !! p).
Proof.
  rewrite list_elem_of_filter, list_elem_of_fmap.
  split.
  - intros [Hm ([q f] & -> & Hqf%elem_of_map_to_list)]. eauto.
  - intros [Hm [f Hf]]. split; [done|].
    exists (p, f). split; [done|]. by apply elem_of_map_to_list.
Qed.

Lemma NoDup_glob dir suffix w :
  NoDup (filter (λ p, glob_match dir suffix p) (map_to_list (fs w)).*1).
Proof. apply NoDup_filter, NoDup_fst_map_to_list. Qed.

Lemma clear_expired_run self suffix w :
  (let* current_time := time_time in
   let* files := glob (cache_dir self) suffix in
   for_each files (sweep_file self current_time)) w
  = (Ret (),
     set_fs (filter (λ pf, ¬ expired_entry self suffix (clock w) pf)) w).
Proof.
  unfold bind at 1. unfold time_time at 1. unfold bind at 1. unfold glob at 1.
  rewrite for_each_sweep.
  - f_equal. apply set_fs_ext. apply map_filter_ext. intros p f Hf.
    unfold expired_entry. cbn. rewrite elem_of_glob.
    split.
    + intros Hn [Hm Hexp]. apply Hn. split; [|done]. split; [done|]. by exists f.
    + intros Hn [[Hm _] Hexp]. by apply Hn.
  - apply NoDup_glob.
  - by intros p [_ Hp]%elem_of_glob.
Qed.

Lemma for_each_unlink ps w :
  NoDup ps →
  (∀ p, p ∈ ps → is_Some (fs w !! p)) →
  for_each ps unlink w
  = (Ret (), set_fs (filter (λ pf : string * file, pf.1 ∉ ps)) w).
Proof.
  revert w. induction ps as [|p ps IH]; intros w Hnd Hin.
  { cbn. unfold ret. f_equal. rewrite <-(set_fs_same w) at 1.
    apply set_fs_ext. symmetry. apply map_filter_id.
    intros q f _. cbn. apply not_elem_of_nil. }
  apply NoDup_cons in Hnd as [Hp Hnd].
  destruct (Hin p) as [f Hf]; [left|].
  cbn [for_each]. unfold bind at 1. unfold unlink at 1. rewrite Hf.
  rewrite IH; [|done|].
  - f_equal. rewrite set_fs_twice. apply set_fs_ext. cbn.
    apply map_eq. intros q. rewrite !map_lookup_filter.
    destruct (decide (q = p)) as [->|Hne].
    + rewrite lookup_delete_eq, Hf. cbn.
      rewrite option_guard_False; [done|]. intros Hn. apply Hn. left.
    + rewrite lookup_delete_ne by done.
      destruct (fs w !! q) as [g|]; [|done]. cbn.
      apply option_guard_iff. rewrite not_elem_of_cons.
      split; [done|by intros [_ Hq]].
  - intros q Hq. cbn. rewrite lookup_delete_ne by (by intros ->).
    apply Hin. by right.
Qed.

Lemma clear_all_run self suffix w :
  (let* files := glob (cache_dir self) suffix in for_each files unlink) w
  = (Ret (),
     set_fs (filter (λ pf : string * file,
                       ¬ glob_match (cache_dir self) suffix pf.1)) w).
Proof.
  unfold bind at 1. unfold glob at 1. rewrite for_each_unlink.
  - f_equal. apply set_fs_ext. apply map_filter_ext. intros p f Hf. cbn.
    rewrite elem_of_glob. split.
    + intros Hn Hm. apply Hn. split; [done|]. by exists f.
    + intros Hn [Hm _]. by apply Hn.
  - apply NoDup_glob.
  - by intros p [_ Hp]%elem_of_glob.
Qed.

(** *** The listing of [get_size] *)

Lemma sum_sizes_run (l : list (string * file)) total w :
  (∀ p f, (p, f) ∈ l → fs w !! p = Some f) →
  sum_sizes total l.*1 w
  = (Ret (foldr (λ pf acc, acc + Z.of_nat (String.length (contents pf.2)))
                total l), w).
Proof.
  revert total. induction l as [|[p f] l IH]; intros total Hl; [done|].
  cbn [fmap list_fmap fst sum_sizes foldr snd]. unfold bind at 1.
  unfold stat_size at 1. rewrite (Hl p f) by left.
  rewrite IH by (intros q g Hq; apply Hl; by right). f_equal. f_equal.
  clear. revert total. induction l as [|[q g] l IH]; intros total; cbn; [done|].
  rewrite IH. lia.
Qed.

Lemma filter_fst_fmap {A} (P : string → Prop) `{!∀ p, Decision (P p)}
    (l : list (string * A)) :
  filter P l.*1 = (filter (λ pf, P pf.1) l).*1.
Proof.
  induction l as [|[p f] l IH]; [done|].
  rewrite fmap_cons, !filter_cons. cbn [fst].
  case_decide; by rewrite ?fmap_cons, IH.
Qed.

Lemma map_to_list_filter_perm {A} (P : string * A → Prop)
    `{!∀ x, Decision (P x)} (m : gmap string A) :
  map_to_list (filter P m) ≡ₚ filter P (map_to_list m).
Proof.
  apply NoDup_Permutation.
  - apply NoDup_map_to_list.
  - apply NoDup_filter, NoDup_map_to_list.
  - intros [p f]. rewrite list_elem_of_filter, !elem_of_map_to_list.
    rewrite map_lookup_filter_Some. split; intros [H1 H2]; by split.
Qed.

Lemma get_size_run self suffix w :
  (let* files := glob (cache_dir self) suffix in
   let* total_size := sum_sizes 0 files in
   ret (Z.of_nat (length files), total_size)) w
  = (Ret (Z.of_nat (size (entries self suffix (fs w))),
          total_size (entries self suffix (fs w))), w).
Proof.
  unfold bind at 1. unfold glob at 1.
  rewrite filter_fst_fmap.
  set (l := filter _ (map_to_list (fs w))).
  assert (map_to_list (entries self suffix (fs w)) ≡ₚ l) as Hperm
    by apply map_to_list_filter_perm.
  unfold bind at 1. rewrite sum_sizes_run.
  - unfold ret. do 3 f_equal.
    + by rewrite length_fmap, <-Hperm, length_map_to_list.
    + unfold total_size. rewrite map_fold_foldr.
      transitivity
        (foldr (uncurry (λ (_ : string) (f : file) (total : Z),
                           total + Z.of_nat (String.length (contents f))))
               0 l).
      { apply foldr_ext; [|done|done]. by intros [p f] a. }
      symmetry. refine (foldr_permutation (=) _ _ _ _ _ Hperm).
      intros j1 [p1 f1] j2 [p2 f2] b _ _ _. cbn. lia.
  - intros p f [_ Hpf%elem_of_map_to_list]%list_elem_of_filter. done.
Qed.

(** *** What the maintenance operations do *)

(** In each of the three classes, [clear_expired] returns normally and
    deletes exactly the files of the cache directory that its pattern
    lists and that are older than the TTL; every other file, the clock and
    the output are as before. *)
Theorem clear_expired_removes_expired_entries (self : cache_instance) (w : world) :
  EmbeddingCache_clear_expired self w
  = (Ret (), set_fs (filter (λ pf, ¬ expired_entry self ".pkl" (clock w) pf)) w)
  ∧ ChunkResultCache_clear_expired self w
    = (Ret (), set_fs (filter (λ pf, ¬ expired_entry self ".json" (clock w) pf)) w)
  ∧ ParseResultCache_clear_expired self w
    = (Ret (), set_fs (filter (λ pf, ¬ expired_entry self ".json" (clock w) pf)) w).
Proof. split_and!; apply clear_expired_run. Qed.

Lemma lookup_swept self suffix w p :
  fs (set_fs (filter (λ pf, ¬ expired_entry self suffix (clock w) pf)) w) !! p
  = match fs w !! p with
    | Some f =>
        if bool_decide (glob_match (cache_dir self) suffix p
                        ∧ clock w - st_mtime f > ttl self)
        then None else Some f
    | None => None
    end.
Proof.
  rewrite set_fs_fs, map_lookup_filter. destruct (fs w !! p) as [f|]; [|done].
  cbn. unfold expired_entry. cbn. case_bool_decide.
  - rewrite option_guard_False; [done|]. intros Hn. by apply Hn.
  - by rewrite option_guard_True.
Qed.

(** A [get] that follows [clear_expired] of the same cache instance
    returns what it would have returned without it, in each class. *)
Theorem clear_expired_preserves_lookups (self : cache_instance) (w : world)
    (text model strategy file_hash parser_method : string)
    (config : list (string * json)) :
  (EmbeddingCache_get self text model (EmbeddingCache_clear_expired self w).2).1
  = (EmbeddingCache_get self text model w).1
  ∧ (ChunkResultCache_get self text strategy config
       (ChunkResultCache_clear_expired self w).2).1
    = (ChunkResultCache_get self text strategy config w).1
  ∧ (ParseResultCache_get self file_hash config parser_method
       (ParseResultCache_clear_expired self w).2).1
    = (ParseResultCache_get self file_hash config parser_method w).1.
Proof.
  unfold EmbeddingCache_clear_expired, ChunkResultCache_clear_expired,
    ParseResultCache_clear_expired.
  fold (sweep_file self). rewrite !clear_expired_run. cbn [snd].
  rewrite !EmbeddingCache_get_unfold, !ChunkResultCache_get_unfold,
    !ParseResultCache_get_unfold.
  cbv zeta. rewrite !lookup_swept. cbn [clock set_fs].
  split_and!.
  - destruct (fs w !! embedding_entry _ _ _) as [f|]; [|done].
    destruct (decide (clock w - st_mtime f > ttl self)) as [Hexp|Hlive].
    + rewrite (bool_decide_true _ Hexp). case_bool_decide; [done|].
      by rewrite (bool_decide_true _ Hexp).
    + rewrite (bool_decide_false _ Hlive).
      rewrite bool_decide_false, (bool_decide_false _ Hlive)
        by (by intros [_ Hexp]).
      by destruct (pickle_loads _).
  - destruct (fs w !! chunk_entry _ _ _ _) as [f|]; [|done].
    destruct (decide (clock w - st_mtime f > ttl self)) as [Hexp|Hlive].
    + rewrite (bool_decide_true _ Hexp). case_bool_decide; [done|].
      by rewrite (bool_decide_true _ Hexp).
    + rewrite (bool_decide_false _ Hlive).
      rewrite bool_decide_false, (bool_decide_false _ Hlive)
        by (by intros [_ Hexp]).
      by destruct (json_loads _).
  - destruct (fs w !! parse_entry _ _ _ _) as [f|]; [|done].
    destruct (decide (clock w - st_mtime f > ttl self)) as [Hexp|Hlive].
    + rewrite (bool_decide_true _ Hexp). case_bool_decide; [done|].
      by rewrite (bool_decide_true _ Hexp).
    + rewrite (bool_decide_false _ Hlive).
      rewrite bool_decide_false, (bool_decide_false _ Hlive)
        by (by intros [_ Hexp]).
      destruct (json_loads _) as [data|]; [|done]. by destruct (get_markdown _).
Qed.

Lemma entries_cleared self suffix (files : gmap string file) :
  entries self suffix
    (filter (λ pf : string * file, ¬ glob_match (cache_dir self) suffix pf.1)
            files) = ∅.
Proof.
  unfold entries. apply map_eq. intros p.
  rewrite lookup_empty. apply map_lookup_filter_None. right.
  intros f [_ Hn]%map_lookup_filter_Some. done.
Qed.

(** In each of the three classes, [clear_all] returns normally and
    deletes exactly the files of the cache directory that its pattern
    lists. After it [get_size] reports no file and no byte. *)
Theorem clear_all_removes_all_entries (self : cache_instance) (w : world) :
  EmbeddingCache_clear_all self w
  = (Ret (), set_fs (filter (λ pf : string * file,
                               ¬ glob_match (cache_dir self) ".pkl" pf.1)) w)
  ∧ ChunkResultCache_clear_all self w
    = (Ret (), set_fs (filter (λ pf : string * file,
                                 ¬ glob_match (cache_dir self) ".json" pf.1)) w)
  ∧ ParseResultCache_clear_all self w
    = (Ret (), set_fs (filter (λ pf : string * file,
                                 ¬ glob_match (cache_dir self) ".json" pf.1)) w)
  ∧ (EmbeddingCache_get_size self (EmbeddingCache_clear_all self w).2).1
    = Ret (0, 0).
Proof.
  split_and!; try apply clear_all_run.
  unfold EmbeddingCache_clear_all, EmbeddingCache_get_size.
  rewrite clear_all_run, get_size_run. cbn [fst snd]. rewrite set_fs_fs.
  by rewrite entries_cleared.
Qed.

Lemma glob_match_embedding_entry self text model :
  has_char "/" (EmbeddingCache_get_cache_key text model) = false →
  glob_match (cache_dir self) ".pkl" (embedding_entry self text model) = true.
Proof.
  intros Hkey. unfold embedding_entry, EmbeddingCache_get_cache_path.
  by rewrite glob_match_child, Hkey.
Qed.

Lemma glob_match_chunk_entry self text strategy config :
  has_char "/" (ChunkResultCache_get_cache_key
                  (ChunkResultCache_hash_text text) strategy config) = false →
  glob_match (cache_dir self) ".json" (chunk_entry self text strategy config)
  = true.
Proof.
  intros Hkey. unfold chunk_entry, ChunkResultCache_get_cache_path.
  by rewrite glob_match_child, Hkey.
Qed.

Lemma glob_match_parse_entry self file_hash config parser_method :
  has_char "/" (ParseResultCache_get_cache_key file_hash config parser_method)
  = false →
  glob_match (cache_dir self) ".json"
             (parse_entry self file_hash config parser_method) = true.
Proof.
  intros Hkey. unfold parse_entry, ParseResultCache_get_cache_path.
  by rewrite glob_match_child, Hkey.
Qed.

Lemma lookup_cleared self suffix w p :
  glob_match (cache_dir self) suffix p = true →
  fs (set_fs (filter (λ pf : string * file,
                        ¬ glob_match (cache_dir self) suffix pf.1)) w) !! p
  = None.
Proof.
  intros Hm. rewrite set_fs_fs. apply map_lookup_filter_None. right.
  intros f _ Hn. apply Hn. cbn. by rewrite Hm.
Qed.

(** After [clear_all], every [get] of the same cache instance is a miss
    that changes nothing, for keys whose digest holds no path separator
    (a hexadecimal digest holds none). *)
Theorem clear_all_then_get_misses (self : cache_instance) (w : world)
    (text model strategy file_hash parser_method : string)
    (config : list (string * json)) :
  has_char "/" (EmbeddingCache_get_cache_key text model) = false →
  has_char "/" (ChunkResultCache_get_cache_key
                  (ChunkResultCache_hash_text text) strategy config) = false →
  has_char "/" (ParseResultCache_get_cache_key file_hash config parser_method)
  = false →
  (let w1 := (EmbeddingCache_clear_all self w).2 in
   EmbeddingCache_get self text model w1 = (Ret None, w1))
  ∧ (let w1 := (ChunkResultCache_clear_all self w).2 in
     ChunkResultCache_get self text strategy config w1 = (Ret None, w1))
  ∧ (let w1 := (ParseResultCache_clear_all self w).2 in
     ParseResultCache_get self file_hash config parser_method w1
     = (Ret None, w1)).
Proof.
  intros He Hc Hp.
  unfold EmbeddingCache_clear_all, ChunkResultCache_clear_all,
    ParseResultCache_clear_all.
  rewrite !clear_all_run. cbn [snd]. cbv zeta.
  rewrite EmbeddingCache_get_unfold, ChunkResultCache_get_unfold,
    ParseResultCache_get_unfold. cbv zeta.
  rewrite !lookup_cleared;
    auto using glob_match_embedding_entry, glob_match_chunk_entry,
      glob_match_parse_entry.
Qed.

(** *** [get_size] and [set] *)

Lemma total_size_insert p f (files : gmap string file) :
  total_size (<[p := f]> files)
  = total_size files
    - from_option (λ g, Z.of_nat (String.length (contents g))) 0 (files !! p)
    + Z.of_nat (String.length (contents f)).
Proof.
  unfold total_size.
  assert (∀ (m : gmap string file) (j1 j2 : string) (z1 z2 : file) (y : Z),
            j1 ≠ j2 → m !! j1 = Some z1 → m !! j2 = Some z2 →
            y + Z.of_nat (String.length (contents z2))
              + Z.of_nat (String.length (contents z1))
            = y + Z.of_nat (String.length (contents z1))
              + Z.of_nat (String.length (contents z2))) as Hcomm
    by (intros; lia).
  destruct (files !! p) as [g|] eqn:Hg; cbn.
  - rewrite <-insert_delete_eq.
    rewrite map_fold_insert_L; [|by apply Hcomm|apply lookup_delete_eq].
    rewrite (map_fold_delete_L _ _ p g files); [|by apply Hcomm|done]. lia.
  - rewrite map_fold_insert_L; [|by apply Hcomm|done]. lia.
Qed.

Lemma lookup_entries self suffix (files : gmap string file) p :
  glob_match (cache_dir self) suffix p = true →
  entries self suffix files !! p = files !! p.
Proof.
  intros Hm. unfold entries. rewrite map_lookup_filter.
  destruct (files !! p) as [f|]; [|done]. cbn.
  rewrite option_guard_True; [done|]. cbn. by rewrite Hm.
Qed.

(** [get_size] after a [set] that succeeded, for a key whose digest holds
    no path separator: when the key is new there is one more file and the
    total grows by the size of the pickle; when the key had an entry the
    number of files is the same and the size of the old entry is replaced
    by that of the new one. *)
Theorem get_size_after_set (self : cache_instance) (w : world)
    (text model : string) (embedding : Embedding) (data : string) :
  disk_ok w = true →
  pickle_dumps embedding = Ret data →
  has_char "/" (EmbeddingCache_get_cache_key text model) = false →
  ∃ n total : Z,
    EmbeddingCache_get_size self w = (Ret (n, total), w)
    ∧ (EmbeddingCache_get_size self
         (EmbeddingCache_set self text model embedding w).2).1
      = Ret (match fs w !! embedding_entry self text model with
             | None => (n + 1, total + Z.of_nat (String.length data))
             | Some f =>
                 (n, total - Z.of_nat (String.length (contents f))
                     + Z.of_nat (String.length data))
             end).
Proof.
  intros Hok Hdump Hkey. unfold EmbeddingCache_get_size.
  rewrite !get_size_run. eexists _, _. split; [reflexivity|].
  rewrite EmbeddingCache_set_unfold by done. rewrite Hdump. cbn [fst snd].
  rewrite set_fs_fs. pose proof (glob_match_embedding_entry self _ _ Hkey) as Hm.
  unfold entries at 1 2. rewrite map_filter_insert_True by (cbn; by rewrite Hm).
  fold (entries self ".pkl" (fs w)).
  rewrite map_size_insert, total_size_insert, lookup_entries by done.
  destruct (fs w !! embedding_entry self text model) as [f|]; cbn;
    apply f_equal, pair_equal_spec; split; lia.
Qed.

(** *** Failures inside [get] and [set] *)



(** *** Namespaces *)

Lemma app_last_inj (a b : string) (c d : ascii) :
  a +:+ String c "" = b +:+ String d "" → c = d.
Proof.
  revert b. induction a as [|x a IH]; intros [|y b] Heq.
  - by injection Heq.
  - change (String c "" = String y (b +:+ String d "")) in Heq.
    injection Heq as _ Hb. by destruct b.
  - change (String x (a +:+ String c "") = String d "") in Heq.
    injection Heq as _ Ha. by destruct a.
  - change (String x (a +:+ String c "") = String y (b +:+ String d "")) in Heq.
    injection Heq as _ Hab. by apply (IH b).
Qed.

Lemma glob_match_suffix dir suffix p :
  glob_match dir suffix p = true → ∃ pre, p = pre +:+ suffix.
Proof.
  unfold glob_match.
  destruct (strip_prefix _ p) as [name|] eqn:Hname; [|done].
  intros [_ Hend]%andb_true_iff. apply endswith_inv in Hend as [pre Hpre].
  apply strip_prefix_Some in Hname. subst.
  exists ((dir +:+ "/") +:+ pre). by rewrite (string_app_assoc (dir +:+ "/")).
Qed.

Lemma glob_match_pkl_json dir dir' key :
  glob_match dir ".pkl" (dir' +:+ "/" +:+ key +:+ ".json") = false.
Proof.
  apply not_true_is_false. intros [pre Hpre]%glob_match_suffix.
  change ".pkl" with (".pk" +:+ "l") in Hpre.
  change ".json" with (".jso" +:+ "n") in Hpre.
  rewrite <-!string_app_assoc in Hpre. apply app_last_inj in Hpre.
  discriminate Hpre.
Qed.

Lemma lookup_cleared_other self suffix w p :
  glob_match (cache_dir self) suffix p = false →
  fs (set_fs (filter (λ pf : string * file,
                        ¬ glob_match (cache_dir self) suffix pf.1)) w) !! p
  = fs w !! p.
Proof.
  intros Hm. rewrite set_fs_fs, map_lookup_filter.
  destruct (fs w !! p) as [f|]; [|done]. cbn.
  rewrite option_guard_True; [done|]. cbn. rewrite Hm. intros [].
Qed.

(** [clear_all] of the embedding cache never deletes an entry of a chunk
    or parse cache, whatever the directories, since it only lists [*.pkl].
    The chunk and the parse cache both list [*.json]: when two instances
    share a directory, [clear_all] of one deletes the entries of the
    other. *)
Theorem clear_all_across_namespaces (self other : cache_instance) (w : world)
    (text strategy file_hash parser_method : string)
    (config : list (string * json)) :
  fs (EmbeddingCache_clear_all self w).2 !! chunk_entry other text strategy config
  = fs w !! chunk_entry other text strategy config
  ∧ fs (EmbeddingCache_clear_all self w).2
       !! parse_entry other file_hash config parser_method
    = fs w !! parse_entry other file_hash config parser_method
  ∧ (cache_dir other = cache_dir self →
     has_char "/" (ParseResultCache_get_cache_key file_hash config parser_method)
     = false →
     fs (ChunkResultCache_clear_all self w).2
        !! parse_entry other file_hash config parser_method = None)
  ∧ (cache_dir other = cache_dir self →
     has_char "/" (ChunkResultCache_get_cache_key
                     (ChunkResultCache_hash_text text) strategy config) = false →
     fs (ParseResultCache_clear_all self w).2
        !! chunk_entry other text strategy config = None).
Proof.
  unfold EmbeddingCache_clear_all, ChunkResultCache_clear_all,
    ParseResultCache_clear_all.
  rewrite !clear_all_run. cbn [snd]. split_and!.
  - apply lookup_cleared_other, glob_match_pkl_json.
  - apply lookup_cleared_other, glob_match_pkl_json.
  - intros <- Hkey. by apply lookup_cleared, glob_match_parse_entry.
  - intros <- Hkey. by apply lookup_cleared, glob_match_chunk_entry.
Qed.



(** *** The global instances *)

Lemma get_embedding_cache_run s c :
  (get_embedding_cache s).1 = Ret c →
  get_embedding_cache s
  = (Ret c, (s.1, CacheGlobals (Some c) (chunk_cache_global s.2))).
Proof.
  destruct s as [w [e k]]. unfold get_embedding_cache. cbn.
  destruct e as [c'|]; [by intros [= ->]|].
  destruct (py_int _) as [t|]; [|done]. by intros [= <-].
Qed.

Lemma get_chunk_cache_run s c :
  (get_chunk_cache s).1 = Ret c →
  get_chunk_cache s
  = (Ret c, (s.1, CacheGlobals (embedding_cache_global s.2) (Some c))).
Proof.
  destruct s as [w [e k]]. unfold get_chunk_cache. cbn.
  destruct k as [c'|]; [by intros [= ->]|].
  destruct (py_int _) as [t|]; [|done]. by intros [= <-].
Qed.

Lemma get_parse_cache_run w c :
  (get_parse_cache w).1 = Ret c →
  get_parse_cache w = (Ret c, set_parse_cache_global c w).
Proof.
  destruct w as [files out now disk env k]. unfold get_parse_cache. cbn.
  destruct k as [c'|]; [by intros [= ->]|].
  destruct (py_int _) as [t|]; [|done]. by intros [= <-].
Qed.

Lemma in_world_run {A} (m : M world A) w g o w' :
  m w = (o, w') → in_world m (w, g) = (o, (w', g)).
Proof. unfold in_world. cbn. by intros ->. Qed.

Lemma ParseResultCache_clear_expired_run self w :
  ParseResultCache_clear_expired self w = (Ret (), swept self ".json" w).
Proof. apply clear_expired_run. Qed.

Lemma ChunkResultCache_clear_expired_run self w :
  ChunkResultCache_clear_expired self w = (Ret (), swept self ".json" w).
Proof. apply clear_expired_run. Qed.

Lemma EmbeddingCache_clear_expired_run self w :
  EmbeddingCache_clear_expired self w = (Ret (), swept self ".pkl" w).
Proof. apply clear_expired_run. Qed.

Lemma get_embedding_cache_world s : (get_embedding_cache s).2.1 = s.1.
Proof. unfold get_embedding_cache. by repeat case_match. Qed.

Lemma get_chunk_cache_world s : (get_chunk_cache s).2.1 = s.1.
Proof. unfold get_chunk_cache. by repeat case_match. Qed.

Lemma get_parse_cache_frame w :
  fs (get_parse_cache w).2 = fs w
  ∧ stdout (get_parse_cache w).2 = stdout w
  ∧ clock (get_parse_cache w).2 = clock w
  ∧ environ (get_parse_cache w).2 = environ w.
Proof. unfold get_parse_cache. by repeat case_match. Qed.

(** *** [cleanup_caches] *)

(** [cleanup_caches] returns normally from every state, and prints
    exactly one line: that the cleanup completed, or the message of the
    exception that stopped it. *)
Theorem cleanup_caches_never_raises (s : world * cache_globals) :
  ∃ s' line,
    cleanup_caches s = (Ret (), s')
    ∧ stdout s'.1 = stdout s.1 ++ [line]
    ∧ (line = "Cache cleanup completed"
       ∨ ∃ e, line = "Error during cache cleanup: " +:+ exn_msg e).
Proof.
  destruct s as [w g]. unfold cleanup_caches, try_except.
  unfold bind at 1.
  pose proof (get_embedding_cache_world (w, g)) as Hw1.
  destruct (get_embedding_cache (w, g)) as [[ce|e] [w1 g1]].
  2:{ cbn in Hw1. subst w1. eexists _, _.
      split; [reflexivity|]. split; [done|]. right. by eexists. }
  cbn in Hw1. subst w1. unfold bind at 1.
  rewrite (in_world_run _ _ _ _ _ (EmbeddingCache_clear_expired_run ce w)).
  unfold bind at 1.
  pose proof (get_chunk_cache_world (swept ce ".pkl" w, g1)) as Hw2.
  destruct (get_chunk_cache _) as [[cc|e] [w2 g2]].
  2:{ cbn in Hw2. subst w2. eexists _, _.
      split; [reflexivity|]. split; [done|]. right. by eexists. }
  cbn in Hw2. subst w2. unfold bind at 1.
  rewrite (in_world_run _ _ _ _ _ (ChunkResultCache_clear_expired_run cc _)).
  unfold bind at 1. unfold in_world at 1. cbn [fst snd].
  pose proof (get_parse_cache_frame (swept cc ".json" (swept ce ".pkl" w)))
    as (_ & Hout & _).
  destruct (get_parse_cache _) as [[cp|e] w3].
  2:{ eexists _, _. split; [reflexivity|]. split; [|right; by eexists].
      cbn in *. by rewrite Hout. }
  unfold bind at 1.
  rewrite (in_world_run _ _ _ _ _ (ParseResultCache_clear_expired_run cp _)).
  eexists _, _. split; [reflexivity|]. split; [|by left].
  cbn in *. by rewrite Hout.
Qed.

Lemma get_chunk_cache_result w w' g g' :
  environ w = environ w' →
  chunk_cache_global g = chunk_cache_global g' →
  (get_chunk_cache (w, g)).1 = (get_chunk_cache (w', g')).1.
Proof.
  intros Henv Hg. unfold get_chunk_cache. cbn. rewrite Henv, Hg.
  by repeat case_match.
Qed.

Lemma get_parse_cache_result w w' :
  environ w = environ w' →
  parse_cache_global w = parse_cache_global w' →
  (get_parse_cache w).1 = (get_parse_cache w').1.
Proof.
  intros Henv Hg. unfold get_parse_cache. rewrite Henv, Hg.
  by repeat case_match.
Qed.

(** When the three global instances exist or can be created,
    [cleanup_caches] prints that the cleanup completed and leaves exactly
    the files that are not an expired entry of any of the three
    instances; the three globals hold the instances. *)
Theorem cleanup_caches_completes (s : world * cache_globals)
    (embedding_cache chunk_cache parse_cache : cache_instance) :
  (get_embedding_cache s).1 = Ret embedding_cache →
  (get_chunk_cache s).1 = Ret chunk_cache →
  (get_parse_cache s.1).1 = Ret parse_cache →
  ∃ s',
    cleanup_caches s = (Ret (), s')
    ∧ stdout s'.1 = stdout s.1 ++ ["Cache cleanup completed"]
    ∧ fs s'.1
      = filter (λ pf, ¬ expired_entry embedding_cache ".pkl" (clock s.1) pf
                      ∧ ¬ expired_entry chunk_cache ".json" (clock s.1) pf
                      ∧ ¬ expired_entry parse_cache ".json" (clock s.1) pf)
               (fs s.1)
    ∧ embedding_cache_global s'.2 = Some embedding_cache
    ∧ chunk_cache_global s'.2 = Some chunk_cache
    ∧ parse_cache_global s'.1 = Some parse_cache.
Proof.
  intros He Hc Hp. destruct s as [w g]. cbn [fst snd] in *.
  unfold cleanup_caches, try_except.
  rewrite (bind_run _ _ _ _ _ (get_embedding_cache_run _ _ He)).
  cbn [fst snd].
  rewrite (bind_run _ _ _ _ _
             (in_world_run _ _ _ _ _ (EmbeddingCache_clear_expired_run _ w))).
  assert ((get_chunk_cache
             (swept embedding_cache ".pkl" w,
              CacheGlobals (Some embedding_cache) (chunk_cache_global g))).1
          = Ret chunk_cache) as Hc'.
  { rewrite <-Hc. by apply get_chunk_cache_result. }
  rewrite (bind_run _ _ _ _ _ (get_chunk_cache_run _ _ Hc')).
  cbn [fst snd embedding_cache_global].
  rewrite (bind_run _ _ _ _ _
             (in_world_run _ _ _ _ _ (ChunkResultCache_clear_expired_run _ _))).
  assert ((get_parse_cache
             (swept chunk_cache ".json" (swept embedding_cache ".pkl" w))).1
          = Ret parse_cache) as Hp'.
  { rewrite <-Hp. by apply get_parse_cache_result. }
  rewrite (bind_run _ _ _ _ _
             (in_world_run _ _ _ _ _ (get_parse_cache_run _ _ Hp'))).
  rewrite (bind_run _ _ _ _ _
             (in_world_run _ _ _ _ _ (ParseResultCache_clear_expired_run _ _))).
  eexists. split; [reflexivity|]. cbn. split_and!; try done.
  rewrite !map_filter_filter. apply map_filter_ext. intros p f _.
  split; [intros [[H1 H2] H3]|intros (H1 & H2 & H3)]; by repeat split.
Qed.

Lemma bind_raise {S A B} (m : M S A) (k : A → M S B) s e s1 :
  m s = (Raise e, s1) → bind m k s = (Raise e, s1).
Proof. unfold bind. by intros ->. Qed.

Lemma get_embedding_cache_raise s e :
  (get_embedding_cache s).1 = Raise e → get_embedding_cache s = (Raise e, s).
Proof. unfold get_embedding_cache. repeat case_match; by intros [= <-]. Qed.

Lemma get_chunk_cache_raise s e :
  (get_chunk_cache s).1 = Raise e → get_chunk_cache s = (Raise e, s).
Proof. unfold get_chunk_cache. repeat case_match; by intros [= <-]. Qed.

(** A setting that cannot be read stops the cleanup at that cache, with
    one printed line: when the embedding instance cannot be created no
    file is deleted, even if the other two caches are set up well; when
    the chunk instance cannot be created, only the embedding cache has
    been swept. *)
Theorem cleanup_caches_stops_at_first_failure (s : world * cache_globals)
    (e : exn) :
  ((get_embedding_cache s).1 = Raise e →
   cleanup_caches s
   = (Ret (),
      (set_stdout (λ out, out ++ ["Error during cache cleanup: " +:+ exn_msg e])
                  s.1, s.2)))
  ∧ (∀ embedding_cache,
       (get_embedding_cache s).1 = Ret embedding_cache →
       (get_chunk_cache s).1 = Raise e →
       cleanup_caches s
       = (Ret (),
          (set_stdout
             (λ out, out ++ ["Error during cache cleanup: " +:+ exn_msg e])
             (swept embedding_cache ".pkl" s.1),
           CacheGlobals (Some embedding_cache) (chunk_cache_global s.2)))).
Proof.
  destruct s as [w g]. cbn [fst snd]. split.
  - intros He. unfold cleanup_caches, try_except.
    by rewrite (bind_raise _ _ _ _ _ (get_embedding_cache_raise _ _ He)).
  - intros ce He Hc. unfold cleanup_caches, try_except.
    rewrite (bind_run _ _ _ _ _ (get_embedding_cache_run _ _ He)).
    cbn [fst snd].
    rewrite (bind_run _ _ _ _ _
               (in_world_run _ _ _ _ _ (EmbeddingCache_clear_expired_run _ w))).
    assert ((get_chunk_cache
               (swept ce ".pkl" w,
                CacheGlobals (Some ce) (chunk_cache_global g))).1
            = Raise e) as Hc'.
    { rewrite <-Hc. by apply get_chunk_cache_result. }
    by rewrite (bind_raise _ _ _ _ _ (get_chunk_cache_raise _ _ Hc')).
Qed.

(** Each global instance is created once: after a call that returned an
    instance, a later call returns the same instance and changes nothing,
    whatever the environment says by then. With the directory and TTL
    variables unset, the instances are created with the defaults of the
    source. *)
Theorem global_instances_are_created_once (s : world * cache_globals)
    (c : cache_instance) (env' : gmap string string) :
  ((get_embedding_cache s).1 = Ret c →
   let s1 := (get_embedding_cache s).2 in
   let s2 := (with_environ env' s1.1, s1.2) in
   get_embedding_cache s2 = (Ret c, s2))
  ∧ ((get_chunk_cache s).1 = Ret c →
     let s1 := (get_chunk_cache s).2 in
     let s2 := (with_environ env' s1.1, s1.2) in
     get_chunk_cache s2 = (Ret c, s2))
  ∧ ((get_parse_cache s.1).1 = Ret c →
     let w2 := with_environ env' (get_parse_cache s.1).2 in
     get_parse_cache w2 = (Ret c, w2))
  ∧ (embedding_cache_global s.2 = None →
     environ s.1 !! "EMBEDDING_CACHE_DIR" = None →
     environ s.1 !! "EMBEDDING_CACHE_TTL" = None →
     (get_embedding_cache s).1 = Ret (CacheInstance "./cache/embeddings" 604800))
  ∧ (chunk_cache_global s.2 = None →
     environ s.1 !! "CHUNK_CACHE_DIR" = None →
     environ s.1 !! "CHUNK_CACHE_TTL" = None →
     (get_chunk_cache s).1 = Ret (CacheInstance "./cache/chunks" 86400))
  ∧ (parse_cache_global s.1 = None →
     environ s.1 !! "PARSE_CACHE_DIR" = None →
     environ s.1 !! "PARSE_CACHE_TTL" = None →
     (get_parse_cache s.1).1 = Ret (CacheInstance "./cache/parses" 604800)).
Proof.
  destruct s as [w g]. cbn [fst snd]. split_and!.
  - intros He. rewrite (get_embedding_cache_run _ _ He). done.
  - intros Hc. rewrite (get_chunk_cache_run _ _ Hc). done.
  - intros Hp. rewrite (get_parse_cache_run _ _ Hp). done.
  - intros Hg Hdir Httl. unfold get_embedding_cache. cbn [fst snd].
    by rewrite Hg, Hdir, Httl.
  - intros Hg Hdir Httl. unfold get_chunk_cache. cbn [fst snd].
    by rewrite Hg, Hdir, Httl.
  - intros Hg Hdir Httl. unfold get_parse_cache.
    by rewrite Hg, Hdir, Httl.
Qed.

(* ===================================================================== *)
(** * Further properties of metadata.py                                   *)
(* ===================================================================== *)

(** *** Reading time *)

Ltac Qcompare_in H :=
  first [apply Qeq_alt in H | apply Qlt_alt in H | apply Qgt_alt in H].

Lemma round_half_even_floor (x : Q) :
  Qfloor x ≤ round_half_even x ≤ Qfloor x + 1.
Proof.
  unfold round_half_even.
  destruct (x - inject_Z (Qfloor x) ?= 1 # 2)%Q; [|lia..].
  destruct (Z.even (Qfloor x)); lia.
Qed.

Lemma round_half_even_mono (x y : Q) :
  (x <= y)%Q → round_half_even x ≤ round_half_even y.
Proof.
  intros Hxy. pose proof (Qfloor_resp_le _ _ Hxy) as Hf.
  pose proof (round_half_even_floor x) as Hx.
  pose proof (round_half_even_floor y) as Hy.
  destruct (decide (Qfloor x = Qfloor y)) as [Heq|Hne]; [|lia].
  unfold round_half_even. rewrite <-Heq.
  destruct (x - inject_Z (Qfloor x) ?= 1 # 2)%Q eqn:Hcx;
    destruct (y - inject_Z (Qfloor x) ?= 1 # 2)%Q eqn:Hcy;
    try (destruct (Z.even (Qfloor x))); try lia; exfalso;
    Qcompare_in Hcx; Qcompare_in Hcy; lra.
Qed.

Lemma round_half_even_le_1 (x : Q) :
  round_half_even x ≤ 1 ↔ (x < 3 # 2)%Q.
Proof.
  pose proof (Qfloor_le x) as Hlo. pose proof (Qlt_floor x) as Hhi.
  pose proof (round_half_even_floor x) as Hr.
  destruct (Z_lt_le_dec (Qfloor x) 1) as [H0|H1].
  - (* floor at most 0 *)
    assert (Qfloor x + 1 ≤ 1) by lia.
    assert (inject_Z (Qfloor x + 1) <= inject_Z 1)%Q by (by rewrite <-Zle_Qle).
    change (inject_Z 1) with 1%Q in *. split; [intros _; lra|intros _; lia].
  - destruct (decide (Qfloor x = 1)) as [Heq|Hne].
    + unfold round_half_even. rewrite Heq in *.
      change (inject_Z 1) with 1%Q in *. change (Z.even 1) with false.
      destruct (x - 1 ?= 1 # 2)%Q eqn:Hc; Qcompare_in Hc;
        (split; [intros Hle|intros Hlt]); try lia; try lra.
    + assert (2 ≤ Qfloor x) by lia.
      assert (inject_Z 2 <= inject_Z (Qfloor x))%Q by (by rewrite <-Zle_Qle).
      change (inject_Z 2) with 2%Q in *. split; [intros ?; lia|intros ?; lra].
Qed.

(** [estimate_reading_time], with the division read as exact: a speed of
    zero raises [ZeroDivisionError]; for any other speed the estimate is
    at least one minute, and exactly one for a negative speed; for a
    positive speed it is exactly one as long as the text has fewer than
    one and a half times as many words as are read in a minute, and it
    does not decrease when words are added. *)
Theorem estimate_reading_time_bounds (text text' : string)
    (words_per_minute : Z) :
  estimate_reading_time text 0
  = Raise (Exn "ZeroDivisionError" "division by zero")
  ∧ (words_per_minute ≠ 0 →
     ∃ minutes, estimate_reading_time text words_per_minute = Ret minutes
                ∧ 1 ≤ minutes)
  ∧ (words_per_minute < 0 → estimate_reading_time text words_per_minute = Ret 1)
  ∧ (0 < words_per_minute →
     (estimate_reading_time text words_per_minute = Ret 1
      ↔ 2 * Z.of_nat (length (py_words text)) < 3 * words_per_minute)
     ∧ ((length (py_words text) ≤ length (py_words text'))%nat →
        ∃ minutes minutes',
          estimate_reading_time text words_per_minute = Ret minutes
          ∧ estimate_reading_time text' words_per_minute = Ret minutes'
          ∧ minutes ≤ minutes')).
Proof.
  unfold estimate_reading_time. split_and!.
  - done.
  - intros Hne. rewrite decide_False by done. eexists. split; [done|]. lia.
  - intros Hneg. rewrite decide_False by lia. f_equal.
    set (n := Z.of_nat (length (py_words text))).
    assert (0 ≤ n) as Hn by lia.
    assert (inject_Z n / inject_Z words_per_minute <= 0)%Q as Hq.
    { assert (inject_Z words_per_minute < 0)%Q as Hw
        by (change 0%Q with (inject_Z 0); by rewrite <-Zlt_Qlt).
      assert (0 <= inject_Z n)%Q as Hn'
        by (change 0%Q with (inject_Z 0); by rewrite <-Zle_Qle).
      assert (inject_Z n / inject_Z words_per_minute
              == - (inject_Z n / - inject_Z words_per_minute))%Q as ->
        by (field; lra).
      assert (0 <= inject_Z n / - inject_Z words_per_minute)%Q; [|lra].
      apply Qle_shift_div_l; lra. }
    apply round_half_even_mono in Hq. change (round_half_even 0) with 0 in Hq.
    lia.
  - intros Hpos. rewrite !decide_False by lia.
    assert (0 < inject_Z words_per_minute)%Q as Hw
      by (change 0%Q with (inject_Z 0); by rewrite <-Zlt_Qlt).
    split.
    + set (n := Z.of_nat (length (py_words text))).
      transitivity (round_half_even (inject_Z n / inject_Z words_per_minute) ≤ 1).
      { split; [intros [= Hmax]; lia|intros Hle; f_equal; lia]. }
      rewrite round_half_even_le_1.
      transitivity (inject_Z (2 * n) < inject_Z (3 * words_per_minute))%Q;
        [|by rewrite <-Zlt_Qlt].
      rewrite !inject_Z_mult. change (inject_Z 2) with 2%Q.
      change (inject_Z 3) with 3%Q. split.
      * intros Hlt.
        assert (inject_Z n
                == inject_Z n / inject_Z words_per_minute
                   * inject_Z words_per_minute)%Q as Hn by (field; lra).
        pose proof (Qmult_lt_compat_r _ _ _ Hw Hlt) as Hmul. lra.
      * intros Hlt. apply Qlt_shift_div_r; [done|]. lra.
    + intros Hlen. eexists _, _. split; [done|]. split; [done|].
      apply Z.max_le_compat_l, round_half_even_mono.
      apply Qmult_le_compat_r.
      * rewrite <-Zle_Qle. lia.
      * apply Qinv_le_0_compat. lra.
Qed.

(** *** The complexity score *)


(** *** The section path *)

Lemma str_parts_Ret parts :
  (∃ ss, str_parts parts = Ret ss) ↔ Forall (λ v, ∃ s, v = JStr s) parts.
Proof.
  induction parts as [|v parts IH].
  { split; [by constructor|by exists []]. }
  split.
  - intros [ss Hss]. destruct v; try done. cbn in Hss.
    destruct (str_parts parts) as [ss'|] eqn:Hparts; [|done].
    constructor; [by eexists|]. apply IH. by eexists.
  - intros [[s ->] [ss Hss]%IH]%Forall_cons. cbn. rewrite Hss. by eexists.
Qed.

Lemma str_parts_Raise parts e :
  str_parts parts = Raise e → ∃ v, v ∈ parts ∧ ∀ s, v ≠ JStr s.
Proof.
  revert e. induction parts as [|v parts IH]; intros e; [done|]. cbn.
  destruct v; try (intros _; eexists; split; [left|done]).
  destruct (str_parts parts) as [ss|e'] eqn:Hparts; [done|].
  intros _. destruct (IH e' eq_refl) as (v & Hv & Hns).
  exists v. split; [by right|done].
Qed.

Lemma str_parts_strings ss : str_parts (JStr <$> ss) = Ret ss.
Proof. induction ss as [|s ss IH]; [done|]. cbn. by rewrite IH. Qed.

Lemma build_section_path_strings (metadata : gmap string json) :
  string_headings metadata →
  build_section_path metadata
  = Ret (join " > "
           (omap (λ level, match metadata !! heading_key level with
                           | Some (JStr s) => if decide (s = "") then None
                                              else Some s
                           | _ => None
                           end)
                 (seqZ 1 6))).
Proof.
  intros Hstrings. unfold build_section_path.
  set (pick := λ level : Z,
         match metadata !! heading_key level with
         | Some v => if py_truthy v then Some v else None
         | None => None
         end).
  assert (omap pick (seqZ 1 6)
          = JStr <$> omap (λ level,
                             match metadata !! heading_key level with
                             | Some (JStr s) =>
                                 if decide (s = "") then None else Some s
                             | _ => None
                             end) (seqZ 1 6)) as ->.
  { assert (Forall (λ level, 1 ≤ level ≤ 6) (seqZ 1 6)) as Hlevels
      by (apply Forall_forall; intros level ?%elem_of_seqZ; lia).
    induction Hlevels as [|level levels Hlevel _ IH]; [done|].
    cbn. rewrite IH. unfold pick.
    destruct (metadata !! heading_key level) as [v|] eqn:Hv; [|done].
    destruct (Hstrings level v Hlevel Hv) as [s ->]. cbn.
    destruct (decide (s = "")) as [->|Hs]; [done|].
    by rewrite bool_decide_false. }
  rewrite str_parts_strings.
  match goal with |- context [JStr <$> ?parts] => by destruct parts end.
Qed.

(** [build_section_path] raises, with a [TypeError], exactly when one of
    the fields [heading_1] to [heading_6] holds a value that is truthy and
    not a string. Otherwise it returns the non-empty heading strings, in
    the order of their levels, joined by [" > "]; other fields are not
    looked at. *)
Theorem build_section_path_raises_iff (metadata : gmap string json) :
  ((∃ e, build_section_path metadata = Raise e)
   ↔ ∃ level v, 1 ≤ level ≤ 6
                ∧ metadata !! heading_key level = Some v
                ∧ py_truthy v = true
                ∧ ∀ s, v ≠ JStr s)
  ∧ (string_headings metadata →
     build_section_path metadata
     = Ret (join " > "
              (omap (λ level, match metadata !! heading_key level with
                              | Some (JStr s) => if decide (s = "") then None
                                                 else Some s
                              | _ => None
                              end)
                    (seqZ 1 6)))).
Proof.
  unfold build_section_path.
  set (pick := λ level : Z,
         match metadata !! heading_key level with
         | Some v => if py_truthy v then Some v else None
         | None => None
         end).
  assert (∀ v, v ∈ omap pick (seqZ 1 6)
               ↔ ∃ level, 1 ≤ level ≤ 6
                          ∧ metadata !! heading_key level = Some v
                          ∧ py_truthy v = true) as Hparts.
  { intros v. rewrite list_elem_of_omap. split.
    - intros (level & Hlevel%elem_of_seqZ & Hpick). exists level.
      split; [lia|]. unfold pick in Hpick.
      destruct (metadata !! heading_key level) as [v'|]; [|done].
      destruct (py_truthy v') eqn:Hv; [|done]. by injection Hpick as ->.
    - intros (level & Hlevel & Hv & Htrue). exists level.
      split; [apply elem_of_seqZ; lia|]. unfold pick. by rewrite Hv, Htrue. }
  split.
  - split.
    + intros [e He].
      destruct (omap pick (seqZ 1 6)) as [|v0 parts0] eqn:Homap; [done|].
      rewrite <-Homap in *. clear Homap v0 parts0.
      destruct (str_parts (omap pick (seqZ 1 6))) as [ss|e'] eqn:Hstr; [done|].
      apply str_parts_Raise in Hstr as (v & Hv%Hparts & Hns).
      destruct Hv as (level & Hlevel & Hv & Htrue).
      by exists level, v.
    + intros (level & v & Hlevel & Hv & Htrue & Hns).
      assert (v ∈ omap pick (seqZ 1 6)) as Hin by (apply Hparts; eauto).
      destruct (omap pick (seqZ 1 6)) as [|v0 parts0] eqn:Homap;
        [by apply elem_of_nil in Hin|].
      rewrite <-Homap in *. clear Homap v0 parts0.
      destruct (str_parts (omap pick (seqZ 1 6))) as [ss|e'] eqn:Hstr;
        [|by eexists].
      assert (Forall (λ v, ∃ s, v = JStr s) (omap pick (seqZ 1 6))) as Hall
        by (apply str_parts_Ret; by eexists).
      rewrite Forall_forall in Hall. destruct (Hall v Hin) as [s ->].
      by destruct (Hns s).
  - apply build_section_path_strings.
Qed.

(** *** Relations kept by the enrichment, whether it returns or raises *)

Global Instance same_but_preorder l : PreOrder (same_but l).
Proof.
  split; [by intros h l'|].
  intros h1 h2 h3 H12 H23 l' Hl'. by rewrite H23, H12.
Qed.

Global Instance same_outside_preorder fields : PreOrder (same_outside fields).
Proof.
  split; [by intros h l k|].
  intros h1 h2 h3 H12 H23 l k Hk. by rewrite H23, H12.
Qed.

Lemma deref_new_dict (h : heap) l : deref (new_dict h).2 l = deref h l.
Proof.
  unfold new_dict. cbn. rewrite deref_insert. case_decide as Hl; [|done].
  subst l. unfold deref.
  by rewrite (not_elem_of_dom_1 h _ (is_fresh (dom h))).
Qed.

Lemma string_context_update ctx text :
  string_context ctx →
  string_context (foldl update_headings ctx (extract_heading_metadata text)).
Proof.
  intros Hctx.
  destruct (extract_heading_metadata_shape text) as [->|(n & s & Hn & ->)];
    [done|].
  intros level v. rewrite headings_after_heading by lia.
  case_decide as Hlevel; [intros [= <-]; split; [lia|by eexists]|].
  case_decide; [done|]. apply Hctx.
Qed.

Section preserved.

Context (R : relation heap) `{!PreOrder R}.

Lemma preserves_ret {A} (a : A) : preserves R (ret a).
Proof. intros h. reflexivity. Qed.

Lemma preserves_bind_val {A B} (Q : A → Prop) (m : M heap A)
    (k : A → M heap B) :
  preserves R m →
  (∀ h a, (m h).1 = Ret a → Q a) →
  (∀ a, Q a → preserves R (k a)) →
  preserves R (bind m k).
Proof.
  intros Hm HQ Hk h. unfold bind. specialize (Hm h). specialize (HQ h).
  destruct (m h) as [[a|e] h1]; cbn in *; [|done].
  etrans; [done|]. by apply Hk, HQ.
Qed.

Lemma preserves_bind {A B} (m : M heap A) (k : A → M heap B) :
  preserves R m → (∀ a, preserves R (k a)) → preserves R (bind m k).
Proof.
  intros Hm Hk. by apply (preserves_bind_val (λ _, True)).
Qed.

Lemma preserves_when {A} (b : bool) (m1 m2 : M heap A) :
  (b = true → preserves R m1) → (b = false → preserves R m2) →
  preserves R (if b then m1 else m2).
Proof. destruct b; auto. Qed.

Lemma preserves_meta_contains l k : preserves R (meta_contains l k).
Proof. intros h. reflexivity. Qed.

(** The writes to the dictionary [l] that [R] allows. *)
Context (l : positive) (allowed : string → Prop).
Hypothesis R_meta_set : ∀ k v, allowed k → preserves R (meta_set l k v).

Lemma preserves_meta_update items :
  Forall (λ kv, allowed kv.1) items → preserves R (meta_update l items).
Proof.
  induction 1 as [|[k v] items Hk _ IH]; cbn [meta_update].
  - apply preserves_ret.
  - apply preserves_bind; [by apply R_meta_set|done].
Qed.

Lemma preserves_store_section_path :
  allowed "section_path" → preserves R (store_section_path l).
Proof.
  intros Hsp h. rewrite store_section_path_run.
  destruct (build_section_path _) as [p|e]; [|done].
  case_decide; [done|]. by apply (R_meta_set "section_path" (JStr p)).
Qed.

Lemma preserves_write_headings schema ctx levels :
  Forall (λ level, allowed (heading_key level)) levels →
  preserves R (write_headings schema l ctx levels).
Proof.
  induction 1 as [|level levels Hlevel _ IH]; cbn [write_headings].
  - apply preserves_ret.
  - apply preserves_bind; [|done].
    apply preserves_when; intros _; [by apply R_meta_set|apply preserves_ret].
Qed.

Hypothesis allowed_section_path : allowed "section_path".
Hypothesis allowed_heading_level : allowed "heading_level".
Hypothesis allowed_heading :
  ∀ level, 1 ≤ level ≤ 6 → allowed (heading_key level).

Lemma allowed_extracted schema text :
  Forall (λ kv : string * json, allowed kv.1)
         (filter (λ kv, should_include_field schema kv.1)
                 (extract_heading_metadata text)).
Proof.
  apply Forall_forall. intros [k v] [_ Hkv]%list_elem_of_filter.
  destruct (extract_heading_metadata_shape text) as [Hnil|(n & s & Hn & Hshape)].
  { rewrite Hnil in Hkv. by apply elem_of_nil in Hkv. }
  rewrite Hshape in Hkv.
  apply elem_of_cons in Hkv as [[= -> _]|Hkv]; [apply allowed_heading; lia|].
  by apply list_elem_of_singleton in Hkv as [= -> _].
Qed.

Lemma preserves_enrich_by_heading schema :
  preserves R (enrich_by_heading schema l).
Proof.
  unfold enrich_by_heading.
  apply preserves_bind; [apply preserves_meta_contains|]. intros has_path.
  apply preserves_when; intros _;
    [by apply preserves_store_section_path|apply preserves_ret].
Qed.

Lemma preserves_enrich_hierarchical schema text :
  preserves R (enrich_hierarchical schema text l).
Proof.
  unfold enrich_hierarchical.
  apply preserves_bind; [apply preserves_meta_contains|]. intros has_level.
  apply preserves_when; intros _; [|apply preserves_ret].
  apply preserves_bind;
    [apply preserves_meta_update, allowed_extracted|]. intros _.
  apply preserves_when; intros _;
    [by apply preserves_store_section_path|apply preserves_ret].
Qed.

Lemma preserves_enrich_other schema ctx text :
  string_context ctx →
  preserves R (enrich_other schema ctx text l).
Proof.
  intros Hctx. unfold enrich_other.
  apply (preserves_bind_val string_context).
  - apply preserves_when; intros _; [|apply preserves_ret].
    apply preserves_bind;
      [apply preserves_meta_update, allowed_extracted|].
    intros _. apply preserves_ret.
  - intros h ctx'. case_bool_decide as Hmeta; cbn.
    + intros [= <-]. done.
    + unfold bind. destruct (meta_update _ _ h) as [[[]|e] h']; [|done].
      intros [= <-]. by apply string_context_update.
  - intros ctx' Hctx'. apply preserves_bind; [|intros _; apply preserves_ret].
    apply preserves_when; intros _; [|apply preserves_ret].
    apply preserves_bind.
    + apply preserves_write_headings, Forall_forall.
      intros level [v Hv]%elem_of_sorted_keys.
      apply allowed_heading. by destruct (Hctx' level v Hv).
    + intros _. apply preserves_when; intros _;
        [by apply preserves_store_section_path|apply preserves_ret].
Qed.

Lemma preserves_enrich_strategy strategy schema ctx text :
  string_context ctx →
  preserves R (enrich_strategy strategy schema ctx text l).
Proof.
  intros Hctx. unfold enrich_strategy. repeat case_decide.
  - apply preserves_bind; [apply preserves_enrich_by_heading|].
    intros _. apply preserves_ret.
  - apply preserves_bind; [apply preserves_enrich_hierarchical|].
    intros _. apply preserves_ret.
  - by apply preserves_enrich_other.
Qed.

Lemma preserves_add_token_count schema text :
  allowed "token_count" → preserves R (add_token_count schema text l).
Proof.
  intros Htc. unfold add_token_count.
  apply preserves_bind; [apply preserves_meta_contains|]. intros has.
  apply preserves_when; intros _; [by apply R_meta_set|apply preserves_ret].
Qed.

Lemma preserves_add_position schema idx total :
  allowed "position_in_document" → allowed "total_chunks" →
  preserves R (add_position schema idx total l).
Proof.
  intros Hpos Htotal. unfold add_position.
  apply preserves_bind.
  - apply preserves_when; intros _; [by apply R_meta_set|apply preserves_ret].
  - intros _.
    apply preserves_when; intros _; [by apply R_meta_set|apply preserves_ret].
Qed.

End preserved.

(** The heading context that the strategy-specific part returns. *)
Lemma enrich_strategy_context strategy schema ctx text l (h : heap) ctx' :
  string_context ctx →
  (enrich_strategy strategy schema ctx text l h).1 = Ret ctx' →
  string_context ctx'.
Proof.
  intros Hctx. unfold enrich_strategy. repeat case_decide.
  - unfold bind, ret. destruct (enrich_by_heading _ _ _) as [[[]|e] h']; [|done].
    by intros [= <-].
  - unfold bind, ret.
    destruct (enrich_hierarchical _ _ _ _) as [[[]|e] h']; [|done].
    by intros [= <-].
  - unfold enrich_other. cbv zeta. unfold bind at 1.
    destruct (if negb _ then _ else _) as [[ctx1|e] h1] eqn:Hfirst; [|done].
    assert (string_context ctx1) as Hctx1.
    { revert Hfirst. case_bool_decide as Hmeta; cbn.
      - by intros [= <- _].
      - unfold bind, ret.
        destruct (meta_update _ _ h) as [[[]|e] h']; [|done].
        intros [= <- _]. by apply string_context_update. }
    unfold bind, ret.
    destruct (if negb (bool_decide (ctx1 = ∅)) then _ else _) as [[[]|e] h2];
      [|done].
    by intros [= <-].
Qed.

Lemma heading_key_strategy_field level :
  1 ≤ level ≤ 6 → heading_key level ∈ strategy_fields.
Proof.
  intros Hlevel.
  destruct (small_level level Hlevel) as [->|[->|[->|[->|[->| ->]]]]];
    unfold strategy_fields; by repeat constructor.
Qed.

Lemma same_outside_meta_set fields l k v :
  k ∈ fields → preserves (same_outside fields) (meta_set l k v).
Proof.
  intros Hk h l' k' Hk'. unfold meta_set. cbn. rewrite deref_insert.
  case_decide as Hl; [|done]. subst l'.
  apply lookup_insert_ne. by intros ->.
Qed.

Lemma same_but_meta_set l k v : preserves (same_but l) (meta_set l k v).
Proof.
  intros h l' Hl'. unfold meta_set. cbn. rewrite deref_insert.
  by rewrite decide_False.
Qed.

Lemma strategy_fields_enrichment k : k ∈ strategy_fields → k ∈ enrichment_fields.
Proof. intros Hk. unfold enrichment_fields. apply elem_of_app. by right. Qed.

Lemma enrich_chunk_context strategy schema total ctx idx c (h : heap) r :
  string_context ctx →
  (enrich_chunk strategy schema total ctx idx c h).1 = Ret r →
  string_context r.1.
Proof.
  intros Hctx. unfold enrich_chunk. cbv zeta. unfold bind at 1.
  assert (∃ l h0, (match chunk_metadata c with
                   | Some l => ret l
                   | None => new_dict
                   end) h = (Ret l, h0)) as (l & h0 & ->)
    by (destruct (chunk_metadata c); by eexists _, _).
  unfold bind at 1. destruct (add_token_count _ _ _ _) as [[[]|e] h1]; [|done].
  unfold bind at 1. destruct (add_position _ _ _ _ _) as [[[]|e] h2]; [|done].
  unfold bind at 1.
  destruct (enrich_strategy _ _ _ _ _ _) as [[ctx'|e] h3] eqn:Hs; [|done].
  intros [= <-]. cbn. eapply enrich_strategy_context; [done|]. by rewrite Hs.
Qed.

Lemma same_outside_enrich_chunk strategy schema total ctx idx c :
  string_context ctx →
  preserves (same_outside enrichment_fields)
            (enrich_chunk strategy schema total ctx idx c).
Proof.
  intros Hctx. unfold enrich_chunk. cbv zeta.
  assert (∀ l k v, k ∈ enrichment_fields →
            preserves (same_outside enrichment_fields) (meta_set l k v))
    as Hset by (intros; by apply same_outside_meta_set).
  apply preserves_bind; [apply _| |].
  { destruct (chunk_metadata c); [apply preserves_ret; apply _|].
    intros h l k _. by rewrite deref_new_dict. }
  intros l.
  apply preserves_bind; [apply _| |].
  { apply (preserves_add_token_count _ l (.∈ enrichment_fields)); [by apply Hset|].
    by repeat constructor. }
  intros _. apply preserves_bind; [apply _| |].
  { apply (preserves_add_position _ l (.∈ enrichment_fields)); [by apply Hset|..];
      by repeat constructor. }
  intros _. apply preserves_bind; [apply _| |].
  { apply (preserves_enrich_strategy _ l (.∈ enrichment_fields));
      [by apply Hset|..|done].
    - by repeat constructor.
    - by repeat constructor.
    - intros level Hlevel.
      by apply strategy_fields_enrichment, heading_key_strategy_field. }
  intros ctx'. apply preserves_ret. apply _.
Qed.

Lemma same_outside_enrich_loop strategy schema total ctx idx chunks :
  string_context ctx →
  preserves (same_outside enrichment_fields)
            (enrich_loop strategy schema total ctx idx chunks).
Proof.
  revert ctx idx. induction chunks as [|c chunks IH]; intros ctx idx Hctx.
  { apply preserves_ret. apply _. }
  cbn [enrich_loop].
  apply (preserves_bind_val _ (λ r, string_context r.1)).
  - by apply same_outside_enrich_chunk.
  - intros h r. by apply enrich_chunk_context.
  - intros r Hr. apply preserves_bind; [apply _|by apply IH|].
    intros enriched. apply preserves_ret. apply _.
Qed.

(** [enrich_metadata] writes no field other than [token_count],
    [position_in_document], [total_chunks], [section_path], [heading_level]
    and [heading_1] to [heading_6]: every other field of every metadata
    dictionary is as it was, whatever the strategy and the schema, whether
    the call returns or raises. *)
Theorem enrich_metadata_writes_only_enrichment_fields (chunks : list chunk)
    (strategy original_text : string) (schema : option (list string))
    (h : heap) (l : positive) (k : string) :
  k ∉ enrichment_fields →
  deref (enrich_metadata chunks strategy original_text schema h).2 l !! k
  = deref h l !! k.
Proof.
  intros Hk. unfold enrich_metadata.
  assert (string_context (∅ : gmap Z json)) as Hempty
    by (intros level v Hv; by rewrite lookup_empty in Hv).
  by apply (same_outside_enrich_loop strategy schema _ ∅ 0 chunks Hempty h).
Qed.

(** *** Enrichment of dictionaries whose heading fields are strings *)

Section safety.

Context (I : heap → Prop).

Lemma safe_ret {A} (a : A) (Q : A → Prop) : Q a → safe I (ret a) Q.
Proof. intros Ha h Hh. by exists a, h. Qed.

Lemma safe_bind {A B} (m : M heap A) (k : A → M heap B)
    (Q : A → Prop) (Q' : B → Prop) :
  safe I m Q → (∀ a, Q a → safe I (k a) Q') → safe I (bind m k) Q'.
Proof.
  intros Hm Hk h Hh. destruct (Hm h Hh) as (a & h1 & Hrun & Hh1 & Ha).
  destruct (Hk a Ha h1 Hh1) as (b & h2 & Hrun2 & Hh2 & Hb).
  exists b, h2. by rewrite (bind_run _ _ _ _ _ Hrun).
Qed.

Lemma safe_when {A} (b : bool) (m1 m2 : M heap A) (Q : A → Prop) :
  (b = true → safe I m1 Q) → (b = false → safe I m2 Q) →
  safe I (if b then m1 else m2) Q.
Proof. destruct b; auto. Qed.

Lemma safe_meta_contains l k : safe I (meta_contains l k) (λ _, True).
Proof. intros h Hh. by eexists _, h. Qed.

End safety.

Lemma safe_new_dict : safe all_string_headings new_dict (λ _, True).
Proof.
  intros h Hh. eexists _, _. split; [reflexivity|]. split; [|done].
  intros l. pose proof (deref_new_dict h l) as Hl. cbn in Hl. rewrite Hl.
  apply Hh.
Qed.

Lemma safe_meta_set l k v :
  (∀ level, 1 ≤ level ≤ 6 → k = heading_key level → ∃ s, v = JStr s) →
  safe all_string_headings (meta_set l k v) (λ _, True).
Proof.
  intros Hv h Hh. eexists _, _. split; [reflexivity|]. split; [|done].
  intros l'. rewrite deref_insert. case_decide as Hl; [|apply Hh]. subst l'.
  intros level v' Hlevel. destruct (decide (k = heading_key level)) as [->|Hk].
  - rewrite lookup_insert_eq. intros [= <-]. by apply (Hv level).
  - rewrite lookup_insert_ne by done. by apply Hh.
Qed.

Lemma safe_meta_set_other l k v :
  (∀ level, 1 ≤ level ≤ 6 → k ≠ heading_key level) →
  safe all_string_headings (meta_set l k v) (λ _, True).
Proof.
  intros Hk. apply safe_meta_set. intros level Hlevel ->.
  by destruct (Hk level Hlevel).
Qed.

Lemma safe_meta_update l items :
  Forall (λ kv : string * json,
            ∀ level, 1 ≤ level ≤ 6 → kv.1 = heading_key level →
                     ∃ s, kv.2 = JStr s) items →
  safe all_string_headings (meta_update l items) (λ _, True).
Proof.
  induction 1 as [|[k v] items Hkv _ IH]; cbn [meta_update].
  - by apply safe_ret.
  - eapply safe_bind; [by apply safe_meta_set|]. by intros _ _.
Qed.

Lemma safe_store_section_path l :
  safe all_string_headings (store_section_path l) (λ _, True).
Proof.
  intros h Hh. rewrite store_section_path_run.
  rewrite (build_section_path_strings _ (Hh l)).
  case_decide; [by eexists _, _|].
  apply (safe_meta_set_other l "section_path" _); [|done].
  intros level _. symmetry. apply heading_key_not_section_path.
Qed.

Lemma safe_write_headings schema l ctx levels :
  string_context ctx →
  Forall (λ level, is_Some (ctx !! level)) levels →
  safe all_string_headings (write_headings schema l ctx levels) (λ _, True).
Proof.
  intros Hctx. induction 1 as [|level levels [v Hv] _ IH]; cbn [write_headings].
  - by apply safe_ret.
  - apply (safe_bind _ _ _ (λ _, True)); [|by intros _ _].
    apply safe_when; intros _; [|by apply safe_ret].
    apply safe_meta_set. intros level' _ _. rewrite Hv. cbn.
    by destruct (Hctx level v Hv).
Qed.

Lemma extracted_strings schema text :
  Forall (λ kv : string * json,
            ∀ level, 1 ≤ level ≤ 6 → kv.1 = heading_key level →
                     ∃ s, kv.2 = JStr s)
         (filter (λ kv, should_include_field schema kv.1)
                 (extract_heading_metadata text)).
Proof.
  apply Forall_forall. intros [k v] [_ Hkv]%list_elem_of_filter.
  destruct (extract_heading_metadata_shape text) as [Hnil|(n & s & Hn & Hshape)].
  { rewrite Hnil in Hkv. by apply elem_of_nil in Hkv. }
  rewrite Hshape in Hkv. intros level Hlevel. cbn.
  apply elem_of_cons in Hkv as [[= -> ->]|Hkv]; [by eexists|].
  apply list_elem_of_singleton in Hkv as [= -> ->]. intros Hk.
  by destruct (heading_key_not_level level Hlevel).
Qed.

Lemma safe_enrich_by_heading schema l :
  safe all_string_headings (enrich_by_heading schema l) (λ _, True).
Proof.
  unfold enrich_by_heading.
  eapply safe_bind; [apply safe_meta_contains|]. intros has_path _.
  apply safe_when; intros _; [apply safe_store_section_path|by apply safe_ret].
Qed.

Lemma safe_enrich_hierarchical schema text l :
  safe all_string_headings (enrich_hierarchical schema text l) (λ _, True).
Proof.
  unfold enrich_hierarchical.
  eapply safe_bind; [apply safe_meta_contains|]. intros has_level _.
  apply safe_when; intros _; [|by apply safe_ret].
  eapply safe_bind; [apply safe_meta_update, extracted_strings|]. intros _ _.
  apply safe_when; intros _; [apply safe_store_section_path|by apply safe_ret].
Qed.

Lemma safe_enrich_other schema ctx text l :
  string_context ctx →
  safe all_string_headings (enrich_other schema ctx text l) string_context.
Proof.
  intros Hctx. unfold enrich_other.
  apply (safe_bind _ _ _ string_context).
  - apply safe_when; intros _; [|by apply safe_ret].
    eapply safe_bind; [apply safe_meta_update, extracted_strings|].
    intros _ _. apply safe_ret. by apply string_context_update.
  - intros ctx' Hctx'.
    apply (safe_bind _ _ _ (λ _, True)); [|intros _ _; by apply safe_ret].
    apply safe_when; intros _; [|by apply safe_ret].
    eapply safe_bind.
    + apply safe_write_headings; [done|]. apply Forall_forall.
      by intros level ?%elem_of_sorted_keys.
    + intros _ _. apply safe_when; intros _;
        [apply safe_store_section_path|by apply safe_ret].
Qed.

Lemma safe_enrich_strategy strategy schema ctx text l :
  string_context ctx →
  safe all_string_headings (enrich_strategy strategy schema ctx text l)
       string_context.
Proof.
  intros Hctx. unfold enrich_strategy. repeat case_decide.
  - eapply safe_bind; [apply safe_enrich_by_heading|].
    intros _ _. by apply safe_ret.
  - eapply safe_bind; [apply safe_enrich_hierarchical|].
    intros _ _. by apply safe_ret.
  - by apply safe_enrich_other.
Qed.

Lemma safe_add_token_count schema text l :
  safe all_string_headings (add_token_count schema text l) (λ _, True).
Proof.
  unfold add_token_count.
  eapply safe_bind; [apply safe_meta_contains|]. intros has _.
  apply safe_when; intros _; [|by apply safe_ret].
  apply safe_meta_set_other. intros level _. symmetry.
  apply heading_key_not_token_count.
Qed.

Lemma safe_add_position schema idx total l :
  safe all_string_headings (add_position schema idx total l) (λ _, True).
Proof.
  unfold add_position.
  apply (safe_bind _ _ _ (λ _, True)).
  - apply safe_when; intros _; [|by apply safe_ret].
    apply safe_meta_set_other. intros level _. unfold heading_key. discriminate.
  - intros _ _. apply safe_when; intros _; [|by apply safe_ret].
    apply safe_meta_set_other. intros level _. unfold heading_key. discriminate.
Qed.

Lemma safe_enrich_chunk strategy schema total ctx idx c :
  string_context ctx →
  safe all_string_headings (enrich_chunk strategy schema total ctx idx c)
       (λ r, string_context r.1
             ∧ r.2.1 = default "" (chunk_text c)
             ∧ ∀ l, chunk_metadata c = Some l → r.2.2 = l).
Proof.
  intros Hctx. unfold enrich_chunk. cbv zeta.
  apply (safe_bind _ _ _ (λ l, ∀ l', chunk_metadata c = Some l' → l = l')).
  { destruct (chunk_metadata c) as [l|].
    - apply safe_ret. by intros l' [= ->].
    - intros h Hh. destruct (safe_new_dict h Hh) as (l & h' & Hrun & Hh' & _).
      by exists l, h'. }
  intros l Hl.
  eapply safe_bind; [apply safe_add_token_count|]. intros _ _.
  eapply safe_bind; [apply safe_add_position|]. intros _ _.
  eapply safe_bind; [by apply safe_enrich_strategy|]. intros ctx' Hctx'.
  by apply safe_ret.
Qed.

Lemma safe_enrich_loop strategy schema total ctx idx chunks :
  string_context ctx →
  safe all_string_headings (enrich_loop strategy schema total ctx idx chunks)
       (λ enriched,
          Forall2 (λ c e, e.1 = default "" (chunk_text c)
                          ∧ ∀ l, chunk_metadata c = Some l → e.2 = l)
                  chunks enriched).
Proof.
  revert ctx idx. induction chunks as [|c chunks IH]; intros ctx idx Hctx;
    cbn [enrich_loop].
  { by apply safe_ret. }
  eapply safe_bind; [by apply safe_enrich_chunk|].
  intros r (Hctx' & Htext & Hl).
  eapply safe_bind; [by apply IH|]. intros enriched Henriched.
  apply safe_ret. by constructor.
Qed.

(** When the heading fields of every metadata dictionary are strings,
    [enrich_metadata] returns, whatever the strategy and the schema: it
    returns one enriched chunk per chunk, in order, with the text of the
    chunk (the empty text if it has none) and the metadata dictionary of
    the chunk itself if it has one; the heading fields are still
    strings. *)
Theorem enrich_metadata_returns_on_string_headings (chunks : list chunk)
    (strategy original_text : string) (schema : option (list string))
    (h : heap) :
  all_string_headings h →
  ∃ enriched h',
    enrich_metadata chunks strategy original_text schema h = (Ret enriched, h')
    ∧ all_string_headings h'
    ∧ Forall2 (λ c e, e.1 = default "" (chunk_text c)
                      ∧ ∀ l, chunk_metadata c = Some l → e.2 = l)
              chunks enriched.
Proof.
  intros Hh. unfold enrich_metadata.
  assert (string_context (∅ : gmap Z json)) as Hempty
    by (intros level v Hv; by rewrite lookup_empty in Hv).
  destruct (safe_enrich_loop strategy schema (Z.of_nat (length chunks)) ∅ 0
              chunks Hempty h Hh) as (enriched & h' & Hrun & Hh' & Hout).
  by exists enriched, h'.
Qed.

(** *** What a run that returns has produced *)





(** *** Position fields *)

Lemma add_fields_values text idx total l (h : heap) :
  ∃ h0 h1,
    add_token_count None text l h = (Ret (), h0)
    ∧ add_position None idx total l h0 = (Ret (), h1)
    ∧ deref h1 l !! "position_in_document" = Some (JInt idx)
    ∧ deref h1 l !! "total_chunks" = Some (JInt total)
    ∧ deref h1 l !! "token_count"
      = Some (default (JInt (calculate_token_count text "gpt-4"))
                      (deref h l !! "token_count")).
Proof.
  unfold add_token_count, add_position, bind, meta_contains, meta_set, ret.
  cbn [should_include_field andb fst snd].
  case_bool_decide as Hpresent; cbn [negb]; eexists _, _;
    (split; [reflexivity|]); (split; [reflexivity|]);
    rewrite !deref_insert, !decide_True by done.
  - destruct Hpresent as [v Hv]. rewrite Hv. cbn.
    split_and!; repeat (rewrite lookup_insert_ne by done);
      by rewrite ?lookup_insert_eq.
  - apply eq_None_not_Some in Hpresent. rewrite Hpresent. cbn.
    split_and!; repeat (rewrite lookup_insert_ne by done);
      by rewrite ?lookup_insert_eq.
Qed.

Lemma enrich_chunk_positions strategy total ctx idx c l (h : heap) :
  chunk_metadata c = Some l →
  string_context ctx →
  all_string_headings h →
  ∃ ctx' h',
    enrich_chunk strategy None total ctx idx c h
    = (Ret (ctx', (default "" (chunk_text c), l)), h')
    ∧ string_context ctx'
    ∧ all_string_headings h'
    ∧ same_but l h h'
    ∧ deref h' l !! "position_in_document" = Some (JInt idx)
    ∧ deref h' l !! "total_chunks" = Some (JInt total)
    ∧ deref h' l !! "token_count"
      = Some (default (JInt (calculate_token_count
                               (default "" (chunk_text c)) "gpt-4"))
                      (deref h l !! "token_count")).
Proof.
  intros Hc Hctx Hh. set (text := default "" (chunk_text c)).
  assert (∀ k v, (λ _ : string, True) k → preserves (same_but l) (meta_set l k v))
    as Hbut by (intros; apply same_but_meta_set).
  assert (∀ k v, k ∈ strategy_fields →
                 preserves (same_outside strategy_fields) (meta_set l k v))
    as Hout by (intros; by apply same_outside_meta_set).
  destruct (add_fields_values text idx total l h)
    as (h0 & h1 & E0 & E1 & Hpos & Htotal & Htoken).
  assert (all_string_headings h1 ∧ same_but l h h1) as [Hh1 Hbut1].
  { destruct (safe_add_token_count None text l h Hh) as ([] & ? & E0' & Hh0 & _).
    rewrite E0 in E0'. injection E0' as <-.
    destruct (safe_add_position None idx total l h0 Hh0)
      as ([] & ? & E1' & Hh1 & _).
    rewrite E1 in E1'. injection E1' as <-. split; [done|].
    pose proof (preserves_add_token_count (same_but l) l (λ _, True) Hbut
                  None text I h) as H0. rewrite E0 in H0.
    pose proof (preserves_add_position (same_but l) l (λ _, True) Hbut
                  None idx total I I h0) as H1. rewrite E1 in H1.
    by etrans. }
  destruct (safe_enrich_strategy strategy None ctx text l Hctx h1 Hh1)
    as (ctx' & h2 & E2 & Hh2 & Hctx').
  pose proof (preserves_enrich_strategy (same_but l) l (λ _, True) Hbut I I
                (λ _ _, I) strategy None ctx text Hctx h1) as Hbut2.
  pose proof (preserves_enrich_strategy (same_outside strategy_fields) l
                (.∈ strategy_fields) Hout
                ltac:(by repeat constructor) ltac:(by repeat constructor)
                heading_key_strategy_field strategy None ctx text Hctx h1)
    as Hout2.
  rewrite E2 in Hbut2, Hout2. cbn [snd] in Hbut2, Hout2.
  exists ctx', h2. split_and!; try done.
  - unfold enrich_chunk. rewrite Hc. cbv zeta. fold text.
    unfold bind at 1. unfold ret at 1.
    by rewrite (bind_run _ _ _ _ _ E0), (bind_run _ _ _ _ _ E1),
      (bind_run _ _ _ _ _ E2).
  - by etrans.
  - rewrite Hout2; [done|]. unfold strategy_fields.
    rewrite !not_elem_of_cons. split_and!; try done. apply not_elem_of_nil.
  - rewrite Hout2; [done|]. unfold strategy_fields.
    rewrite !not_elem_of_cons. split_and!; try done. apply not_elem_of_nil.
  - rewrite Hout2; [done|]. unfold strategy_fields.
    rewrite !not_elem_of_cons. split_and!; try done. apply not_elem_of_nil.
Qed.

Lemma enrich_loop_positions strategy total ctx idx chunks refs (h : heap) :
  chunk_metadata <$> chunks = Some <$> refs →
  NoDup refs →
  string_context ctx →
  all_string_headings h →
  ∃ h',
    enrich_loop strategy None total ctx idx chunks h
    = (Ret (zip ((λ c, default "" (chunk_text c)) <$> chunks) refs), h')
    ∧ (∀ l, l ∉ refs → deref h' l = deref h l)
    ∧ ∀ (i : nat) c l,
        chunks !! i = Some c → refs !! i = Some l →
        deref h' l !! "position_in_document" = Some (JInt (idx + Z.of_nat i))
        ∧ deref h' l !! "total_chunks" = Some (JInt total)
        ∧ deref h' l !! "token_count"
          = Some (default (JInt (calculate_token_count
                                   (default "" (chunk_text c)) "gpt-4"))
                          (deref h l !! "token_count")).
Proof.
  revert refs ctx idx h.
  induction chunks as [|c chunks IH]; intros refs ctx idx h Hrefs Hnd Hctx Hh.
  { destruct refs; [|done]. exists h. split; [done|]. split; [done|].
    by intros i c l Hc. }
  destruct refs as [|l refs]; [done|]. injection Hrefs as Hc Hrefs.
  apply NoDup_cons in Hnd as [Hl Hnd].
  destruct (enrich_chunk_positions strategy total ctx idx c l h Hc Hctx Hh)
    as (ctx1 & h1 & E1 & Hctx1 & Hh1 & Hbut & Hpos & Htotal & Htoken).
  destruct (IH refs ctx1 (idx + 1) h1 Hrefs Hnd Hctx1 Hh1)
    as (h2 & E2 & Hframe & Hfields).
  exists h2. split_and!.
  - cbn [enrich_loop]. rewrite (bind_run _ _ _ _ _ E1). cbn [fst snd].
    by rewrite (bind_run _ _ _ _ _ E2).
  - intros l0 [Hl0 Hrest]%not_elem_of_cons. by rewrite Hframe, Hbut.
  - intros [|i] c' l'; cbn.
    + intros [= <-] [= <-]. rewrite (Hframe l Hl), Z.add_0_r. done.
    + intros Hc' Hl'. destruct (Hfields i c' l' Hc' Hl') as (Hp & Ht & Htc).
      assert (l' ≠ l) as Hne.
      { intros ->. apply Hl. by eapply list_elem_of_lookup_2. }
      rewrite (Hbut l' Hne) in Htc. split_and!; [|done|done].
      rewrite Hp. do 2 f_equal. lia.
Qed.

(** With no schema, for chunks that each have a metadata dictionary of
    their own whose heading fields are strings, [enrich_metadata] returns
    the chunks with their dictionaries, and in the dictionary of the
    [i]-th chunk [position_in_document] is [i], [total_chunks] is the
    number of chunks, and [token_count] is the value it had or, when it
    was absent, the token count of the text of the chunk. *)
Theorem enrich_metadata_sets_positions (chunks : list chunk)
    (refs : list positive) (strategy original_text : string) (h : heap) :
  chunk_metadata <$> chunks = Some <$> refs →
  NoDup refs →
  all_string_headings h →
  ∃ h',
    enrich_metadata chunks strategy original_text None h
    = (Ret (zip ((λ c, default "" (chunk_text c)) <$> chunks) refs), h')
    ∧ ∀ (i : nat) c l,
        chunks !! i = Some c → refs !! i = Some l →
        deref h' l !! "position_in_document" = Some (JInt (Z.of_nat i))
        ∧ deref h' l !! "total_chunks"
          = Some (JInt (Z.of_nat (length chunks)))
        ∧ deref h' l !! "token_count"
          = Some (default (JInt (calculate_token_count
                                   (default "" (chunk_text c)) "gpt-4"))
                          (deref h l !! "token_count")).
Proof.
  intros Hrefs Hnd Hh. unfold enrich_metadata.
  assert (string_context (∅ : gmap Z json)) as Hempty
    by (intros level v Hv; by rewrite lookup_empty in Hv).
  destruct (enrich_loop_positions strategy (Z.of_nat (length chunks)) ∅ 0
              chunks refs h Hrefs Hnd Hempty Hh) as (h' & Hrun & _ & Hfields).
  exists h'. split; [done|]. intros i c l Hc Hl.
  destruct (Hfields i c l Hc Hl) as (Hp & Ht & Htc). by rewrite Z.add_0_l in Hp.
Qed.

(** *** The section path under [by_heading] *)

Lemma keeps_section_path_preorder :
  PreOrder (λ h h' : heap,
              ∀ l v, deref h l !! "section_path" = Some v →
                     deref h' l !! "section_path" = Some v).
Proof. split; [by intros h l v|]. intros h1 h2 h3 H12 H23 l v Hv. auto. Qed.

(** Under the strategy [by_heading], a [section_path] that a metadata
    dictionary holds when [enrich_metadata] is called is still there, with
    the same value, when the call returns or raises: the path is built
    only for dictionaries that have none. *)
Theorem by_heading_keeps_section_path (chunks : list chunk)
    (original_text : string) (schema : option (list string))
    (h : heap) (l : positive) (v : json) :
  deref h l !! "section_path" = Some v →
  deref (enrich_metadata chunks "by_heading" original_text schema h).2 l
    !! "section_path" = Some v.
Proof.
  set (R := λ h h' : heap,
              ∀ l v, deref h l !! "section_path" = Some v →
                     deref h' l !! "section_path" = Some v).
  pose proof keeps_section_path_preorder as HR. fold R in HR.
  assert (∀ l k v, k ≠ "section_path" → preserves R (meta_set l k v)) as Hset.
  { intros l0 k v0 Hk h0 l1 v1 Hv1. unfold meta_set. cbn.
    rewrite deref_insert. case_decide as Hl; [|done]. subst l1.
    by rewrite lookup_insert_ne. }
  assert (∀ l, preserves R (enrich_by_heading schema l)) as Hby.
  { intros l0 h0. unfold enrich_by_heading, bind, meta_contains.
    cbn [fst snd]. case_bool_decide as Hhas; cbn [negb andb].
    { reflexivity. }
    destruct (should_include_field schema "section_path"); [|reflexivity].
    rewrite store_section_path_run.
    destruct (build_section_path _) as [p|e]; [|reflexivity].
    case_decide; [reflexivity|]. intros l1 v1 Hv1. cbn.
    rewrite deref_insert. case_decide as Hl; [|done]. subst l1.
    destruct Hhas. by eexists. }
  assert (∀ total ctx idx c,
            preserves R (enrich_chunk "by_heading" schema total ctx idx c))
    as Hchunk.
  { intros total ctx idx c. unfold enrich_chunk. cbv zeta.
    apply preserves_bind; [done| |].
    { destruct (chunk_metadata c); [by apply preserves_ret|].
      intros h0 l0 v0. by rewrite deref_new_dict. }
    intros l0. apply preserves_bind; [done| |].
    { by apply (preserves_add_token_count R l0 (.≠ "section_path")); [apply Hset|]. }
    intros _. apply preserves_bind; [done| |].
    { by apply (preserves_add_position R l0 (.≠ "section_path")); [apply Hset|..]. }
    intros _. unfold enrich_strategy. rewrite decide_True by done.
    apply preserves_bind; [done| |intros ctx'; by apply preserves_ret].
    apply preserves_bind; [done|apply Hby|intros _; by apply preserves_ret]. }
  assert (∀ chunks total ctx idx,
            preserves R (enrich_loop "by_heading" schema total ctx idx chunks))
    as Hloop.
  { intros chunks0 total. induction chunks0 as [|c chunks0 IH]; intros ctx idx;
      cbn [enrich_loop]; [by apply preserves_ret|].
    apply preserves_bind; [done|apply Hchunk|]. intros r.
    apply preserves_bind; [done|apply IH|]. intros rest. by apply preserves_ret. }
  intros Hv. by apply (Hloop chunks _ ∅ 0 h).
Qed.

(** *** Heading lines *)

Lemma rstrip_nil_iff s : rstrip s = "" ↔ nonblank s = false.
Proof.
  induction s as [|c s IH]; [done|]. cbn.
  destruct (rstrip s) as [|c' r] eqn:Hr.
  - destruct (py_isspace c); cbn; [by rewrite <-IH|done].
  - split; [done|]. intros [_ Hs]%orb_false_iff. by apply IH in Hs.
Qed.

Lemma lstrip_nil_iff s : lstrip s = "" ↔ nonblank s = false.
Proof.
  induction s as [|c s IH]; [done|]. cbn. by destruct (py_isspace c).
Qed.

Lemma nonblank_app a b : nonblank (a +:+ b) = nonblank a || nonblank b.
Proof.
  induction a as [|c a IH]; [done|].
  rewrite string_app_cons. cbn. by rewrite IH, orb_assoc.
Qed.

Lemma nonblank_lstrip s : nonblank (lstrip s) = nonblank s.
Proof.
  induction s as [|c s IH]; [done|]. cbn.
  destruct (py_isspace c) eqn:Hc; cbn; [done|]. by rewrite Hc.
Qed.

Lemma nonblank_rstrip s : nonblank (rstrip s) = nonblank s.
Proof.
  induction s as [|c s IH]; [done|]. cbn.
  destruct (rstrip s) as [|c' r] eqn:Hr.
  - apply rstrip_nil_iff in Hr. rewrite Hr, orb_false_r.
    destruct (py_isspace c) eqn:Hc; cbn; by rewrite ?Hc.
  - cbn in *. by rewrite IH.
Qed.

Lemma rstrip_app a b :
  rstrip (a +:+ b) = if nonblank b then a +:+ rstrip b else rstrip a.
Proof.
  induction a as [|c a IH].
  { change ("" +:+ b) with b. change ("" +:+ rstrip b) with (rstrip b).
    destruct (nonblank b) eqn:Hb; [done|]. by apply rstrip_nil_iff. }
  rewrite !string_app_cons. cbn. rewrite IH.
  destruct (nonblank b) eqn:Hb; [|done].
  destruct (a +:+ rstrip b) as [|c' r] eqn:Hr; [|done].
  assert (nonblank (a +:+ rstrip b) = true) as Hnb
    by (by rewrite nonblank_app, nonblank_rstrip, Hb, orb_true_r).
  by rewrite Hr in Hnb.
Qed.

Lemma rstrip_idemp s : rstrip (rstrip s) = rstrip s.
Proof.
  induction s as [|c s IH]; [done|]. cbn.
  destruct (rstrip s) as [|c' r] eqn:Hr.
  - destruct (py_isspace c) eqn:Hc; [done|]. cbn. by rewrite Hc.
  - cbn in *. by rewrite IH.
Qed.

Lemma lstrip_idemp s : lstrip (lstrip s) = lstrip s.
Proof.
  induction s as [|c s IH]; [done|]. cbn.
  destruct (py_isspace c) eqn:Hc; [done|]. cbn. by rewrite Hc.
Qed.

Lemma lstrip_rstrip s : lstrip (rstrip s) = rstrip (lstrip s).
Proof.
  induction s as [|c s IH]; [done|]. cbn.
  destruct (py_isspace c) eqn:Hc.
  - destruct (rstrip s) as [|c' r] eqn:Hr.
    + symmetry. apply rstrip_nil_iff. rewrite nonblank_lstrip.
      by apply rstrip_nil_iff.
    + rewrite <-IH. cbn. by rewrite Hc.
  - cbn. destruct (rstrip s); cbn; by rewrite Hc.
Qed.

Lemma strip_idemp s : strip (strip s) = strip s.
Proof.
  unfold strip. by rewrite <-lstrip_rstrip, rstrip_idemp, lstrip_rstrip,
    lstrip_idemp.
Qed.

Lemma strip_rstrip s : strip (rstrip s) = strip s.
Proof. unfold strip. by rewrite <-!lstrip_rstrip, rstrip_idemp. Qed.

Lemma strip_lstrip s : strip (lstrip s) = strip s.
Proof. unfold strip. by rewrite lstrip_idemp. Qed.

Lemma strip_nil_iff s : strip s = "" ↔ nonblank s = false.
Proof. unfold strip. by rewrite rstrip_nil_iff, nonblank_lstrip. Qed.

Lemma split_on_no_sep sep s : has_char sep s = false → split_on sep s = [s].
Proof.
  induction s as [|c s IH]; [done|]. cbn.
  intros [Hc Hs]%orb_false_iff. apply bool_decide_eq_false in Hc.
  rewrite decide_False by done. by rewrite IH.
Qed.

Lemma split_on_first sep a b :
  has_char sep a = false →
  split_on sep (a +:+ String sep b) = a :: split_on sep b.
Proof.
  induction a as [|c a IH].
  { intros _. change ("" +:+ String sep b) with (String sep b). cbn.
    by rewrite decide_True. }
  rewrite string_app_cons. cbn.
  intros [Hc Hs]%orb_false_iff. apply bool_decide_eq_false in Hc.
  rewrite decide_False by done. by rewrite IH.
Qed.

Lemma match_body_line s :
  s ≠ "" → has_char newline s = false → match_body s = Some s.
Proof.
  induction s as [|c s IH]; [done|]. intros _. cbn [has_char].
  intros [Hc Hs]%orb_false_iff. apply bool_decide_eq_false in Hc.
  cbn [match_body]. rewrite decide_False by done.
  destruct s as [|c' s]; [done|].
  destruct s as [|c'' s].
  - cbn in Hs. apply orb_false_iff in Hs as [Hc' _].
    apply bool_decide_eq_false in Hc'. by rewrite decide_False.
  - by rewrite IH.
Qed.

Lemma match_spaces_body_line s :
  nonblank s = true → has_char newline s = false →
  match_spaces_body s = Some (lstrip s).
Proof.
  induction s as [|c s IH]; [done|]. cbn [nonblank has_char].
  intros Hnb [Hc Hs]%orb_false_iff. cbn [match_spaces_body lstrip].
  destruct (py_isspace c) eqn:Hsp.
  - cbn in Hnb. by rewrite IH.
  - apply match_body_line; [done|]. cbn. by rewrite Hc, Hs.
Qed.

Lemma count_hashes_hashes n s :
  (∀ s', s ≠ String "#" s') → count_hashes (hashes n +:+ s) = (n, s).
Proof.
  intros Hs. induction n as [|n IH].
  - change (hashes 0 +:+ s) with s. destruct s as [|c s]; [done|].
    cbn. repeat case_match; try done. by destruct (Hs s).
  - cbn [hashes]. rewrite string_app_cons. cbn. by rewrite IH.
Qed.

Lemma has_char_hashes n : has_char newline (hashes n) = false.
Proof. induction n as [|n IH]; [done|]. cbn. by rewrite IH. Qed.

Lemma has_char_rstrip c s : has_char c (rstrip s) = true → has_char c s = true.
Proof.
  induction s as [|c' s IH]; [done|]. cbn.
  destruct (rstrip s) as [|c'' r] eqn:Hr.
  - destruct (py_isspace c'); [done|]. cbn. rewrite orb_false_r.
    intros ->. done.
  - cbn in *. intros [->|Hc]%orb_true_iff; [done|].
    rewrite IH by done. apply orb_true_r.
Qed.

Lemma match_heading_line (n : nat) (title : string) :
  (1 ≤ n ≤ 6)%nat →
  nonblank title = true →
  has_char newline title = false →
  match_heading (hashes n +:+ " " +:+ title) = Some (n, lstrip title).
Proof.
  intros Hn Hnb Hnl. unfold match_heading.
  rewrite count_hashes_hashes by done.
  rewrite bool_decide_true by done.
  change (" " +:+ title) with (String " " title). cbn [py_isspace].
  change (py_isspace " ") with true. cbn.
  by rewrite match_spaces_body_line.
Qed.

Lemma strip_heading_line (n : nat) (title : string) :
  (1 ≤ n)%nat →
  nonblank title = true →
  strip (hashes n +:+ " " +:+ title) = hashes n +:+ " " +:+ rstrip title.
Proof.
  intros Hn Hnb. unfold strip.
  assert (lstrip (hashes n +:+ " " +:+ title) = hashes n +:+ " " +:+ title)
    as -> by (destruct n; [lia|done]).
  rewrite rstrip_app.
  assert (nonblank (" " +:+ title) = true) as ->
    by (by rewrite nonblank_app, Hnb, orb_true_r).
  by rewrite (rstrip_app " " title), Hnb.
Qed.

Lemma first_heading_line (n : nat) (title line : string) lines :
  (1 ≤ n ≤ 6)%nat →
  nonblank title = true →
  has_char newline title = false →
  strip line = hashes n +:+ " " +:+ rstrip title →
  first_heading (line :: lines)
  = [ (heading_key (Z.of_nat n), JStr (strip title));
      ("heading_level", JInt (Z.of_nat n)) ].
Proof.
  intros Hn Hnb Hnl Hline. cbn [first_heading]. rewrite Hline.
  rewrite match_heading_line; [|done|by rewrite nonblank_rstrip|].
  - by rewrite strip_lstrip, strip_rstrip.
  - apply not_true_is_false. intros Hc%has_char_rstrip. by rewrite Hnl in Hc.
Qed.

(** A heading line is read back: for a level [n] from one to six and a
    title with a character that is not whitespace and without a newline,
    the text that starts with the line [n * "#" + " " + title] has the
    heading metadata [heading_n], the title without the whitespace around
    it, and [heading_level = n], whether the text ends with the line or
    goes on after a newline. *)
Theorem heading_line_round_trip (n : nat) (title rest : string) :
  (1 ≤ n ≤ 6)%nat →
  nonblank title = true →
  has_char newline title = false →
  extract_heading_metadata (hashes n +:+ " " +:+ title)
  = [ (heading_key (Z.of_nat n), JStr (strip title));
      ("heading_level", JInt (Z.of_nat n)) ]
  ∧ extract_heading_metadata
      ((hashes n +:+ " " +:+ title) +:+ String newline rest)
    = [ (heading_key (Z.of_nat n), JStr (strip title));
        ("heading_level", JInt (Z.of_nat n)) ].
Proof.
  intros Hn Hnb Hnl.
  assert (has_char newline (hashes n +:+ " " +:+ title) = false) as Hline.
  { rewrite !has_char_app, has_char_hashes, Hnl. done. }
  assert (has_char newline (hashes n +:+ " " +:+ rstrip title) = false)
    as Hstripped.
  { rewrite !has_char_app, has_char_hashes. cbn.
    apply not_true_is_false. intros Hc%has_char_rstrip. by rewrite Hnl in Hc. }
  assert (strip (hashes n +:+ " " +:+ rstrip title)
          = hashes n +:+ " " +:+ rstrip title) as Hfixed.
  { rewrite <-strip_heading_line by (done || lia). apply strip_idemp. }
  assert (extract_heading_metadata (hashes n +:+ " " +:+ title)
          = [ (heading_key (Z.of_nat n), JStr (strip title));
              ("heading_level", JInt (Z.of_nat n)) ]) as Halone.
  { unfold extract_heading_metadata.
    rewrite strip_heading_line by (done || lia).
    rewrite split_on_no_sep by done. cbn [take].
    by apply first_heading_line. }
  split; [done|].
  unfold extract_heading_metadata, strip.
  assert (lstrip ((hashes n +:+ " " +:+ title) +:+ String newline rest)
          = (hashes n +:+ " " +:+ title) +:+ String newline rest) as ->
    by (destruct n; [lia|done]).
  rewrite rstrip_app. cbn [nonblank]. change (py_isspace newline) with true.
  cbn [negb orb].
  destruct (nonblank rest) eqn:Hrest.
  - cbn [rstrip].
    destruct (rstrip rest) as [|c r] eqn:Hr;
      [apply rstrip_nil_iff in Hr; by rewrite Hr in Hrest|].
    rewrite split_on_first by done. cbn [take].
    apply first_heading_line; try done.
    by apply strip_heading_line; [lia|].
  - fold (strip (hashes n +:+ " " +:+ title)). fold (extract_heading_metadata (hashes n +:+ " " +:+ title)).
    assert (rstrip (hashes n +:+ " " +:+ title)
            = strip (hashes n +:+ " " +:+ title)) as ->
      by (unfold strip; destruct n; [lia|done]).
    exact Halone.
Qed.

(** *** Fenced code blocks *)

Lemma match_code_block_no_fence c s :
  c ≠ "`"%char → match_code_block (String c s) = None.
Proof.
  intros Hc. unfold match_code_block.
  destruct c as [[] [] [] [] [] [] [] []]; try done.
Qed.

Lemma findall_code_blocks_plain fuel s :
  has_char "`" s = false → findall_code_blocks fuel s = [].
Proof.
  revert s. induction fuel as [|fuel IH]; intros s; [by destruct s|].
  destruct s as [|c s]; [done|]. cbn [has_char].
  intros [Hc Hs]%orb_false_iff. apply bool_decide_eq_false in Hc.
  cbn [findall_code_blocks]. rewrite match_code_block_no_fence by done.
  by apply IH.
Qed.

Lemma findall_code_blocks_skip fuel pre s :
  has_char "`" pre = false →
  (String.length (pre +:+ s) ≤ fuel)%nat →
  findall_code_blocks fuel (pre +:+ s)
  = findall_code_blocks (String.length s) s.
Proof.
  revert fuel. induction pre as [|c pre IH]; intros fuel.
  { intros _ Hfuel. change ("" +:+ s) with s in *.
    by apply findall_code_blocks_fuel. }
  cbn [has_char]. intros [Hc Hs]%orb_false_iff.
  apply bool_decide_eq_false in Hc.
  rewrite string_app_cons. cbn [String.length]. intros Hfuel.
  destruct fuel as [|fuel]; [lia|].
  cbn [findall_code_blocks]. rewrite match_code_block_no_fence by done.
  apply IH; [done|lia].
Qed.

Lemma word_run_app lang s :
  all_word lang = true →
  (∀ c s', s = String c s' → py_isword c = false) →
  word_run (lang +:+ s) = (lang, s).
Proof.
  intros Hlang Hs. induction lang as [|c lang IH].
  - change ("" +:+ s) with s. destruct s as [|c s']; [done|].
    cbn. by rewrite (Hs c s').
  - cbn in Hlang. apply andb_true_iff in Hlang as [Hc Hlang].
    rewrite string_app_cons. cbn. by rewrite Hc, IH.
Qed.

Lemma until_fence_app code s :
  has_char "`" code = false →
  until_fence (code +:+ "```" +:+ s) = Some (code, s).
Proof.
  induction code as [|c code IH]; [done|]. cbn [has_char].
  intros [Hc Hs]%orb_false_iff. apply bool_decide_eq_false in Hc.
  rewrite string_app_cons.
  assert (until_fence (String c (code +:+ "```" +:+ s))
          = match until_fence (code +:+ "```" +:+ s) with
            | Some (body, rest) => Some (String c body, rest)
            | None => None
            end) as ->.
  { destruct c as [[] [] [] [] [] [] [] []]; try done. }
  by rewrite IH.
Qed.

Lemma findall_code_blocks_match fuel s lang body rest :
  match_code_block s = Some (lang, body, rest) →
  (String.length s ≤ fuel)%nat →
  findall_code_blocks fuel s
  = (lang, body) :: findall_code_blocks (String.length rest) rest.
Proof.
  intros Hmatch Hfuel. pose proof (match_code_block_length _ _ _ _ Hmatch) as Hlen.
  destruct s as [|c s]; [done|]. destruct fuel as [|fuel]; [cbn in Hfuel; lia|].
  cbn [findall_code_blocks]. rewrite Hmatch. f_equal.
  apply findall_code_blocks_fuel; cbn in *; lia.
Qed.

(** A fenced block is read back: in a text with one fenced block, whose
    language tag is made of word characters or is empty, and without a
    backquote before the block, inside it or after it, [extract_code_blocks]
    finds exactly that block, with its language, or ["text"] when the tag
    is empty, and the code without the whitespace around it. *)
Theorem code_block_round_trip (before lang code after : string) :
  has_char "`" before = false →
  all_word lang = true →
  has_char "`" code = false →
  has_char "`" after = false →
  extract_code_blocks
    (before +:+ "```" +:+ lang +:+ String newline (code +:+ "```" +:+ after))
  = [ (if bool_decide (lang = "") then "text" else lang, strip code) ].
Proof.
  intros Hbefore Hlang Hcode Hafter. unfold extract_code_blocks.
  rewrite findall_code_blocks_skip by done.
  set (block := "```" +:+ lang +:+ String newline (code +:+ "```" +:+ after)).
  assert (match_code_block block = Some (lang, code, after)) as Hmatch.
  { unfold block. change ("```" +:+ ?s) with (String "`" (String "`" (String "`" s))).
    unfold match_code_block.
    rewrite word_run_app; [|done|by intros c s' [= <- _]].
    rewrite decide_True by done. by rewrite until_fence_app. }
  rewrite (findall_code_blocks_match _ _ _ _ _ Hmatch) by done.
  by rewrite findall_code_blocks_plain.
Qed.

(** *** The demonstration store *)

Lemma demo_store_string_headings : all_string_headings demo_store.
Proof.
  intros l level v Hlevel. unfold demo_store, deref.
  destruct (decide (l = 1%positive)) as [->|H1];
    [|destruct (decide (l = 2%positive)) as [->|H2]].
  - rewrite lookup_insert_eq. cbn.
    destruct (small_level level Hlevel) as [->|[->|[->|[->|[->| ->]]]]];
      by vm_compute.
  - rewrite lookup_insert_ne, lookup_singleton_eq by done. cbn.
    destruct (small_level level Hlevel) as [->|[->|[->|[->|[->| ->]]]]];
      by vm_compute.
  - by rewrite lookup_insert_ne, lookup_singleton_ne by done.
Qed.

(* ===================================================================== *)
(** * Further properties of llama_parser.py                               *)
(* ===================================================================== *)

(** *** The page count *)

Lemma get_pdf_page_count_run file_path w :
  get_pdf_page_count file_path w =
  let warning e := "Warning: Could not extract page count: " +:+ exn_msg e in
  match fs w !! file_path with
  | Some f =>
      match PdfReader_pages (contents f) with
      | Ret n => (Ret (Z.of_nat n), w)
      | Raise e => (Ret 0, set_stdout (λ out, out ++ [warning e]) w)
      end
  | None =>
      (Ret 0,
       set_stdout (λ out, out ++ [warning (FileNotFoundError file_path)]) w)
  end.
Proof.
  unfold get_pdf_page_count, try_except, bind, open_read, lift, print, ret.
  destruct (fs w !! file_path) as [f|]; [|done].
  by destruct (PdfReader_pages (contents f)).
Qed.

Lemma get_pdf_page_count_quiet file_path w :
  ∃ page_count w1 printed,
    get_pdf_page_count file_path w = (Ret page_count, w1)
    ∧ same_but_stdout (stdout w ++ printed) (stdout w) w1 w
    ∧ (length printed ≤ 1)%nat.
Proof.
  rewrite get_pdf_page_count_run. cbv zeta.
  destruct (fs w !! file_path) as [f|].
  - destruct (PdfReader_pages (contents f)) as [n|e].
    + exists (Z.of_nat n), w, []. split; [done|]. split; [|cbn; lia].
      unfold same_but_stdout. split_and!; try done.
      exists []. by rewrite !(right_id_L [] (++)).
    + eexists 0, _, [_]. split; [done|]. split; [|cbn; lia].
      unfold same_but_stdout; cbn. split_and!; try done.
      exists []. by rewrite !(right_id_L [] (++)).
  - eexists 0, _, [_]. split; [done|]. split; [|cbn; lia].
    unfold same_but_stdout; cbn. split_and!; try done.
    exists []. by rewrite !(right_id_L [] (++)).
Qed.

Lemma get_pdf_page_count_ext file_path w w' :
  fs w !! file_path = fs w' !! file_path →
  (get_pdf_page_count file_path w).1 = (get_pdf_page_count file_path w').1.
Proof.
  intros Hfile. rewrite !get_pdf_page_count_run. cbv zeta. rewrite Hfile.
  destruct (fs w' !! file_path) as [f|]; [|done].
  by destruct (PdfReader_pages (contents f)).
Qed.

(** [get_pdf_page_count] returns from every state, with a count that is
    not negative, and changes nothing but the output. It prints nothing
    when it returns the number of pages the reader gives; when the file
    is missing or the reader fails it returns 0 and prints one warning
    that carries the message of the exception. *)
Theorem page_count_never_raises (file_path : string) (w : world) :
  ∃ page_count w1,
    get_pdf_page_count file_path w = (Ret page_count, w1)
    ∧ 0 ≤ page_count
    ∧ fs w1 = fs w ∧ clock w1 = clock w ∧ environ w1 = environ w
    ∧ parse_cache_global w1 = parse_cache_global w
    ∧ ((∃ f n, fs w !! file_path = Some f
               ∧ PdfReader_pages (contents f) = Ret n
               ∧ page_count = Z.of_nat n ∧ stdout w1 = stdout w)
       ∨ (∃ e, (fs w !! file_path = None ∧ e = FileNotFoundError file_path
                ∨ ∃ f, fs w !! file_path = Some f
                       ∧ PdfReader_pages (contents f) = Raise e)
               ∧ page_count = 0
               ∧ stdout w1
                 = stdout w
                   ++ ["Warning: Could not extract page count: "
                       +:+ exn_msg e])).
Proof.
  rewrite get_pdf_page_count_run. cbv zeta.
  destruct (fs w !! file_path) as [f|] eqn:Hfile.
  - destruct (PdfReader_pages (contents f)) as [n|e] eqn:Hpages.
    + exists (Z.of_nat n), w. split_and!; try done; [lia|].
      left. by exists f, n.
    + eexists 0, _. split_and!; try done.
      right. exists e. split_and!; [|done|done].
      right. by exists f.
  - eexists 0, _. split_and!; try done.
    right. exists (FileNotFoundError file_path). split_and!; [|done|done].
    by left.
Qed.

(** *** The API key *)

Lemma parse_pdf_no_key file_path config w :
  environ w !! "LLAMA_CLOUD_API_KEY" = None
  ∨ environ w !! "LLAMA_CLOUD_API_KEY" = Some "" →
  ∃ w1 printed,
    parse_pdf file_path config w
    = (Raise (Exn "ValueError"
                  "LLAMA_CLOUD_API_KEY environment variable is not set"), w1)
    ∧ same_but_stdout (stdout w ++ printed) (stdout w) w1 w
    ∧ (length printed ≤ 1)%nat.
Proof.
  intros Hkey.
  destruct (get_pdf_page_count_quiet file_path w)
    as (page_count & w1 & printed & Hcount & Hsame & Hlen).
  exists w1, printed. split; [|done].
  unfold parse_pdf. rewrite (bind_run _ _ _ _ _ Hcount).
  unfold bind, getenv.
  destruct Hsame as (_ & _ & _ & -> & _).
  by destruct Hkey as [-> | ->].
Qed.

Lemma same_but_stdout_printed printed w1 w :
  same_but_stdout (stdout w ++ printed) (stdout w) w1 w →
  stdout w1 = stdout w ++ printed.
Proof.
  intros (_ & _ & _ & _ & _ & suffix & Ho & Ho').
  apply (f_equal length) in Ho'. rewrite length_app in Ho'.
  destruct suffix; [|cbn in Ho'; lia]. by rewrite (right_id_L [] (++)) in Ho.
Qed.

(** Without an API key, that is when [LLAMA_CLOUD_API_KEY] is unset or
    empty, [parse_pdf] raises its [ValueError] whatever the file and the
    configuration are: no file is created, changed or removed and no
    cache instance is made. The page count is taken first, so one warning
    about it may have been printed. *)
Theorem parse_pdf_requires_api_key (file_path : string)
    (config : option (list (string * json))) (w : world) :
  environ w !! "LLAMA_CLOUD_API_KEY" = None
  ∨ environ w !! "LLAMA_CLOUD_API_KEY" = Some "" →
  let attempt := parse_pdf file_path config w in
  attempt.1 = Raise (Exn "ValueError"
                         "LLAMA_CLOUD_API_KEY environment variable is not set")
  ∧ fs attempt.2 = fs w
  ∧ parse_cache_global attempt.2 = parse_cache_global w
  ∧ ∃ printed,
      stdout attempt.2 = stdout w ++ printed ∧ (length printed ≤ 1)%nat.
Proof.
  intros Hkey attempt. subst attempt.
  destruct (parse_pdf_no_key file_path config w Hkey)
    as (w1 & printed & -> & Hsame & Hlen).
  cbn [fst snd]. split; [reflexivity|].
  pose proof (same_but_stdout_printed _ _ _ Hsame) as Hout.
  destruct Hsame as (Hfs & _ & _ & _ & Hglobal & _).
  split; [exact Hfs|]. split; [exact Hglobal|].
  exists printed. by split.
Qed.

(** *** The steps of [parse_pdf] *)

Lemma effective_config_run config w :
  ∃ w1 printed,
    (match config with
     | None => ret DEFAULT_PARSE_CONFIG
     | Some config =>
         try_except
           (let* parse_config := lift (ParseConfig_init config) in
            ret (model_dump parse_config))
           (λ e, print ("Invalid config, using defaults: " +:+ exn_msg e) ;;
                 ret DEFAULT_PARSE_CONFIG)
     end) w = (Ret (effective_config config), w1)
    ∧ same_but_stdout (stdout w ++ printed) (stdout w) w1 w.
Proof.
  destruct config as [config|]; cbn.
  - unfold try_except, bind, lift, print, ret.
    destruct (ParseConfig_init config) as [parse_config|e]; cbn.
    + exists w, []. split; [done|].
      unfold same_but_stdout. split_and!; try done.
      exists []. by rewrite !(right_id_L [] (++)).
    + eexists _, [_]. split; [done|].
      unfold same_but_stdout; cbn. split_and!; try done.
      exists []. by rewrite !(right_id_L [] (++)).
  - exists w, []. split; [done|].
    unfold same_but_stdout. split_and!; try done.
    exists []. by rewrite !(right_id_L [] (++)).
Qed.

Lemma same_but_stdout_app printed printed' w2 w1 w :
  same_but_stdout (stdout w ++ printed) (stdout w) w1 w →
  same_but_stdout (stdout w1 ++ printed') (stdout w1) w2 w1 →
  same_but_stdout (stdout w ++ printed ++ printed') (stdout w) w2 w.
Proof.
  intros H1 H2.
  pose proof (same_but_stdout_printed _ _ _ H1) as Ho1.
  pose proof (same_but_stdout_printed _ _ _ H2) as Ho2.
  destruct H1 as (Hf & Hc & Hd & He & Hg & _).
  destruct H2 as (Hf' & Hc' & Hd' & He' & Hg' & _).
  unfold same_but_stdout. split_and!; try congruence.
  exists []. rewrite !(right_id_L [] (++)). split; [|done].
  by rewrite Ho2, Ho1, (assoc_L (++)).
Qed.

(** With a key, [parse_pdf] is [parse_with_config] under the effective
    configuration, after the lines that the page count and the validation
    may have printed. *)
Lemma parse_pdf_with_key file_path config w api_key :
  environ w !! "LLAMA_CLOUD_API_KEY" = Some api_key → api_key ≠ "" →
  ∃ page_count printed,
    (get_pdf_page_count file_path w).1 = Ret page_count
    ∧ let attempt := parse_pdf file_path config w in
      let core := parse_with_config file_path page_count api_key
                    (effective_config config) w in
      attempt.1 = core.1
      ∧ same_but_stdout (stdout w ++ printed) (stdout w) attempt.2 core.2.
Proof.
  intros Hkey Hne.
  destruct (get_pdf_page_count_quiet file_path w)
    as (page_count & w1 & printed & Hcount & Hsame & _).
  destruct (effective_config_run config w1)
    as (w2 & printed' & Hconfig & Hsame').
  exists page_count, (printed ++ printed'). split; [by rewrite Hcount|].
  cbv zeta. unfold parse_pdf. rewrite (bind_run _ _ _ _ _ Hcount).
  assert (getenv "LLAMA_CLOUD_API_KEY" w1 = (Ret (Some api_key), w1)) as Henv.
  { unfold getenv. destruct Hsame as (_ & _ & _ & -> & _). by rewrite Hkey. }
  rewrite (bind_run _ _ _ _ _ Henv).
  destruct api_key as [|c api_key]; [done|].
  rewrite (bind_run _ _ _ _ _ Hconfig).
  apply oblivious_parse_with_config.
  by apply (same_but_stdout_app _ _ _ w1).
Qed.

(** *** A failed parse *)

Lemma ParseResultCache_get_files self file_hash config parser_method w :
  let lookup := ParseResultCache_get self file_hash config parser_method w in
  (∃ found, lookup.1 = Ret found)
  ∧ fs lookup.2 ⊆ fs w
  ∧ clock lookup.2 = clock w ∧ disk_ok lookup.2 = disk_ok w.
Proof.
  cbv zeta. rewrite ParseResultCache_get_unfold. cbv zeta.
  destruct (fs w !! _) as [f|]; [|by split; [exists None|]].
  case_bool_decide.
  { split; [by exists None|]. cbn. split; [apply delete_subseteq|done]. }
  destruct (json_loads (contents f)) as [data|e];
    [|by split; [exists None|]].
  destruct (get_markdown data) as [found|e];
    [by split; [exists found|]|by split; [exists None|]].
Qed.

Lemma ParseResultCache_set_returns self file_hash config markdown
    parser_method w :
  ∃ w1, ParseResultCache_set self file_hash config markdown parser_method w
        = (Ret (), w1).
Proof.
  unfold ParseResultCache_set. unfold_ops.
  destruct (disk_ok w); by eexists.
Qed.

Lemma outcome_state {S A} (m : M S A) s a :
  (m s).1 = Ret a → ∃ s1, m s = (Ret a, s1).
Proof. destruct (m s) as [o s1]. cbn. intros ->. by exists s1. Qed.

Lemma bind_cases {S A B} (m : M S A) (k : A → M S B) s o s' :
  bind m k s = (o, s') →
  (∃ e, m s = (Raise e, s') ∧ o = Raise e)
  ∨ (∃ a s1, m s = (Ret a, s1) ∧ k a s1 = (o, s')).
Proof.
  unfold bind. destruct (m s) as [[a|e] s1].
  - intros Hk. right. by exists a, s1.
  - intros [= <- <-]. left. by exists e.
Qed.

Lemma parse_with_config_failure file_path page_count api_key config w e w' :
  parse_with_config file_path page_count api_key config w = (Raise e, w') →
  fs w' ⊆ fs w.
Proof.
  unfold parse_with_config.
  intros [(e0 & Hinit & _)|(parse_config & w0 & Hinit & Hrun)]%bind_cases.
  { unfold lift in Hinit. by injection Hinit as _ <-. }
  assert (w0 = w) as -> by (unfold lift in Hinit; by injection Hinit).
  clear Hinit.
  apply bind_cases in Hrun
    as [(e0 & Hhash & _)|(file_hash & w0 & Hhash & Hrun)].
  { unfold hash_file, bind, open_read, ret in Hhash.
    destruct (fs w !! file_path); by injection Hhash as _ <-. }
  assert (w0 = w) as ->.
  { unfold hash_file, bind, open_read, ret in Hhash.
    destruct (fs w !! file_path); [by injection Hhash|done]. }
  clear Hhash.
  pose proof (proj1 (get_parse_cache_frame w)) as Hfs1.
  apply bind_cases in Hrun
    as [(e0 & Hcache & _)|(cache & w1 & Hcache & Hrun)];
    rewrite Hcache in Hfs1; cbn [snd] in Hfs1; [by rewrite Hfs1|].
  destruct (ParseResultCache_get_files cache file_hash config "llamaparse" w1)
    as ([found Hfound] & Hfs2 & _).
  rewrite Hfs1 in Hfs2.
  apply bind_cases in Hrun
    as [(e0 & Hget & _)|(cached_result & w2 & Hget & Hrun)];
    rewrite Hget in Hfound, Hfs2; cbn [fst snd] in Hfound, Hfs2; [done|].
  destruct cached_result as [cached|].
  { unfold bind, print, ret in Hrun. by injection Hrun. }
  apply bind_cases in Hrun
    as [(e0 & Hread & _)|(data & w3 & Hread & Hrun)].
  { unfold open_read in Hread.
    destruct (fs w2 !! file_path); by injection Hread as _ <-. }
  assert (w3 = w2) as ->.
  { unfold open_read in Hread.
    destruct (fs w2 !! file_path); [by injection Hread|done]. }
  apply bind_cases in Hrun
    as [(e0 & Hengine & _)|(documents & w3 & Hengine & Hrun)].
  { unfold lift in Hengine. by injection Hengine as _ <-. }
  exfalso.
  apply bind_cases in Hrun as [(e0 & Hset & _)|(? & w4 & _ & Hrun)].
  { destruct (ParseResultCache_set_returns cache file_hash config
                (join (String newline (String newline "")) documents)
                "llamaparse" w3) as [w4 Hreturns].
    by rewrite Hreturns in Hset. }
  unfold bind, print, ret in Hrun. by injection Hrun.
Qed.

(** A call of [parse_pdf] that raises, whatever the reason (no API key, a
    missing file, a value of [PARSE_CACHE_TTL] that is no integer, a failure
    of the engine), has created no file and changed none: every file there
    is afterwards was there before, with the same contents and modification
    time. In particular a failed parse is not cached. *)
Theorem parse_pdf_failure_writes_nothing (file_path : string)
    (config : option (list (string * json))) (w : world) (e : exn) :
  (parse_pdf file_path config w).1 = Raise e →
  fs (parse_pdf file_path config w).2 ⊆ fs w.
Proof.
  intros Hraise.
  destruct (environ w !! "LLAMA_CLOUD_API_KEY") as [api_key|] eqn:Hkey.
  2:{ destruct (parse_pdf_no_key file_path config w) as (w1 & printed & -> & Hw1 & _);
        [by left|].
      cbn. by destruct Hw1 as (-> & _). }
  destruct (decide (api_key = "")) as [->|Hne].
  { destruct (parse_pdf_no_key file_path config w) as (w1 & printed & -> & Hw1 & _);
      [by right|].
    cbn. by destruct Hw1 as (-> & _). }
  destruct (parse_pdf_with_key file_path config w api_key Hkey Hne)
    as (page_count & printed & _ & Hout & Hfs & _).
  rewrite Hfs. rewrite Hout in Hraise.
  destruct (parse_with_config file_path page_count api_key
              (effective_config config) w) as [o w'] eqn:Hcore.
  cbn [fst snd] in Hraise |- *. subst o.
  exact (parse_with_config_failure _ _ _ _ _ _ _ Hcore).
Qed.

(** *** The second parse of a file *)

Lemma parse_with_config_miss file_path page_count api_key config w f cache :
  fs w !! file_path = Some f →
  (get_parse_cache w).1 = Ret cache →
  let file_hash := sha256_hexdigest (contents f) in
  let entry := parse_entry cache file_hash config "llamaparse" in
  fs w !! entry = None →
  disk_ok w = true →
  ∀ r w1,
    parse_with_config file_path page_count api_key config w = (Ret r, w1) →
    ∃ parse_config markdown,
      ParseConfig_init config = Ret parse_config
      ∧ r = MkParseResult (JStr markdown) page_count
      ∧ fs w1
        = <[entry := File (json_dumps false
                             (parse_cache_data file_hash config markdown
                                               "llamaparse" (clock w)))
                          (clock w)]> (fs w)
      ∧ disk_ok w1 = true
      ∧ environ w1 = environ w
      ∧ parse_cache_global w1 = Some cache.
Proof.
  intros Hfile Hcache file_hash entry Hentry Hok r w1.
  unfold parse_with_config.
  unfold bind at 1. unfold lift at 1.
  destruct (ParseConfig_init config) as [parse_config|e0]; [|done].
  cbv beta iota.
  assert (hash_file file_path w = (Ret file_hash, w)) as Hhash.
  { unfold hash_file, bind, open_read, ret. by rewrite Hfile. }
  rewrite (bind_run _ _ _ _ _ Hhash).
  rewrite (bind_run _ _ _ _ _ (get_parse_cache_run _ _ Hcache)).
  set (wg := set_parse_cache_global cache w).
  assert (ParseResultCache_get cache file_hash config "llamaparse" wg
          = (Ret None, wg)) as Hget.
  { rewrite ParseResultCache_get_unfold. cbv zeta. fold entry.
    change (fs wg) with (fs w). by rewrite Hentry. }
  rewrite (bind_run _ _ _ _ _ Hget).
  assert (open_read file_path wg = (Ret (contents f), wg)) as Hread.
  { unfold open_read. change (fs wg) with (fs w). by rewrite Hfile. }
  rewrite (bind_run _ _ _ _ _ Hread).
  unfold bind at 1. unfold lift at 1.
  destruct (LlamaParse_load_data api_key parse_config (contents f))
    as [documents|e0]; [|done].
  unfold bind at 1.
  rewrite ParseResultCache_set_unfold by done.
  unfold bind, print, ret. intros [= <- <-].
  exists parse_config, (join (String newline (String newline "")) documents).
  by split_and!.
Qed.

Lemma parse_with_config_hit file_path page_count api_key config w f cache
    parse_config g data cached :
  ParseConfig_init config = Ret parse_config →
  fs w !! file_path = Some f →
  (get_parse_cache w).1 = Ret cache →
  let file_hash := sha256_hexdigest (contents f) in
  let entry := parse_entry cache file_hash config "llamaparse" in
  fs w !! entry = Some g →
  clock w - st_mtime g ≤ ttl cache →
  json_loads (contents g) = Ret data →
  get_markdown data = Ret (Some cached) →
  parse_with_config file_path page_count api_key config w
  = (Ret (MkParseResult cached page_count),
     set_stdout
       (λ out, out ++ ["Cache hit for " +:+ file_path +:+ " (LlamaParse)"])
       (set_parse_cache_global cache w)).
Proof.
  intros Hinit Hfile Hcache file_hash entry Hentry Hage Hload Hmarkdown.
  unfold parse_with_config.
  assert (lift (ParseConfig_init config) w = (Ret parse_config, w)) as Hlift
      by (unfold lift; by rewrite Hinit).
  rewrite (bind_run _ _ _ _ _ Hlift).
  assert (hash_file file_path w = (Ret file_hash, w)) as Hhash.
  { unfold hash_file, bind, open_read, ret. by rewrite Hfile. }
  rewrite (bind_run _ _ _ _ _ Hhash).
  rewrite (bind_run _ _ _ _ _ (get_parse_cache_run _ _ Hcache)).
  set (wg := set_parse_cache_global cache w).
  assert (ParseResultCache_get cache file_hash config "llamaparse" wg
          = (Ret (Some cached), wg)) as Hget.
  { rewrite ParseResultCache_get_unfold. cbv zeta. fold entry.
    change (fs wg) with (fs w). rewrite Hentry.
    change (clock wg) with (clock w). rewrite bool_decide_false by lia.
    by rewrite Hload, Hmarkdown. }
  rewrite (bind_run _ _ _ _ _ Hget).
  reflexivity.
Qed.

(** A call of [parse_pdf] that returned after finding no entry for the
    file, on a disk that can be written, has cached its result: a later
    call for the same file, with a configuration that validates to the same
    settings and while the age of the entry does not exceed the TTL, returns
    the same markdown and page count from the cache. That call reports a
    cache hit as its last line and leaves the files as they are. The reader
    is supposed to read back the entry that was written. *)
Theorem parse_pdf_second_call_hits_cache (file_path : string)
    (config config' : option (list (string * json))) (w w1 : world)
    (r : ParseResult) (f : file) (cache : cache_instance) (t1 : Z) :
  parse_pdf file_path config w = (Ret r, w1) →
  fs w !! file_path = Some f →
  (get_parse_cache w).1 = Ret cache →
  let file_hash := sha256_hexdigest (contents f) in
  let entry := parse_entry cache file_hash (effective_config config)
                           "llamaparse" in
  fs w !! entry = None →
  disk_ok w = true →
  (∀ text,
     markdown r = JStr text →
     let data := parse_cache_data file_hash (effective_config config) text
                                  "llamaparse" (clock w) in
     json_loads (json_dumps false data) = Ret data) →
  t1 - clock w ≤ ttl cache →
  effective_config config' = effective_config config →
  let again := parse_pdf file_path config' (at_time t1 w1) in
  again.1 = Ret r
  ∧ fs again.2 = fs w1
  ∧ ∃ printed,
      stdout again.2
      = stdout w1 ++ printed
        ++ ["Cache hit for " +:+ file_path +:+ " (LlamaParse)"].
Proof.
  intros Hrun Hfile Hcache file_hash entry Hentry Hok Hload Hage Hconfig again.
  destruct (environ w !! "LLAMA_CLOUD_API_KEY") as [api_key|] eqn:Hkey.
  2:{ destruct (parse_pdf_no_key file_path config w) as (? & ? & Hno & _);
        [by left|]. by rewrite Hno in Hrun. }
  destruct (decide (api_key = "")) as [->|Hne].
  { destruct (parse_pdf_no_key file_path config w) as (? & ? & Hno & _);
      [by right|]. by rewrite Hno in Hrun. }
  (* the first call *)
  destruct (parse_pdf_with_key file_path config w api_key Hkey Hne)
    as (page_count & printed & Hcount & Hout & Hsame).
  rewrite Hrun in Hout, Hsame. cbn [fst snd] in Hout, Hsame.
  destruct (parse_with_config file_path page_count api_key
              (effective_config config) w) as [o w0] eqn:Hcore.
  cbn [fst snd] in Hout, Hsame. subst o.
  destruct (parse_with_config_miss _ _ _ _ _ _ _ Hfile Hcache Hentry Hok _ _
              Hcore)
    as (parse_config & text & Hinit & -> & Hfs0 & Hok0 & Henv0 & Hglobal0).
  destruct Hsame as (Hfs1 & Hclock1 & Hok1 & Henv1 & Hglobal1 & _).
  (* the second call *)
  set (w2 := at_time t1 w1) in *.
  assert (fs w2 = <[entry := File (json_dumps false
                                     (parse_cache_data file_hash
                                        (effective_config config) text
                                        "llamaparse" (clock w)))
                                  (clock w)]> (fs w)) as Hfs2
      by (change (fs w2) with (fs w1); by rewrite Hfs1, Hfs0).
  assert (entry ≠ file_path) as Hpaths
      by (intros Heq; by rewrite Heq, Hfile in Hentry).
  assert (fs w2 !! file_path = Some f) as Hfile2
      by (by rewrite Hfs2, lookup_insert_ne).
  assert (environ w2 !! "LLAMA_CLOUD_API_KEY" = Some api_key) as Hkey2.
  { change (environ w2) with (environ w1). by rewrite Henv1, Henv0. }
  destruct (parse_pdf_with_key file_path config' w2 api_key Hkey2 Hne)
    as (page_count' & printed' & Hcount' & Hout' & Hsame').
  assert (page_count' = page_count) as ->.
  { rewrite (get_pdf_page_count_ext file_path w2 w) in Hcount'
      by (by rewrite Hfile2, Hfile).
    rewrite Hcount in Hcount'. by injection Hcount'. }
  rewrite Hconfig in Hout', Hsame'.
  assert ((get_parse_cache w2).1 = Ret cache) as Hcache2.
  { unfold get_parse_cache.
    change (parse_cache_global w2) with (parse_cache_global w1).
    by rewrite Hglobal1, Hglobal0. }
  assert (parse_with_config file_path page_count api_key
            (effective_config config) w2
          = (Ret (MkParseResult (JStr text) page_count),
             set_stdout
               (λ out, out ++ ["Cache hit for " +:+ file_path
                               +:+ " (LlamaParse)"])
               (set_parse_cache_global cache w2))) as Hhit.
  { apply (parse_with_config_hit file_path page_count api_key
             (effective_config config) w2 f cache parse_config
             (File (json_dumps false
                      (parse_cache_data file_hash (effective_config config)
                                        text "llamaparse" (clock w)))
                   (clock w))
             (parse_cache_data file_hash (effective_config config) text
                               "llamaparse" (clock w))
             (JStr text) Hinit Hfile2 Hcache2).
    - fold file_hash entry. rewrite Hfs2. apply lookup_insert_eq.
    - cbn. lia.
    - cbn. by apply Hload.
    - reflexivity. }
  rewrite Hhit in Hout', Hsame'. cbn [fst snd] in Hout', Hsame'.
  subst again. split_and!.
  - exact Hout'.
  - by destruct Hsame' as (-> & _).
  - destruct Hsame' as (_ & _ & _ & _ & _ & suffix & Ha & Hb).
    cbn in Hb. apply app_inv_head in Hb. subst suffix.
    exists printed'. by rewrite Ha, <-(assoc_L (++)).
Qed.

End Service.

(* ===================================================================== *)
(** * The properties at concrete inputs                                   *)
(* ===================================================================== *)

(** Round trip, five time units after the write. *)
Lemma cache_round_trip_witness :
  let w_embedding :=
    at_time 105 (EmbeddingCache_set plain_digest Ret demo_cache
                   "some text" "model-x" "vector" demo_world).2 in
  let w_chunks :=
    at_time 105 (ChunkResultCache_set plain_digest demo_cache "some text"
                   "semantic" demo_config demo_chunks demo_world).2 in
  let w_parse :=
    at_time 105 (ParseResultCache_set plain_digest demo_cache "f00d"
                   demo_config "# Title" "llamaparse" demo_world).2 in
  EmbeddingCache_get plain_digest Ret demo_cache "some text" "model-x"
    w_embedding = (Ret (Some "vector"), w_embedding)
  ∧ ChunkResultCache_get plain_digest demo_reader demo_cache "some text"
      "semantic" demo_config w_chunks
    = (Ret (Some (JList demo_chunks)), w_chunks)
  ∧ ParseResultCache_get plain_digest demo_reader demo_cache "f00d"
      demo_config "llamaparse" w_parse
    = (Ret (Some (JStr "# Title")), w_parse).
Proof.
  destruct (cache_round_trip plain_digest Ret Ret demo_reader demo_cache
              demo_world 105 eq_refl ltac:(done)) as (H1 & H2 & H3).
  split_and!.
  - exact (H1 "some text" "model-x" "vector" "vector" eq_refl eq_refl).
  - exact (H2 "some text" "semantic" demo_config demo_chunks eq_refl).
  - exact (H3 "f00d" demo_config "# Title" "llamaparse" eq_refl).
Defined.

(** Expiry: the three entries written at time 100 are live at time 110 and
    gone at time 111. *)
Lemma ttl_expiry_witness :
  let p := embedding_entry plain_digest demo_cache "some text" "model-x" in
  let w1 t := at_time t (EmbeddingCache_set plain_digest Ret demo_cache
                           "some text" "model-x" "vector" demo_world).2 in
  EmbeddingCache_get plain_digest Ret demo_cache "some text" "model-x" (w1 110)
  = (Ret (Some "vector"), w1 110)
  ∧ fs (w1 110) !! p = Some (File "vector" 100)
  ∧ EmbeddingCache_get plain_digest Ret demo_cache "some text" "model-x" (w1 111)
    = (Ret None, set_fs (delete p) (w1 111))
  ∧ fs (set_fs (delete p) (w1 111)) !! p = None.
Proof.
  intros p w1.
  destruct (ttl_expiry plain_digest Ret Ret demo_reader demo_cache demo_world
              110 eq_refl) as (Hlive & _ & _).
  destruct (ttl_expiry plain_digest Ret Ret demo_reader demo_cache demo_world
              111 eq_refl) as (Hgone & _ & _).
  destruct (Hlive "some text" "model-x" "vector" "vector" eq_refl eq_refl)
    as [_ Hlive'].
  destruct (Hgone "some text" "model-x" "vector" "vector" eq_refl eq_refl)
    as [Hgone' _].
  destruct (Hlive' ltac:(done)) as [H1 H2].
  destruct (Hgone' ltac:(done)) as [H3 H4].
  split_and!; [exact H1|exact H2|exact H3|exact H4].
Defined.

(** Zero TTL: a lookup one time unit after the write evicts the entry. *)
Lemma zero_ttl_expires_on_later_lookup_witness :
  let self := CacheInstance "cache" 0 in
  let p := embedding_entry plain_digest self "some text" "model-x" in
  let w1 := at_time 101 (EmbeddingCache_set plain_digest Ret self
                           "some text" "model-x" "vector" demo_world).2 in
  is_Some (fs w1 !! p)
  ∧ EmbeddingCache_get plain_digest Ret self "some text" "model-x" w1
    = (Ret None, set_fs (delete p) w1)
  ∧ fs (set_fs (delete p) w1) !! p = None.
Proof.
  intros self p w1.
  destruct (zero_ttl_expires_on_later_lookup plain_digest Ret Ret demo_reader
              self demo_world 101 eq_refl eq_refl ltac:(done)) as (H1 & _ & _).
  exact (H1 "some text" "model-x" "vector").
Defined.

(** Zero TTL, at the clock reading of the write: the age of the entry is
    [0], which is not greater than the TTL, so [get] returns the entry and
    the file stays. *)
Lemma zero_ttl_same_instant_counterexample :
  let self := CacheInstance "cache" 0 in
  let p := embedding_entry plain_digest self "some text" "model-x" in
  let w1 := (EmbeddingCache_set plain_digest Ret self
               "some text" "model-x" "vector" demo_world).2 in
  ttl self = 0
  ∧ EmbeddingCache_get plain_digest Ret self "some text" "model-x" w1
    = (Ret (Some "vector"), w1)
  ∧ (EmbeddingCache_get plain_digest Ret self "some text" "model-x" w1).1
    ≠ Ret None
  ∧ fs (EmbeddingCache_get plain_digest Ret self "some text" "model-x" w1).2
    !! p = Some (File "vector" 100).
Proof. intros self p w1. split_and!; [done|done|done|done]. Qed.

(** A corrupt entry: a file that holds ["garbage"] where the entry of the
    chunk cache should be. *)
Lemma corrupt_entry_is_a_miss_witness :
  let corrupt_world :=
    corrupt_world_at (chunk_entry plain_digest demo_cache "some text"
                                  "semantic" demo_config) in
  ∃ w', ChunkResultCache_get plain_digest demo_reader demo_cache "some text"
          "semantic" demo_config corrupt_world = (Ret None, w')
        ∧ stdout w'
          = ["Error loading chunk cache: "
             +:+ "Expecting value: line 1 column 1 (char 0)"]
        ∧ fs w' = fs corrupt_world.
Proof.
  intros corrupt_world.
  destruct (corrupt_entry_is_a_miss plain_digest (Embedding := string) Ret
              demo_reader demo_cache corrupt_world (File "garbage" 95)
              (Exn "JSONDecodeError" "Expecting value: line 1 column 1 (char 0)")
              ltac:(done)) as (_ & H2 & _).
  destruct (H2 "some text" "semantic" demo_config eq_refl eq_refl)
    as (w' & Hget & Hout & Hfs & _).
  exists w'. split_and!; [exact Hget|exact Hout|exact Hfs].
Defined.

(** The colliding pairs, five time units after the write. *)
Lemma embedding_key_collision_witness :
  let w1 := (EmbeddingCache_set plain_digest Ret demo_cache "a:b" "c"
               "first" demo_world).2 in
  let w2 := (EmbeddingCache_set plain_digest Ret demo_cache "a" "b:c"
               "second" w1).2 in
  EmbeddingCache_get plain_digest Ret demo_cache "a" "b:c" (at_time 105 w1)
  = (Ret (Some "first"), at_time 105 w1)
  ∧ EmbeddingCache_get plain_digest Ret demo_cache "a:b" "c" (at_time 105 w2)
    = (Ret (Some "second"), at_time 105 w2).
Proof.
  destruct (embedding_key_collision plain_digest Ret Ret) as (_ & _ & H).
  exact (H demo_cache demo_world 105 "first" "first" "second" "second"
           eq_refl ltac:(done) eq_refl eq_refl eq_refl eq_refl).
Defined.

Lemma cache_key_canonical_witness :
  config_ab ≠ config_ba
  ∧ json_dumps true (JDict config_ab) = json_dumps true (JDict config_ba)
  ∧ ChunkResultCache_get_cache_key plain_digest "abc" "semantic" config_ab
    = ChunkResultCache_get_cache_key plain_digest "abc" "semantic" config_ba
  ∧ ParseResultCache_get_cache_key plain_digest "f00d" config_ab "llamaparse"
    = ParseResultCache_get_cache_key plain_digest "f00d" config_ba "llamaparse".
Proof.
  assert (json_wf (JDict config_ab)) as Hwf1.
  { cbn. split_and!; try exact I;
      lazymatch goal with |- ?P => by apply (bool_decide_unpack P) end. }
  assert (json_wf (JDict config_ba)) as Hwf2.
  { cbn. split_and!; try exact I;
      lazymatch goal with |- ?P => by apply (bool_decide_unpack P) end. }
  assert (json_equiv (JDict config_ab) (JDict config_ba)) as Heq.
  { vm_compute. repeat split. }
  split; [discriminate|].
  exact (cache_key_canonical plain_digest config_ab config_ba "abc" "semantic"
           "f00d" "llamaparse" Hwf1 Hwf2 Heq).
Defined.


Lemma invalid_config_falls_back_witness :
  let run config :=
    parse_pdf plain_digest (reads_back []) one_page ParseConfig_strict
              echo_engine "doc.pdf" config parse_world in
  ParseConfig_strict mixed_config
  = Raise (ValidationError "unknown_option" "Extra inputs are not permitted")
  ∧ (run (Some mixed_config)).1 = (run None).1
  ∧ (run (Some mixed_config)).1
    = Ret (MkParseResult (JStr "en:%PDF-1.7") 1)
  ∧ fs (run (Some mixed_config)).2 = fs (run None).2.
Proof.
  intros run.
  destruct (invalid_config_falls_back plain_digest (reads_back []) one_page
              ParseConfig_strict echo_engine "doc.pdf" mixed_config
              (ValidationError "unknown_option" "Extra inputs are not permitted")
              parse_world eq_refl) as (Hout & Hfs & _ & _).
  split_and!; [reflexivity|exact Hout|reflexivity|exact Hfs].
Defined.


Example complexity_score_example :
  calculate_complexity_score "Cats purr. Dogs bark! Do birds sing?" = (42 # 100)%Q
  ∧ calculate_complexity_score "..." = 0%Q.
Proof. split; reflexivity. Qed.

(** Under the schema [{token_count}] no dictionary gets a position or a
    section path. *)
Lemma schema_filtering_witness :
  let h' := (enrich_metadata char_tokens breadcrumb_chunks "semantic" ""
               (Some ["token_count"]) ∅).2 in
  deref h' 2%positive !! "position_in_document" = None
  ∧ deref h' 2%positive !! "heading_1" = None
  ∧ deref h' 2%positive !! "section_path" = None.
Proof.
  intros h'.
  destruct (schema_filtering char_tokens breadcrumb_chunks "semantic" "" ∅)
    as [Hframe _].
  split_and!.
  - exact (Hframe (Some ["token_count"]) 2%positive "position_in_document"
             eq_refl).
  - exact (Hframe (Some ["token_count"]) 2%positive "heading_1" eq_refl).
  - exact (Hframe (Some ["token_count"]) 2%positive "section_path" eq_refl).
Defined.

(** Under the schema [{token_count}] the three chunks of the breadcrumb
    example get a token count and nothing else. *)
Example schema_filtering_example :
  ∃ h', enrich_metadata char_tokens breadcrumb_chunks "semantic" ""
          (Some ["token_count"]) ∅
        = (Ret [ ("# A" +:+ String newline "...", 1%positive);
                 ("body, no heading", 2%positive);
                 ("## B" +:+ String newline "...", 3%positive) ], h')
        ∧ map_to_list (deref h' 1%positive) = [("token_count", JInt 7)]
        ∧ map_to_list (deref h' 2%positive) = [("token_count", JInt 16)]
        ∧ map_to_list (deref h' 3%positive) = [("token_count", JInt 8)].
Proof. eexists. split_and!; vm_compute; reflexivity. Qed.

(** After [clear_all] the three lookups miss, in a world that held an
    embedding entry. *)
Lemma clear_all_then_get_misses_witness :
  let w0 :=
    (EmbeddingCache_set plain_digest Ret demo_cache "some text" "model-x"
                        "vector" demo_world).2 in
  fs w0 !! embedding_entry plain_digest demo_cache "some text" "model-x"
  = Some (File "vector" 100)
  ∧ (let w1 := (EmbeddingCache_clear_all demo_cache w0).2 in
     EmbeddingCache_get plain_digest Ret demo_cache "some text" "model-x" w1
     = (Ret None, w1))
  ∧ (let w1 := (ChunkResultCache_clear_all demo_cache w0).2 in
     ChunkResultCache_get plain_digest demo_reader demo_cache "some text"
       "semantic" demo_config w1 = (Ret None, w1))
  ∧ (let w1 := (ParseResultCache_clear_all demo_cache w0).2 in
     ParseResultCache_get plain_digest demo_reader demo_cache "f00d"
       demo_config "llamaparse" w1 = (Ret None, w1)).
Proof.
  intros w0. split; [reflexivity|].
  exact (clear_all_then_get_misses plain_digest Ret demo_reader demo_cache w0
           "some text" "model-x" "semantic" "f00d" "llamaparse" demo_config
           eq_refl eq_refl eq_refl).
Defined.

(** One entry of six bytes, then a second key with a pickle of three. *)
Lemma get_size_after_set_witness :
  let w0 :=
    (EmbeddingCache_set plain_digest Ret demo_cache "some text" "model-x"
                        "vector" demo_world).2 in
  EmbeddingCache_get_size demo_cache w0 = (Ret (1, 6), w0)
  ∧ (EmbeddingCache_get_size demo_cache
       (EmbeddingCache_set plain_digest Ret demo_cache "other text" "model-x"
                           "abc" w0).2).1 = Ret (2, 9).
Proof.
  intros w0.
  destruct (get_size_after_set plain_digest Ret demo_cache w0 "other text"
              "model-x" "abc" "abc" eq_refl eq_refl eq_refl)
    as (n & total & Hsize & Hafter).
  assert (EmbeddingCache_get_size demo_cache w0 = (Ret (1, 6), w0)) as Hnow
    by (vm_compute; reflexivity).
  split; [exact Hnow|].
  rewrite Hnow in Hsize. injection Hsize as <- <-. exact Hafter.
Defined.



(** A chunk cache and a parse cache set up on one directory. *)
Lemma clear_all_across_namespaces_witness :
  let w0 :=
    (ParseResultCache_set plain_digest demo_cache "f00d" demo_config "# Title"
                          "llamaparse" demo_world).2 in
  is_Some (fs w0 !! parse_entry plain_digest demo_cache "f00d" demo_config
                                "llamaparse")
  ∧ is_Some (fs (EmbeddingCache_clear_all demo_cache w0).2
               !! parse_entry plain_digest demo_cache "f00d" demo_config
                              "llamaparse")
  ∧ fs (ChunkResultCache_clear_all demo_cache w0).2
       !! parse_entry plain_digest demo_cache "f00d" demo_config "llamaparse"
    = None.
Proof.
  intros w0.
  destruct (clear_all_across_namespaces plain_digest demo_cache demo_cache w0
              "some text" "semantic" "f00d" "llamaparse" demo_config)
    as (_ & Hkept & Hgone & _).
  assert (is_Some (fs w0 !! parse_entry plain_digest demo_cache "f00d"
                                        demo_config "llamaparse")) as Hthere
    by (eexists; reflexivity).
  split; [exact Hthere|]. split.
  - rewrite Hkept. exact Hthere.
  - exact (Hgone eq_refl eq_refl).
Defined.


(** With the default settings the old embedding entry and the chunk entry
    are deleted; the other three files stay. *)
Lemma cleanup_caches_completes_witness :
  let s := cleanup_state ∅ in
  ∃ s', cleanup_caches s = (Ret (), s')
        ∧ stdout s'.1 = ["Cache cleanup completed"]
        ∧ fs s'.1
          = {[ "./cache/embeddings/new.pkl" := File "e" 900000;
               "./cache/parses/week.json" := File "{}" 900000;
               "./notes.txt" := File "n" 0 ]}.
Proof.
  intros s.
  assert ((get_embedding_cache s).1
          = Ret (CacheInstance "./cache/embeddings" 604800)) as He
    by (vm_compute; reflexivity).
  assert ((get_chunk_cache s).1 = Ret (CacheInstance "./cache/chunks" 86400))
    as Hc by (vm_compute; reflexivity).
  assert ((get_parse_cache s.1).1 = Ret (CacheInstance "./cache/parses" 604800))
    as Hp by (vm_compute; reflexivity).
  destruct (cleanup_caches_completes s _ _ _ He Hc Hp)
    as (s' & Hrun & Hout & Hfs & _).
  exists s'. split; [exact Hrun|]. split; [exact Hout|].
  rewrite Hfs. vm_compute. reflexivity.
Defined.

(** A TTL of the embedding cache that is no number: nothing is deleted. *)
Lemma cleanup_caches_stops_at_first_failure_witness :
  let s := cleanup_state {[ "EMBEDDING_CACHE_TTL" := "a week" ]} in
  ∃ s', cleanup_caches s = (Ret (), s')
        ∧ fs s'.1 = cleanup_files
        ∧ stdout s'.1
          = ["Error during cache cleanup: invalid literal for int() with base 10"].
Proof.
  intros s.
  assert ((get_embedding_cache s).1
          = Raise (Exn "ValueError" "invalid literal for int() with base 10"))
    as He by (vm_compute; reflexivity).
  destruct (cleanup_caches_stops_at_first_failure s
              (Exn "ValueError" "invalid literal for int() with base 10"))
    as [Hfirst _].
  eexists. split; [exact (Hfirst He)|]. split; reflexivity.
Defined.

(** The chunk cache created with a TTL of 60 keeps it when the variable
    changes. *)
Lemma global_instances_are_created_once_witness :
  let s := cleanup_state {[ "CHUNK_CACHE_TTL" := "60" ]} in
  let s1 := (get_chunk_cache s).2 in
  let s2 := (with_environ {[ "CHUNK_CACHE_TTL" := "3600" ]} s1.1, s1.2) in
  (get_chunk_cache s).1 = Ret (CacheInstance "./cache/chunks" 60)
  ∧ get_chunk_cache s2 = (Ret (CacheInstance "./cache/chunks" 60), s2)
  ∧ (get_embedding_cache s).1
    = Ret (CacheInstance "./cache/embeddings" 604800).
Proof.
  intros s s1 s2.
  assert ((get_chunk_cache s).1 = Ret (CacheInstance "./cache/chunks" 60))
    as Hc by (vm_compute; reflexivity).
  destruct (global_instances_are_created_once s
              (CacheInstance "./cache/chunks" 60)
              {[ "CHUNK_CACHE_TTL" := "3600" ]})
    as (_ & Hchunk & _ & Hdefault & _).
  split; [exact Hc|]. split.
  - exact (Hchunk Hc).
  - apply Hdefault; reflexivity.
Defined.

(** Three words: one minute at 200 words a minute, two minutes at two
    words a minute, where the quotient is a tie that rounds to the even
    two; one minute at a negative speed. *)
Lemma estimate_reading_time_bounds_witness :
  estimate_reading_time "one two three" 200 = Ret 1
  ∧ estimate_reading_time "one two three" 2 ≠ Ret 1
  ∧ estimate_reading_time "one two three" (-5) = Ret 1.
Proof.
  destruct (estimate_reading_time_bounds "one two three" "one two three four" 200)
    as (_ & _ & _ & Hfast).
  destruct (estimate_reading_time_bounds "one two three" "one two three four" 2)
    as (_ & _ & _ & Hslow).
  destruct (estimate_reading_time_bounds "one two three" "one two three four" (-5))
    as (_ & _ & Hneg & _).
  split; [|split].
  - apply (proj1 (Hfast ltac:(lia))). vm_compute. reflexivity.
  - intros Hone. apply (proj1 (Hslow ltac:(lia))) in Hone. vm_compute in Hone.
    discriminate Hone.
  - apply Hneg. lia.
Defined.

(** A second-level heading that is a number makes the path fail. *)
Lemma build_section_path_raises_iff_witness :
  ∃ e, build_section_path {[ "heading_1" := JStr "A"; "heading_2" := JInt 7 ]}
       = Raise e.
Proof.
  apply (proj1 (build_section_path_raises_iff _)).
  exists 2, (JInt 7). split; [lia|]. split; [reflexivity|].
  split; [reflexivity|]. intros s. discriminate.
Defined.

(** The field [author] of the first dictionary is not touched. *)
Lemma enrich_metadata_writes_only_enrichment_fields_witness :
  deref (enrich_metadata char_tokens demo_enrich_chunks "semantic" "" None
                         demo_store).2 1%positive !! "author"
  = Some (JStr "Ann").
Proof.
  rewrite (enrich_metadata_writes_only_enrichment_fields char_tokens).
  - reflexivity.
  - intros Hin. unfold enrichment_fields, strategy_fields in Hin.
    repeat (apply elem_of_cons in Hin as [Hin|Hin]; [discriminate Hin|]).
    by apply elem_of_nil in Hin.
Defined.

Lemma enrich_metadata_returns_on_string_headings_witness :
  ∃ enriched h',
    enrich_metadata char_tokens demo_enrich_chunks "hierarchical" "" None
                    demo_store = (Ret enriched, h')
    ∧ enriched.*1 = ["# A" +:+ String newline "first part"; "second part"].
Proof.
  destruct (enrich_metadata_returns_on_string_headings char_tokens
              demo_enrich_chunks "hierarchical" "" None demo_store
              demo_store_string_headings)
    as (enriched & h' & Hrun & _ & Hout).
  exists enriched, h'. split; [exact Hrun|].
  apply Forall2_cons_inv_l in Hout as (e1 & rest & [H1 _] & Hout & ->).
  apply Forall2_cons_inv_l in Hout as (e2 & rest' & [H2 _] & Hout & ->).
  apply Forall2_nil_inv_l in Hout as ->. cbn. by rewrite H1, H2.
Defined.


(** The second chunk is at position one of two and keeps the token count
    it came with. *)
Lemma enrich_metadata_sets_positions_witness :
  ∃ h',
    enrich_metadata char_tokens demo_enrich_chunks "semantic" "" None demo_store
    = (Ret [ ("# A" +:+ String newline "first part", 1%positive);
             ("second part", 2%positive) ], h')
    ∧ deref h' 2%positive !! "position_in_document" = Some (JInt 1)
    ∧ deref h' 2%positive !! "total_chunks" = Some (JInt 2)
    ∧ deref h' 2%positive !! "token_count" = Some (JInt 3)
    ∧ deref h' 1%positive !! "token_count" = Some (JInt 14).
Proof.
  destruct (enrich_metadata_sets_positions char_tokens demo_enrich_chunks
              [1%positive; 2%positive] "semantic" "" demo_store eq_refl
              ltac:(by apply (bool_decide_unpack _))
              demo_store_string_headings) as (h' & Hrun & Hfields).
  exists h'. split; [exact Hrun|].
  destruct (Hfields 1%nat _ 2%positive eq_refl eq_refl) as (Hp & Ht & Htc).
  destruct (Hfields 0%nat _ 1%positive eq_refl eq_refl) as (_ & _ & Htc1).
  split; [exact Hp|]. split; [exact Ht|]. split; [exact Htc|exact Htc1].
Defined.

(** The first dictionary keeps its section path under [by_heading]. *)
Lemma by_heading_keeps_section_path_witness :
  deref (enrich_metadata char_tokens demo_enrich_chunks "by_heading" "" None
                         demo_store).2 1%positive !! "section_path"
  = Some (JStr "Preface").
Proof.
  exact (by_heading_keeps_section_path char_tokens demo_enrich_chunks "" None
           demo_store 1%positive (JStr "Preface") eq_refl).
Defined.

Lemma heading_line_round_trip_witness :
  extract_heading_metadata ("##  Setup " +:+ String newline "Install it.")
  = [("heading_2", JStr "Setup"); ("heading_level", JInt 2)].
Proof.
  exact (proj2 (heading_line_round_trip 2 " Setup " "Install it."
                  ltac:(lia) eq_refl eq_refl)).
Defined.

Lemma code_block_round_trip_witness :
  extract_code_blocks
    ("Run:" +:+ String newline
       ("```python" +:+ String newline
          ("print(1)" +:+ String newline ("```" +:+ String newline "Done."))))
  = [("python", "print(1)")].
Proof.
  exact (code_block_round_trip ("Run:" +:+ String newline "") "python"
           ("print(1)" +:+ String newline "") (String newline "Done.")
           eq_refl eq_refl eq_refl eq_refl).
Defined.

(** Without the key the parse of [doc.pdf] stops at the check. *)
Lemma parse_pdf_requires_api_key_witness :
  let attempt :=
    parse_pdf plain_digest (reads_back []) one_page ParseConfig_strict
              echo_engine "doc.pdf" None keyless_world in
  environ keyless_world !! "LLAMA_CLOUD_API_KEY" = None
  ∧ attempt.1
    = Raise (Exn "ValueError"
                 "LLAMA_CLOUD_API_KEY environment variable is not set")
  ∧ fs attempt.2 = fs keyless_world.
Proof.
  intros attempt.
  assert (environ keyless_world !! "LLAMA_CLOUD_API_KEY" = None) as Hkey
      by (vm_compute; reflexivity).
  destruct (parse_pdf_requires_api_key plain_digest (reads_back []) one_page
              ParseConfig_strict echo_engine "doc.pdf" None keyless_world
              (or_introl Hkey)) as (Hraise & Hfs & _).
  split; [exact Hkey|]. split; [exact Hraise|exact Hfs].
Defined.

(** A failure of the engine leaves [doc.pdf] alone and caches nothing. *)
Lemma parse_pdf_failure_writes_nothing_witness :
  let attempt :=
    parse_pdf plain_digest (reads_back []) one_page ParseConfig_strict
              failing_engine "doc.pdf" None parse_world in
  attempt.1 = Raise (Exn "Exception" "Failed to parse the file")
  ∧ fs attempt.2 ⊆ fs parse_world.
Proof.
  intros attempt.
  assert (attempt.1 = Raise (Exn "Exception" "Failed to parse the file"))
    as Hraise by (vm_compute; reflexivity).
  split; [exact Hraise|].
  exact (parse_pdf_failure_writes_nothing plain_digest (reads_back [])
           one_page ParseConfig_strict failing_engine "doc.pdf" None
           parse_world _ Hraise).
Defined.

(** The parse of [doc.pdf] at time 100, then the parse with an empty
    configuration at time 200. *)
Lemma parse_pdf_second_call_hits_cache_witness :
  let run :=
    parse_pdf plain_digest (reads_back [cached_parse]) one_page
              ParseConfig_strict echo_engine "doc.pdf" in
  let r := MkParseResult (JStr "en:%PDF-1.7") 1 in
  ∃ w1,
    run None parse_world = (Ret r, w1)
    ∧ (run (Some []) (at_time 200 w1)).1 = Ret r
    ∧ fs (run (Some []) (at_time 200 w1)).2 = fs w1.
Proof.
  intros run r.
  assert ((run None parse_world).1 = Ret r) as Hfirst
      by (vm_compute; reflexivity).
  destruct (outcome_state _ _ _ Hfirst) as [w1 Hrun].
  assert (fs parse_world !! "doc.pdf" = Some (File "%PDF-1.7" 90)) as Hfile
      by (vm_compute; reflexivity).
  assert ((get_parse_cache parse_world).1
          = Ret (CacheInstance "./cache/parses" 604800)) as Hcache
      by (vm_compute; reflexivity).
  exists w1. split; [exact Hrun|].
  destruct (parse_pdf_second_call_hits_cache plain_digest
              (reads_back [cached_parse]) one_page ParseConfig_strict
              echo_engine "doc.pdf" None (Some []) parse_world w1 r
              (File "%PDF-1.7" 90) (CacheInstance "./cache/parses" 604800)
              200 Hrun Hfile Hcache)
    as (Hagain & Hfs & _).
  - vm_compute; reflexivity.
  - reflexivity.
  - intros text [= <-]. vm_compute; reflexivity.
  - vm_compute; discriminate.
  - vm_compute; reflexivity.
  - split; [exact Hagain|exact Hfs].
Defined.
